(** * tg-send-massage-to-groups: a shallow embedding of [main.py]

    The program keeps a JSON document of accounts and targets in
    [sessions.json], discovers [.session] files, logs the accounts in
    through the Pyrogram client and then sends every target's message from
    every account, every three hours.

    The embedding follows [main.py] method by method.  Python values are
    dynamically typed, so the document is a [value] and every indexing
    can raise; the manager object is an explicit state, threaded through a
    state-and-exception monad in which the state survives a raised
    exception, as the attributes of [self] do. *)

From Stdlib Require Import String Ascii DecimalString.
From Stdlib Require Import NArith ZArith Lia Bool List.
Import ListNotations.

Set Warnings "-register-all".

(** ** Python strings *)

(** A [str] is a sequence of Unicode code points. *)
Module PyStr.

Definition char := N.
Definition pystr := list char.

(** A literal of the source, written as a Rocq string of ASCII characters. *)
Definition py (s : string) : pystr := map N_of_ascii (list_ascii_of_string s).

Fixpoint eqb (a b : pystr) : bool :=
  match a, b with
  | [], [] => true
  | x :: a', y :: b' => N.eqb x y && eqb a' b'
  | _, _ => false
  end.

(** [s.startswith(p)] *)
Fixpoint startswith (p s : pystr) : bool :=
  match p, s with
  | [], _ => true
  | x :: p', y :: s' => N.eqb x y && startswith p' s'
  | _ :: _, [] => false
  end.

(** [s.endswith(suf)] *)
Definition endswith (suf s : pystr) : bool := startswith (rev suf) (rev s).

(** [sub in s] *)
Fixpoint contains (sub s : pystr) : bool :=
  startswith sub s ||
  match s with
  | [] => false
  | _ :: t => contains sub t
  end.

(** [s.replace(old, new)] for a non-empty [old]: the occurrences of [old]
    are found from left to right and do not overlap.  [skip] counts the
    characters of a matched occurrence that are still to be dropped. *)
Fixpoint replace_from (old new : pystr) (skip : nat) (s : pystr) : pystr :=
  match s with
  | [] => []
  | c :: t =>
      match skip with
      | S k => replace_from old new k t
      | O =>
          if startswith old s
          then new ++ replace_from old new (length old - 1) t
          else c :: replace_from old new 0 t
      end
  end.

Definition replace (old new s : pystr) : pystr := replace_from old new 0 s.

(** [s.split(sep)] for a non-empty [sep]; [cur] is the piece being read,
    reversed. *)
Fixpoint split_from (sep : pystr) (skip : nat) (cur : pystr) (s : pystr)
  : list pystr :=
  match s with
  | [] => [rev cur]
  | c :: t =>
      match skip with
      | S k => split_from sep k cur t
      | O =>
          if startswith sep s
          then rev cur :: split_from sep (length sep - 1) [] t
          else split_from sep 0 (c :: cur) t
      end
  end.

Definition split (sep s : pystr) : list pystr := split_from sep 0 [] s.

(** [sep.join(l)] *)
Fixpoint join (sep : pystr) (l : list pystr) : pystr :=
  match l with
  | [] => []
  | [x] => x
  | x :: l' => x ++ sep ++ join sep l'
  end.

(** [os.path.join(a, b)] on POSIX, for an [a] that does not end in a
    slash: an absolute [b] replaces [a]. *)
Definition path_join (a b : pystr) : pystr :=
  if startswith (py "/") b then b else a ++ py "/" ++ b.

(** [c.isalnum()] on the ASCII range. *)
Definition ascii_isalnum (c : char) : bool :=
  ((48 <=? c) && (c <=? 57) || (65 <=? c) && (c <=? 90)
   || (97 <=? c) && (c <=? 122))%N.

End PyStr.
Import PyStr.

(** ** Python values and exceptions *)

(** The values [json.load] can return.  A [dict] keeps its insertion order
    and its keys are strings.  A float is kept as the literal that denotes
    it: its rounding to binary64 is not modelled. *)
Inductive value : Type :=
| VNone
| VBool (b : bool)
| VInt (z : Z)
| VFloat (lexeme : pystr)
| VStr (s : pystr)
| VList (l : list value)
| VDict (d : list (pystr * value)).

Inductive exn_class : Type :=
| FileNotFoundError
| OSError
| JSONDecodeError
| KeyError
| TypeError
| AttributeError
| ValueError
| EOFError
| RPCError.

(** An exception of a subclass of [Exception]: its class and [str(e)].
    [KeyboardInterrupt] and the other asynchronous [BaseException]s are
    outside the embedding. *)
Record exn : Type := Raise { exn_cls : exn_class; exn_str : pystr }.

Definition result (A : Type) : Type := (exn + A)%type.

Definition exn_class_eqb (a b : exn_class) : bool :=
  match a, b with
  | FileNotFoundError, FileNotFoundError | OSError, OSError
  | JSONDecodeError, JSONDecodeError | KeyError, KeyError
  | TypeError, TypeError | AttributeError, AttributeError
  | ValueError, ValueError | EOFError, EOFError | RPCError, RPCError => true
  | _, _ => false
  end.

Module Dict.

Fixpoint get (k : pystr) (d : list (pystr * value)) : option value :=
  match d with
  | [] => None
  | (k', v) :: d' => if PyStr.eqb k k' then Some v else get k d'
  end.

(** [d[k] = v]: an existing key keeps its place, a new one goes last. *)
Fixpoint set (k : pystr) (v : value) (d : list (pystr * value))
  : list (pystr * value) :=
  match d with
  | [] => [(k, v)]
  | (k', v') :: d' =>
      if PyStr.eqb k k' then (k', v) :: d' else (k', v') :: set k v d'
  end.

End Dict.

(** [a == b].  Dicts compare as mappings, whatever their order; [True]
    and [False] equal 1 and 0; floats are compared by their literals. *)
Fixpoint py_eq (a b : value) {struct a} : bool :=
  match a, b with
  | VNone, VNone => true
  | VBool x, VBool y => Bool.eqb x y
  | VBool x, VInt y => Z.eqb (Z.b2z x) y
  | VInt x, VBool y => Z.eqb x (Z.b2z y)
  | VInt x, VInt y => Z.eqb x y
  | VFloat x, VFloat y => PyStr.eqb x y
  | VStr x, VStr y => PyStr.eqb x y
  | VList x, VList y =>
      (fix all2 (x : list value) (y : list value) : bool :=
         match x, y with
         | [], [] => true
         | u :: x', v :: y' => py_eq u v && all2 x' y'
         | _, _ => false
         end) x y
  | VDict x, VDict y =>
      Nat.eqb (length x) (length y) &&
      (fix all (x : list (pystr * value)) : bool :=
         match x with
         | [] => true
         | (k, u) :: x' =>
             match Dict.get k y with
             | Some v => py_eq u v
             | None => false
             end && all x'
         end) x
  | _, _ => false
  end.

(** Whether a float literal denotes something else than zero: [NaN], an
    infinity, or a mantissa with a digit that is not 0. *)
Fixpoint float_nonzero (lexeme : pystr) : bool :=
  match lexeme with
  | [] => false
  | c :: t =>
      if ((c =? 101) || (c =? 69))%N then false
      else ((49 <=? c) && (c <=? 57) || (c =? 78) || (c =? 73))%N
           || float_nonzero t
  end.

(** [bool(v)] *)
Definition truthy (v : value) : bool :=
  match v with
  | VNone => false
  | VBool b => b
  | VInt z => negb (Z.eqb z 0)
  | VFloat lx => float_nonzero lx
  | VStr s => negb (PyStr.eqb s [])
  | VList l => match l with [] => false | _ => true end
  | VDict d => match d with [] => false | _ => true end
  end.

(** [v[k]] for a string [k] *)
Definition getitem (v : value) (k : pystr) : result value :=
  match v with
  | VDict d =>
      match Dict.get k d with
      | Some x => inr x
      | None => inl (Raise KeyError k)
      end
  | VList _ => inl (Raise TypeError (py "list indices must be integers or slices, not str"))
  | VStr _ => inl (Raise TypeError (py "string indices must be integers"))
  | _ => inl (Raise TypeError (py "object is not subscriptable"))
  end.

(** The items [for x in v] goes through. *)
Definition iter (v : value) : result (list value) :=
  match v with
  | VList l => inr l
  | VDict d => inr (map (fun kv => VStr (fst kv)) d)
  | VStr s => inr (map (fun c => VStr [c]) s)
  | _ => inl (Raise TypeError (py "object is not iterable"))
  end.

(** [x in l] *)
Definition py_in (x : value) (l : list value) : bool :=
  existsb (fun y => py_eq y x) l.

(** [v.append(x)] *)
Definition append (v x : value) : result value :=
  match v with
  | VList l => inr (VList (l ++ [x]))
  | _ => inl (Raise AttributeError (py "object has no attribute 'append'"))
  end.

(** [l.remove(x)]: the first item equal to [x] goes. *)
Fixpoint remove_first (x : value) (l : list value) : option (list value) :=
  match l with
  | [] => None
  | y :: l' =>
      if py_eq y x then Some l'
      else option_map (cons y) (remove_first x l')
  end.

Definition remove (v x : value) : result value :=
  match v with
  | VList l =>
      match remove_first x l with
      | Some l' => inr (VList l')
      | None => inl (Raise ValueError (py "list.remove(x): x not in list"))
      end
  | _ => inl (Raise AttributeError (py "object has no attribute 'remove'"))
  end.

(** ** The [json] module

    [json.dump(obj, f, indent=4)] and [json.load(f)], for the values above,
    after CPython's encoder and scanner. *)
Module Json.

Local Open Scope N_scope.

(** *** Encoding *)

Definition hex_digit (n : N) : char := if n <? 10 then 48 + n else 87 + n.

(** ['{0:04x}'.format(n)] *)
Definition hex4 (n : N) : pystr :=
  [hex_digit (n / 4096 mod 16); hex_digit (n / 256 mod 16);
   hex_digit (n / 16 mod 16); hex_digit (n mod 16)].

(** A backslash, [u] and four hexadecimal digits. *)
Definition u_escape (n : N) : pystr := 92 :: 117 :: hex4 n.

(** The replacement of one character by [encode_basestring_ascii]:
    every character outside [' '..'~'] is escaped, one beyond the basic
    plane as a surrogate pair. *)
Definition escape_char (c : char) : pystr :=
  if c =? 34 then [92; 34]
  else if c =? 92 then [92; 92]
  else if c =? 10 then [92; 110]
  else if c =? 13 then [92; 114]
  else if c =? 9 then [92; 116]
  else if c =? 8 then [92; 98]
  else if c =? 12 then [92; 102]
  else if (32 <=? c) && (c <=? 126) then [c]
  else if c <? 65536 then u_escape c
  else
    let n := c - 65536 in
    u_escape (N.lor 55296 (N.land (N.shiftr n 10) 1023))
    ++ u_escape (N.lor 56320 (N.land n 1023)).

Definition encode_string (s : pystr) : pystr :=
  34 :: flat_map escape_char s ++ [34].

(** [int.__repr__] *)
Definition repr_int (z : Z) : pystr := py (NilZero.string_of_int (Z.to_int z)).

(** A newline and the indentation of a nesting level. *)
Definition newline_indent (level : nat) : pystr := 10 :: repeat 32 (4 * level).

(** The text of [v] at a nesting level, with [indent=4]: items are
    separated by a comma and a line break, a key from its value by a colon
    and a space, and an empty container takes two characters. *)
Fixpoint encode (level : nat) (v : value) : pystr :=
  match v with
  | VNone => py "null"
  | VBool true => py "true"
  | VBool false => py "false"
  | VInt z => repr_int z
  | VFloat lexeme => lexeme
  | VStr s => encode_string s
  | VList [] => py "[]"
  | VList l =>
      91 :: newline_indent (S level)
      ++ join (44 :: newline_indent (S level)) (map (encode (S level)) l)
      ++ newline_indent level ++ [93]
  | VDict [] => py "{}"
  | VDict d =>
      123 :: newline_indent (S level)
      ++ join (44 :: newline_indent (S level))
           (map (fun kv : pystr * value =>
                   let (k, x) := kv in
                   encode_string k ++ py ": " ++ encode (S level) x) d)
      ++ newline_indent level ++ [125]
  end.

Definition dumps (v : value) : pystr := encode 0 v.

(** *** Decoding *)

Definition is_ws (c : char) : bool :=
  (c =? 32) || (c =? 9) || (c =? 10) || (c =? 13).

Fixpoint skip_ws (s : pystr) : pystr :=
  match s with
  | c :: t => if is_ws c then skip_ws t else s
  | [] => []
  end.

Definition is_digit (c : char) : bool := (48 <=? c) && (c <=? 57).

Definition hex_value (c : char) : option N :=
  if (48 <=? c) && (c <=? 57) then Some (c - 48)
  else if (97 <=? c) && (c <=? 102) then Some (c - 87)
  else if (65 <=? c) && (c <=? 70) then Some (c - 55)
  else None.

Definition hex4_value (a b c d : char) : option N :=
  match hex_value a, hex_value b, hex_value c, hex_value d with
  | Some x, Some y, Some z, Some w => Some (((x * 16 + y) * 16 + z) * 16 + w)
  | _, _, _, _ => None
  end.

Definition is_high_surrogate (u : N) : bool := (55296 <=? u) && (u <=? 56319).
Definition is_low_surrogate (u : N) : bool := (56320 <=? u) && (u <=? 57343).

(** [Py_UNICODE_JOIN_SURROGATES] *)
Definition join_surrogates (hi lo : N) : N :=
  65536 + N.lor (N.shiftl (N.land hi 1023) 10) (N.land lo 1023).

Definition cons_char (c : char) (r : option (pystr * pystr))
  : option (pystr * pystr) :=
  match r with
  | Some (str, rest) => Some (c :: str, rest)
  | None => None
  end.

(** [scanstring], strict: [s] starts after the opening quote; the result is
    the string and what follows the closing quote.  A control character, a
    wrong escape and a missing closing quote are errors. *)
Fixpoint scanstring (s : pystr) : option (pystr * pystr) :=
  match s with
  | [] => None
  | c :: t =>
      if c =? 34 then Some ([], t)
      else if c =? 92 then
        match t with
        | [] => None
        | e :: t1 =>
            if e =? 117 then
              match t1 with
              | h1 :: h2 :: h3 :: h4 :: t2 =>
                  match hex4_value h1 h2 h3 h4 with
                  | None => None
                  | Some u =>
                      if is_high_surrogate u then
                        match t2 with
                        | b :: x :: t3 =>
                            if (b =? 92) && (x =? 117) then
                              match t3 with
                              | g1 :: g2 :: g3 :: g4 :: t4 =>
                                  match hex4_value g1 g2 g3 g4 with
                                  | None => None
                                  | Some u2 =>
                                      if is_low_surrogate u2
                                      then cons_char (join_surrogates u u2)
                                             (scanstring t4)
                                      else cons_char u (scanstring t2)
                                  end
                              | _ => None
                              end
                            else cons_char u (scanstring t2)
                        | _ => cons_char u (scanstring t2)
                        end
                      else cons_char u (scanstring t2)
                  end
              | _ => None
              end
            else if e =? 34 then cons_char 34 (scanstring t1)
            else if e =? 92 then cons_char 92 (scanstring t1)
            else if e =? 47 then cons_char 47 (scanstring t1)
            else if e =? 98 then cons_char 8 (scanstring t1)
            else if e =? 102 then cons_char 12 (scanstring t1)
            else if e =? 110 then cons_char 10 (scanstring t1)
            else if e =? 114 then cons_char 13 (scanstring t1)
            else if e =? 116 then cons_char 9 (scanstring t1)
            else None
        end
      else if c <=? 31 then None
      else cons_char c (scanstring t)
  end.

(** *** Numbers and the three names *)

Fixpoint span_digits (s : pystr) : pystr * pystr :=
  match s with
  | c :: t =>
      if is_digit c then let (d, r) := span_digits t in (c :: d, r)
      else ([], s)
  | [] => ([], [])
  end.

Definition digits_value (d : pystr) : Z :=
  fold_left (fun acc c => acc * 10 + Z.of_N (c - 48))%Z d 0%Z.

(** [int(lexeme)] for a lexeme of [scan_int]. *)
Definition int_of_lexeme (lexeme : pystr) : Z :=
  match lexeme with
  | c :: t => if c =? 45 then (- digits_value t)%Z else digits_value lexeme
  | [] => 0%Z
  end.

(** The integer part: an optional minus, then 0 or a digit that is not 0
    followed by digits. *)
Definition scan_int (s : pystr) : option (pystr * pystr) :=
  let (sign, s1) :=
    match s with
    | c :: t => if c =? 45 then ([45], t) else ([], s)
    | [] => ([], s)
    end in
  match s1 with
  | c :: t =>
      if c =? 48 then Some (sign ++ [48], t)
      else if is_digit c
           then let (d, r) := span_digits t in Some (sign ++ c :: d, r)
           else None
  | [] => None
  end.

(** The fraction: a dot and at least one digit, or nothing. *)
Definition scan_frac (s : pystr) : pystr * pystr :=
  match s with
  | dot :: c :: t =>
      if (dot =? 46) && is_digit c
      then let (d, r) := span_digits (c :: t) in (46 :: d, r)
      else ([], s)
  | _ => ([], s)
  end.

(** The exponent: [e] or [E], an optional sign and at least one digit, or
    nothing. *)
Definition scan_exp (s : pystr) : pystr * pystr :=
  match s with
  | e :: t =>
      if (e =? 101) || (e =? 69) then
        let (sg, t1) :=
          match t with
          | c :: t' => if (c =? 45) || (c =? 43) then ([c], t') else ([], t)
          | [] => ([], t)
          end in
        let (d, r) := span_digits t1 in
        match d with
        | [] => ([], s)
        | _ => (e :: sg ++ d, r)
        end
      else ([], s)
  | [] => ([], s)
  end.

Definition match_number (s : pystr) : option (value * pystr) :=
  match scan_int s with
  | None => None
  | Some (i, r1) =>
      let (f, r2) := scan_frac r1 in
      let (e, r3) := scan_exp r2 in
      match f, e with
      | [], [] => Some (VInt (int_of_lexeme i), r3)
      | _, _ => Some (VFloat (i ++ f ++ e), r3)
      end
  end.

Fixpoint strip_prefix (p s : pystr) : option pystr :=
  match p, s with
  | [], _ => Some s
  | x :: p', y :: s' => if x =? y then strip_prefix p' s' else None
  | _ :: _, [] => None
  end.

(** [null], [true], [false], [NaN], [Infinity] and [-Infinity]; anything
    else is tried as a number. *)
Definition scan_atom (s : pystr) : option (value * pystr) :=
  match strip_prefix (py "null") s with
  | Some r => Some (VNone, r)
  | None =>
  match strip_prefix (py "true") s with
  | Some r => Some (VBool true, r)
  | None =>
  match strip_prefix (py "false") s with
  | Some r => Some (VBool false, r)
  | None =>
  match strip_prefix (py "NaN") s with
  | Some r => Some (VFloat (py "NaN"), r)
  | None =>
  match strip_prefix (py "Infinity") s with
  | Some r => Some (VFloat (py "Infinity"), r)
  | None =>
  match strip_prefix (py "-Infinity") s with
  | Some r => Some (VFloat (py "-Infinity"), r)
  | None => match_number s
  end end end end end end.

(** *** Values *)

(** The outcome of a scan with a bound on its recursion. *)
Inductive scan (A : Type) : Type :=
| Scanned (x : A) (rest : pystr)
| Invalid
| Exhausted.
Arguments Scanned {A} x rest.
Arguments Invalid {A}.
Arguments Exhausted {A}.

(** [dict(pairs)]: a repeated key keeps its first place and its last
    value. *)
Definition dict_of_pairs (pairs : list (pystr * value)) : value :=
  VDict (fold_left (fun d kv => Dict.set (fst kv) (snd kv) d) pairs []).

(** [scan_once] reads one value at the head of [s]; [parse_items] reads
    the items of an array up to its closing bracket, [parse_members] the
    members of an object up to its closing brace.  Each call uses one unit
    of [fuel]. *)
Fixpoint scan_once (fuel : nat) (s : pystr) : scan value :=
  match fuel with
  | O => Exhausted
  | S fuel' =>
      match s with
      | [] => Invalid
      | c :: t =>
          if c =? 34 then
            match scanstring t with
            | Some (str, r) => Scanned (VStr str) r
            | None => Invalid
            end
          else if c =? 123 then
            match skip_ws t with
            | c' :: r =>
                if c' =? 125 then Scanned (VDict []) r
                else
                  match parse_members fuel' (c' :: r) with
                  | Scanned pairs r' => Scanned (dict_of_pairs pairs) r'
                  | Invalid => Invalid
                  | Exhausted => Exhausted
                  end
            | [] => Invalid
            end
          else if c =? 91 then
            match skip_ws t with
            | c' :: r =>
                if c' =? 93 then Scanned (VList []) r
                else
                  match parse_items fuel' (c' :: r) with
                  | Scanned items r' => Scanned (VList items) r'
                  | Invalid => Invalid
                  | Exhausted => Exhausted
                  end
            | [] => Invalid
            end
          else
            match scan_atom s with
            | Some (v, r) => Scanned v r
            | None => Invalid
            end
      end
  end

with parse_items (fuel : nat) (s : pystr) : scan (list value) :=
  match fuel with
  | O => Exhausted
  | S fuel' =>
      match scan_once fuel' s with
      | Scanned v r =>
          match skip_ws r with
          | c :: r' =>
              if c =? 93 then Scanned [v] r'
              else if c =? 44 then
                match parse_items fuel' (skip_ws r') with
                | Scanned items r'' => Scanned (v :: items) r''
                | Invalid => Invalid
                | Exhausted => Exhausted
                end
              else Invalid
          | [] => Invalid
          end
      | Invalid => Invalid
      | Exhausted => Exhausted
      end
  end

with parse_members (fuel : nat) (s : pystr) : scan (list (pystr * value)) :=
  match fuel with
  | O => Exhausted
  | S fuel' =>
      match s with
      | q :: t =>
          if q =? 34 then
            match scanstring t with
            | Some (key, r) =>
                match skip_ws r with
                | colon :: r1 =>
                    if colon =? 58 then
                      match scan_once fuel' (skip_ws r1) with
                      | Scanned v r2 =>
                          match skip_ws r2 with
                          | c :: r3 =>
                              if c =? 125 then Scanned [(key, v)] r3
                              else if c =? 44 then
                                match parse_members fuel' (skip_ws r3) with
                                | Scanned pairs r4 =>
                                    Scanned ((key, v) :: pairs) r4
                                | Invalid => Invalid
                                | Exhausted => Exhausted
                                end
                              else Invalid
                          | [] => Invalid
                          end
                      | Invalid => Invalid
                      | Exhausted => Exhausted
                      end
                    else Invalid
                | [] => Invalid
                end
            | None => Invalid
            end
          else Invalid
      | [] => Invalid
      end
  end.

(** [json.loads(s)]: a byte order mark, a text that is no value and
    anything but white space after the value raise [JSONDecodeError], the
    message of which is not modelled.  The recursion is bounded by twice
    the length of the text, which [scan_once_enough] shows to be enough. *)
Definition decode_error : exn := Raise JSONDecodeError (py "JSONDecodeError").

Definition loads (s : pystr) : result value :=
  if startswith [65279] s then inl decode_error
  else
    match scan_once (2 * length s + 1) (skip_ws s) with
    | Scanned v r =>
        match skip_ws r with
        | [] => inr v
        | _ :: _ => inl decode_error
        end
    | Invalid => inl decode_error
    | Exhausted => inl decode_error
    end.

End Json.

(** ** The world and the state of the program *)

(** A directory: the names of its files and its subdirectories. *)
Inductive dir : Type := Dir (files : list pystr) (subdirs : list (pystr * dir)).

Definition dir_files (d : dir) : list pystr := let (fs, _) := d in fs.
Definition dir_subdirs (d : dir) : list (pystr * dir) := let (_, ds) := d in ds.

(** [os.walk(d)], top-down: the [files] component of each triple. *)
Fixpoint walk (d : dir) : list (list pystr) :=
  match d with
  | Dir fs ds => fs :: flat_map (fun p : pystr * dir => walk (snd p)) ds
  end.

(** A Pyrogram [Client]: the session name it was made with, which is
    whatever value the caller passed, and its [no_updates] flag. *)
Record client : Type := Client { client_name : value; no_updates : bool }.

(** What [get_me()] returns, as far as the program reads it. *)
Record user : Type := User { username : option pystr; first_name : option pystr }.

Inductive event : Type :=
| Print (text : string) (args : list value)
| Prompt (text : string)
| Saved (text : pystr)
| Started (c : client) (outcome : option exn)
| GotMe (c : client) (outcome : result user)
| Stopped (c : client)
| Sent (c : client) (recipient message : value) (outcome : option exn)
| Slept (seconds : Z).

(** What the program cannot decide: the files next to the script, the
    Unicode table behind [str.isalnum], and what the Telegram client
    answers.  The answers may depend on everything that happened before,
    so they take the number of events logged so far. *)
Record world : Type := World {
  script_dir : dir;
  session_file_exists : value -> bool;
  unicode_isalnum : char -> bool;
  start_outcome : nat -> client -> option exn;
  get_me_outcome : nat -> client -> result user;
  send_outcome : nat -> client -> value -> value -> option exn
}.

(** The manager object ([sessions_data], [clients]) with the content of
    [sessions.json] (what opening and reading it gives), the lines still
    to come on standard input and the trace of what the program did. *)
Record state : Type := State {
  sessions_data : value;
  clients : list client;
  sessions_file : result pystr;
  stdin : list pystr;
  log : list event
}.

Definition set_data (v : value) (st : state) : state :=
  State v (clients st) (sessions_file st) (stdin st) (log st).
Definition set_clients (cs : list client) (st : state) : state :=
  State (sessions_data st) cs (sessions_file st) (stdin st) (log st).
Definition set_file (f : result pystr) (st : state) : state :=
  State (sessions_data st) (clients st) f (stdin st) (log st).
Definition set_stdin (l : list pystr) (st : state) : state :=
  State (sessions_data st) (clients st) (sessions_file st) l (log st).
Definition add_log (e : event) (st : state) : state :=
  State (sessions_data st) (clients st) (sessions_file st) (stdin st)
        (log st ++ [e]).

(** ** State and exceptions *)

Definition M (A : Type) : Type := state -> result A * state.

Definition ret {A} (x : A) : M A := fun st => (inr x, st).

Definition bind {A B} (c : M A) (k : A -> M B) : M B :=
  fun st =>
    match c st with
    | (inr x, st') => k x st'
    | (inl e, st') => (inl e, st')
    end.

Definition raise {A} (e : exn) : M A := fun st => (inl e, st).

(** [try: c  except Exception as e: h e] *)
Definition try_except {A} (c : M A) (h : exn -> M A) : M A :=
  fun st =>
    match c st with
    | (inr x, st') => (inr x, st')
    | (inl e, st') => h e st'
    end.

Definition lift {A} (r : result A) : M A := fun st => (r, st).
Definition gets {A} (f : state -> A) : M A := fun st => (inr (f st), st).
Definition modify (f : state -> state) : M unit := fun st => (inr tt, f st).

Declare Scope py_scope.
Delimit Scope py_scope with py_m.
Notation "x <- c ;; k" := (bind c (fun x => k))
  (at level 61, c at next level, right associativity) : py_scope.
Notation "c ;; k" := (bind c (fun _ => k))
  (at level 61, right associativity) : py_scope.
Local Open Scope py_scope.

Definition print (text : string) (args : list value) : M unit :=
  modify (add_log (Print text args)).

(** [input(prompt)]: the prompt is shown, then a line is read; the end of
    the input raises [EOFError]. *)
Definition input (prompt : string) : M pystr :=
  modify (add_log (Prompt prompt)) ;;
  lines <- gets stdin ;;
  match lines with
  | [] => raise (Raise EOFError (py "EOF when reading a line"))
  | l :: rest => modify (set_stdin rest) ;; ret l
  end.

(** [for x in l: body x], which an exception leaves. *)
Fixpoint for_each {A} (body : A -> M unit) (l : list A) : M unit :=
  match l with
  | [] => ret tt
  | x :: l' => body x ;; for_each body l'
  end.

(** [[f x for x in l]] where [f] can raise. *)
Fixpoint traverse {A B} (f : A -> result B) (l : list A) : result (list B) :=
  match l with
  | [] => inr []
  | x :: l' =>
      match f x with
      | inl e => inl e
      | inr y =>
          match traverse f l' with
          | inl e => inl e
          | inr ys => inr (y :: ys)
          end
      end
  end.

(** ** [TelegramManager] *)

Definition default_document : value :=
  VDict [(py "accounts", VList []); (py "targets", VList [])].

(** [load_sessions]: only [FileNotFoundError] is caught. *)
Definition load_sessions (file : result pystr) : result value :=
  match file with
  | inr text => Json.loads text
  | inl e =>
      if exn_class_eqb (exn_cls e) FileNotFoundError
      then inr default_document
      else inl e
  end.

(** [__init__], for a given [sessions.json] and standard input. *)
Definition init (file : result pystr) (lines : list pystr) : result state :=
  match load_sessions file with
  | inr data => inr (State data [] file lines [])
  | inl e => inl e
  end.

(** [save_sessions]: the file is overwritten with the whole document. *)
Definition save_sessions : M unit :=
  data <- gets sessions_data ;;
  modify (set_file (inr (Json.dumps data))) ;;
  modify (add_log (Saved (Json.dumps data))).

(** [self.sessions_data[key]] *)
Definition data_item (key : string) : M value :=
  data <- gets sessions_data ;;
  lift (getitem data (py key)).

(** [self.sessions_data[key].f(...)] for a method [f] that changes the
    list in place: the document holds the changed list from then on. *)
Definition mutate_item (key : string) (f : value -> result value) : M unit :=
  data <- gets sessions_data ;;
  old <- lift (getitem data (py key)) ;;
  new <- lift (f old) ;;
  match data with
  | VDict d => modify (set_data (VDict (Dict.set (py key) new d)))
  | _ => ret tt
  end.

(** [[acc['session_name'] for acc in self.sessions_data['accounts']]] *)
Definition tracked_names : M (list value) :=
  accounts <- data_item "accounts" ;;
  items <- lift (iter accounts) ;;
  lift (traverse (fun acc => getitem acc (py "session_name")) items).

Definition account_entry (session_name : pystr) : value :=
  VDict [(py "session_name", VStr session_name)].

Section Manager.

Variable w : world.

(** *** [detect_existing_sessions] *)

(** [os.path.exists(sessions_dir)] *)
Definition sessions_dir_exists : bool :=
  existsb (PyStr.eqb (py "sessions")) (dir_files (script_dir w))
  || existsb (fun p => PyStr.eqb (py "sessions") (fst p))
       (dir_subdirs (script_dir w)).

(** [os.walk(sessions_dir)]: nothing when it is no directory. *)
Definition walk_sessions_dir : list (list pystr) :=
  match find (fun p => PyStr.eqb (py "sessions") (fst p))
             (dir_subdirs (script_dir w)) with
  | Some (_, d) => walk d
  | None => []
  end.

(** The files the three nested loops go through, in order. *)
Definition walked_files : list pystr :=
  concat (walk (script_dir w))
  ++ (if sessions_dir_exists then concat walk_sessions_dir else []).

(** The body of the innermost loop; [session_files] is the local list. *)
Definition detect_file (session_files : list pystr) (file : pystr)
  : M (list pystr) :=
  if endswith (py ".session") file then
    let session_name := replace (py ".session") [] file in
    if PyStr.eqb session_name (py "temp_session") then ret session_files
    else
      names <- tracked_names ;;
      if negb (py_in (VStr session_name) names) then
        mutate_item "accounts" (fun l => append l (account_entry session_name)) ;;
        ret (session_files ++ [session_name])
      else ret session_files
  else ret session_files.

Fixpoint detect_files (session_files : list pystr) (files : list pystr)
  : M (list pystr) :=
  match files with
  | [] => ret session_files
  | file :: files' =>
      session_files' <- detect_file session_files file ;;
      detect_files session_files' files'
  end.

Definition detect_existing_sessions : M (list pystr) :=
  print "Searching for sessions in: {} and {}" [] ;;
  session_files <- detect_files [] walked_files ;;
  match session_files with
  | _ :: _ =>
      print "Found existing sessions: {}"
            [VStr (join (py ", ") session_files)] ;;
      save_sessions
  | [] => print "No existing session files found" []
  end ;;
  ret session_files.

(** *** The Telegram client *)

Definition start (c : client) : M unit :=
  n <- gets (fun st => length (log st)) ;;
  modify (add_log (Started c (start_outcome w n c))) ;;
  match start_outcome w n c with
  | Some e => raise e
  | None => ret tt
  end.

Definition get_me (c : client) : M user :=
  n <- gets (fun st => length (log st)) ;;
  modify (add_log (GotMe c (get_me_outcome w n c))) ;;
  lift (get_me_outcome w n c).

Definition stop (c : client) : M unit := modify (add_log (Stopped c)).

Definition client_send_message (c : client) (recipient message : value)
  : M unit :=
  n <- gets (fun st => length (log st)) ;;
  modify (add_log (Sent c recipient message (send_outcome w n c recipient message))) ;;
  match send_outcome w n c recipient message with
  | Some e => raise e
  | None => ret tt
  end.

(** *** [add_new_account] *)

(** [c.isalnum()] *)
Definition isalnum (c : char) : bool :=
  if (c <? 128)%N then ascii_isalnum c else unicode_isalnum w c.

(** The characters kept in a session name. *)
Definition sanitize (name : pystr) : pystr :=
  filter (fun c => isalnum c || (c =? 45)%N || (c =? 95)%N) name.

(** [me.username or me.first_name] *)
Definition username_or_first_name (me : user) : option pystr :=
  match username me with
  | Some ((_ :: _) as u) => Some u
  | _ => first_name me
  end.

Definition opt_str (s : option pystr) : value :=
  match s with
  | Some x => VStr x
  | None => VNone
  end.

Definition add_new_account : M (option client) :=
  let temp := Client (VStr (py "temp_session")) false in
  try_except
    (start temp ;;
     me <- get_me temp ;;
     session_name <-
       match username_or_first_name me with
       | Some name => ret (sanitize name)
       | None => raise (Raise TypeError (py "'NoneType' object is not iterable"))
       end ;;
     stop temp ;;
     let c := Client (VStr session_name) false in
     start c ;;
     print "Successfully logged in as {}" [opt_str (first_name me)] ;;
     names <- tracked_names ;;
     (if negb (py_in (VStr session_name) names) then
        mutate_item "accounts" (fun l => append l (account_entry session_name)) ;;
        save_sessions
      else ret tt) ;;
     modify (fun st => set_clients (clients st ++ [c]) st) ;;
     ret (Some c))
    (fun e =>
       print "Failed to initialize client: {}" [VStr (exn_str e)] ;;
       ret None).

(** *** [add_target] *)

(** The clean-up of the target input. *)
Definition normalize_target (target : pystr) : pystr :=
  if startswith (py "@") target then tl target
  else if contains (py "t.me/") target
       then last (split (py "t.me/") target) []
       else target.

Definition target_entry (recipient message : pystr) : value :=
  VDict [(py "recipient", VStr recipient); (py "message", VStr message)].

Definition add_target : M unit :=
  target <- input "Enter target username/group/channel (with or without @) or link: " ;;
  message <- input "Enter the message to send: " ;;
  let target := normalize_target target in
  mutate_item "targets" (fun l => append l (target_entry target message)) ;;
  save_sessions ;;
  print "Added new target: {}" [VStr target].

(** *** [send_message] and [scheduled_message_sender] *)

Definition send_message (c : client) (recipient message : value) : M unit :=
  try_except
    (client_send_message c recipient message ;;
     print "Message sent successfully to {}" [recipient])
    (fun e => print "Failed to send message: {}" [VStr (exn_str e)]).

(** The body of the inner loop, for one client and one target. *)
Definition send_to_target (c : client) (target : value) : M unit :=
  try_except
    (shown <- lift (getitem target (py "recipient")) ;;
     print "\nSending message to {}..." [shown] ;;
     recipient <- lift (getitem target (py "recipient")) ;;
     message <- lift (getitem target (py "message")) ;;
     send_message c recipient message)
    (fun e => print "Error in scheduled sender: {}" [VStr (exn_str e)]).

(** One round of the endless loop: every client, every target, then the
    announcement of the next round and three hours of sleep. *)
Definition broadcast_round : M unit :=
  cs <- gets clients ;;
  for_each
    (fun c =>
       targets <- data_item "targets" ;;
       items <- lift (iter targets) ;;
       for_each (send_to_target c) items)
    cs ;;
  print "\nNext messages will be sent in 3 hours at {}" [] ;;
  modify (add_log (Slept (3 * 60 * 60))).

(** The first [rounds] rounds of [scheduled_message_sender], which has no
    last one. *)
Fixpoint scheduled_message_sender (rounds : nat) : M unit :=
  match rounds with
  | O => ret tt
  | S n => broadcast_round ;; scheduled_message_sender n
  end.

(** *** [setup] *)

(** The body of the loop over the accounts. *)
Definition load_account (account : value) : M unit :=
  try_except
    (name <- lift (getitem account (py "session_name")) ;;
     session_path <-
       (if session_file_exists w name then
          match name with
          | VStr s => ret (VStr (path_join (py "sessions") s))
          | _ => raise (Raise TypeError (py "expected str, bytes or os.PathLike object"))
          end
        else ret name) ;;
     let c := Client session_path true in
     if py_eq name (VStr (py "temp_session")) then ret tt
     else
       start c ;;
       modify (fun st => set_clients (clients st ++ [c]) st) ;;
       print "Successfully loaded session: {}" [name])
    (fun e =>
       name <- lift (getitem account (py "session_name")) ;;
       print "Failed to load session {}: {}" [name; VStr (exn_str e)] ;;
       mutate_item "accounts" (fun l => remove l account) ;;
       save_sessions).

(** The items the loop over [self.sessions_data['accounts']] still sees:
    the list is the one the body removes from. *)
Definition accounts_items : M (list value) :=
  accounts <- data_item "accounts" ;;
  lift (iter accounts).

(** The loop from position [i] on: the iterator of a list hands out the
    item at its position in the list as it is then, and stops when the
    position is past the end.  [fuel] bounds the number of steps. *)
Fixpoint load_accounts_from (fuel i : nat) : M unit :=
  match fuel with
  | O => ret tt
  | S fuel' =>
      items <- accounts_items ;;
      match nth_error items i with
      | None => ret tt
      | Some account => load_account account ;; load_accounts_from fuel' (S i)
      end
  end.

Definition load_accounts : M unit :=
  items <- accounts_items ;;
  load_accounts_from (length items) 0.

(** [s.lower()] on the ASCII range; no other character has [y] as its
    lower case. *)
Definition lower (s : pystr) : pystr :=
  map (fun c => if ((65 <=? c) && (c <=? 90))%N then (c + 32)%N else c) s.

(** [while True] around the question for another account.  Every turn
    reads a line, so [fuel] beyond the number of lines left is never
    used. *)
Fixpoint more_accounts (fuel : nat) : M unit :=
  match fuel with
  | O => ret tt
  | S fuel' =>
      add_more <- input "\nDo you want to add another account? (y/N): " ;;
      if negb (PyStr.eqb (lower add_more) (py "y")) then ret tt
      else add_new_account ;; more_accounts fuel'
  end.

Fixpoint more_targets (fuel : nat) : M unit :=
  match fuel with
  | O => ret tt
  | S fuel' =>
      add_more <- input "\nDo you want to add another target? (y/N): " ;;
      if negb (PyStr.eqb (lower add_more) (py "y")) then ret tt
      else add_target ;; more_targets fuel'
  end.

(** The end of [setup], from [# Add targets if none exist] on. *)
Definition setup_targets : M unit :=
  targets <- data_item "targets" ;;
  (if negb (truthy targets) then
     print "\nNo targets found. Let's add one." [] ;;
     add_target
   else ret tt) ;;
  lines <- gets stdin ;;
  more_targets (S (length lines)).

Definition setup : M unit :=
  print "\n==================================================" [] ;;
  print "TG-SEND-MASSAGE-TO-GROUPS" [] ;;
  print "==================================================\n" [] ;;
  detect_existing_sessions ;;
  load_accounts ;;
  cs <- gets clients ;;
  match cs with
  | [] =>
      print "\nNo valid sessions found. Let's add a new account." [] ;;
      add_new_account ;;
      ret tt
  | _ :: _ =>
      lines <- gets stdin ;;
      more_accounts (S (length lines))
  end ;;
  setup_targets.

(** *** [run] *)

(** [try: c  finally: f] *)
Definition finally {A} (c : M A) (f : M unit) : M A :=
  fun st =>
    match c st with
    | (r, st') =>
        match f st' with
        | (inr _, st'') => (r, st'')
        | (inl e, st'') => (inl e, st'')
        end
    end.

(** [run], as far as the first [rounds] rounds of sending. *)
Definition run (rounds : nat) : M unit :=
  finally
    (setup ;;
     print "\nStarting scheduled message sender..." [] ;;
     print "Press Ctrl+C to stop the program" [] ;;
     print "==================================================" [] ;;
     scheduled_message_sender rounds)
    (cs <- gets clients ;; for_each stop cs).

End Manager.

(** * The vocabulary of the properties *)

(** ** Traces *)

(** The state after some more events. *)
Definition extend_log (evs : list event) (st : state) : state :=
  State (sessions_data st) (clients st) (sessions_file st) (stdin st)
        (log st ++ evs).

(** ** One round of sending *)

(** What the loop body logs for one client and one target, when [n]
    events were logged before: the announcement, the call with its
    outcome, and the line about the outcome.  A target without a
    recipient or a message only gets the line of the outer handler. *)
Definition target_events (w : world) (n : nat) (c : client) (target : value)
  : list event :=
  match getitem target (py "recipient") with
  | inl e => [Print "Error in scheduled sender: {}" [VStr (exn_str e)]]
  | inr r =>
      Print "\nSending message to {}..." [r] ::
      match getitem target (py "message") with
      | inl e => [Print "Error in scheduled sender: {}" [VStr (exn_str e)]]
      | inr m =>
          [Sent c r m (send_outcome w (S n) c r m);
           match send_outcome w (S n) c r m with
           | None => Print "Message sent successfully to {}" [r]
           | Some e => Print "Failed to send message: {}" [VStr (exn_str e)]
           end]
      end
  end.

(** What the inner loop logs for one client. *)
Fixpoint targets_events (w : world) (n : nat) (c : client)
         (targets : list value) : list event :=
  match targets with
  | [] => []
  | t :: ts =>
      target_events w n c t
      ++ targets_events w (n + length (target_events w n c t)) c ts
  end.

(** What the two loops log. *)
Fixpoint clients_events (w : world) (n : nat) (cs : list client)
         (targets : list value) : list event :=
  match cs with
  | [] => []
  | c :: cs' =>
      targets_events w n c targets
      ++ clients_events w (n + length (targets_events w n c targets)) cs' targets
  end.

(** The targets of a document that the inner loop can go through. *)
Definition has_targets (st : state) (targets : list value) : Prop :=
  exists d v, sessions_data st = VDict d
              /\ Dict.get (py "targets") d = Some v
              /\ iter v = inr targets.

(** The events of one round. *)
Definition round_events (w : world) (n : nat) (cs : list client)
           (targets : list value) : list event :=
  clients_events w n cs targets
  ++ [Print "\nNext messages will be sent in 3 hours at {}" [];
      Slept 10800].

(** The calls of [client.send_message] in a trace, in order. *)
Definition sent_calls (evs : list event) : list (client * value * value) :=
  flat_map (fun ev => match ev with
                      | Sent c r m _ => [(c, r, m)]
                      | _ => []
                      end) evs.

(** The recipient and the message of a target that has both. *)
Definition target_fields (target : value) : option (value * value) :=
  match getitem target (py "recipient"), getitem target (py "message") with
  | inr r, inr m => Some (r, m)
  | _, _ => None
  end.

(** The pairs of one round: clients outside, targets inside. *)
Definition round_pairs (cs : list client) (fields : list (value * value))
  : list (client * value * value) :=
  flat_map (fun c => map (fun rm => (c, fst rm, snd rm)) fields) cs.

(** A failed call framed by the line that names the recipient and the
    line that gives the error. *)
Definition failure_logged (evs : list event) (c : client) (r m : value)
           (e : exn) : Prop :=
  exists before after,
    evs = before
          ++ [Print "\nSending message to {}..." [r];
              Sent c r m (Some e);
              Print "Failed to send message: {}" [VStr (exn_str e)]]
          ++ after.

(** ** What a computation logs and keeps *)

(** [c] only adds events to the trace, all of them in [P]. *)
Definition emits (P : event -> Prop) {A} (c : M A) : Prop :=
  forall st, exists evs, log (snd (c st)) = log st ++ evs /\ Forall P evs.

Definition any_event (ev : event) : Prop := True.

(** The events of the part of [setup] that deals with the targets: lines
    printed, the two questions of [add_target], the question for another
    target, and saves. *)
Definition target_setup_event (ev : event) : Prop :=
  match ev with
  | Print _ _ | Saved _ => True
  | Prompt text =>
      text <> "\nDo you want to add another account? (y/N): "%string
  | _ => False
  end.

(** Every run of [c] takes a state to one related to it by [R]. *)
Definition steps (R : state -> state -> Prop) {A} (c : M A) : Prop :=
  forall st, R st (snd (c st)).

(** No line comes back to the standard input. *)
Definition stdin_shrinks (st st' : state) : Prop :=
  length (stdin st') <= length (stdin st).

(** The document is the same. *)
Definition same_data (st st' : state) : Prop :=
  sessions_data st' = sessions_data st.

(** ** Session discovery and setup *)

(** The name a file stands for. *)
Definition stem (file : pystr) : pystr := replace (py ".session") [] file.

(** A file that discovery does not pass over. *)
Definition is_session_file (file : pystr) : bool :=
  endswith (py ".session") file
  && negb (PyStr.eqb (stem file) (py "temp_session")).

(** The names one pass over [files] appends, when [names] are the tracked
    ones at its start. *)
Fixpoint scan_names (names : list value) (files : list pystr) : list pystr :=
  match files with
  | [] => []
  | file :: files' =>
      if is_session_file file && negb (py_in (VStr (stem file)) names)
      then stem file :: scan_names (names ++ [VStr (stem file)]) files'
      else scan_names names files'
  end.

(** The names of the accounts of a list, when each has one. *)
Definition session_names (accounts : list value) : result (list value) :=
  traverse (fun acc => getitem acc (py "session_name")) accounts.

(** What [setup] prints before it adds an account, when it found no
    session file and loaded no account. *)
Definition setup_preamble : list event :=
  [Print "\n==================================================" [];
   Print "TG-SEND-MASSAGE-TO-GROUPS" [];
   Print "==================================================\n" [];
   Print "Searching for sessions in: {} and {}" [];
   Print "No existing session files found" [];
   Print "\nNo valid sessions found. Let's add a new account." []].

(** ** Documents *)

(** A Unicode scalar value: a code point that is no surrogate. *)
Definition scalar (c : char) : bool :=
  ((c <? 55296) || ((57343 <? c) && (c <=? 1114111)))%N.

(** A string of scalar values. *)
Definition text_ok (s : pystr) : bool := forallb scalar s.

(** The text of [v] at [lvl] starts with a character that is no white
    space and closes no array, and with [k] units of fuel or more it is
    read back before any [rest]. *)
Definition reads_back (k lvl : nat) (v : value) : Prop :=
  (exists c t, Json.encode lvl v = c :: t /\ Json.is_ws c = false
               /\ (c =? 93)%N = false)
  /\ forall fuel rest,
      (k <= fuel)%nat ->
      Json.scan_once fuel (Json.encode lvl v ++ rest) = Json.Scanned v rest.

(** A document of the documented shape. *)
Definition document (accounts : list pystr) (targets : list (pystr * pystr))
  : value :=
  VDict [(py "accounts", VList (map account_entry accounts));
         (py "targets",
          VList (map (fun rm => target_entry (fst rm) (snd rm)) targets))].

(** Its strings are Unicode text: no surrogate code point. *)
Definition valid_document (accounts : list pystr)
           (targets : list (pystr * pystr)) : bool :=
  forallb text_ok accounts
  && forallb (fun rm => text_ok (fst rm) && text_ok (snd rm)) targets.

(** The items of [data['accounts']]. *)
Definition items_of (data : value) : result (list value) :=
  match getitem data (py "accounts") with
  | inl e => inl e
  | inr v => iter v
  end.

(** ** Rounds in a row and the end of [run] *)

(** Everything but the trace is the same. *)
Definition same_but_log (st st' : state) : Prop :=
  sessions_data st' = sessions_data st /\ clients st' = clients st
  /\ sessions_file st' = sessions_file st /\ stdin st' = stdin st.



(** What a round without clients logs. *)
Definition idle_round : list event :=
  [Print "\nNext messages will be sent in 3 hours at {}" []; Slept 10800].


(** ** Adding targets *)

(** An answer that asks for one more. *)
Definition says_yes (answer : pystr) : bool :=
  PyStr.eqb (lower answer) (py "y").

(** The lines typed to add some targets after the first question: for
    each the answer to the question, the target and the message. *)
Definition target_lines (new : list (pystr * pystr * pystr)) : list pystr :=
  flat_map (fun arm => [fst (fst arm); snd (fst arm); snd arm]) new.

(** The entries these lines make. *)
Definition typed_entries (new : list (pystr * pystr * pystr)) : list value :=
  map (fun arm => target_entry (normalize_target (snd (fst arm))) (snd arm))
      new.


(** The saves of a trace. *)
Definition saves (evs : list event) : list pystr :=
  flat_map (fun ev => match ev with
                      | Saved text => [text]
                      | _ => []
                      end) evs.

(** ** Adding an account *)

(** The character may stand in a session name. *)
Definition name_char (w : world) (c : char) : bool :=
  isalnum w c || (c =? 45)%N || (c =? 95)%N.




(** What a successful call of [add_new_account] logs before it saves. *)
Definition login_events (temp c : client) (me : user) : list event :=
  [Started temp None; GotMe temp (inr me); Stopped temp; Started c None;
   Print "Successfully logged in as {}" [opt_str (first_name me)]].

(** ** Loading the accounts *)

(** The client [setup] makes for the account called [s]. *)
Definition session_client (w : world) (s : pystr) : client :=
  Client (VStr (if session_file_exists w (VStr s)
                then path_join (py "sessions") s
                else s))
         true.

(** The names [setup] makes a client for: all but the reserved one. *)
Definition loadable (names : list pystr) : list pystr :=
  filter (fun s => negb (PyStr.eqb s (py "temp_session"))) names.

(** What loading them logs when every client starts. *)
Definition loading_events (w : world) (names : list pystr) : list event :=
  flat_map (fun s => [Started (session_client w s) None;
                      Print "Successfully loaded session: {}" [VStr s]])
           (loadable names).

(** ** The text of the file *)

(** A text of characters of the ASCII range. *)
Definition is_ascii (s : pystr) : bool := forallb (fun c => (c <? 128)%N) s.

(** ** The whole of [setup] *)

(** What [setup] prints before it looks at the accounts, when no new
    session file is found. *)
Definition setup_banner : list event :=
  [Print "\n==================================================" [];
   Print "TG-SEND-MASSAGE-TO-GROUPS" [];
   Print "==================================================\n" [];
   Print "Searching for sessions in: {} and {}" [];
   Print "No existing session files found" []].

(** ** Scenarios *)

(** The states and worlds at which the properties are looked at. *)
Module Scenario.

(** A client of a loaded session and two targets. *)
Definition alice : client := Client (VStr (py "alice")) true.
Definition peer_error : exn := Raise RPCError (py "PEER_ID_INVALID").
Definition first_target : value := target_entry (py "nobody") (py "hello").
Definition second_target : value := target_entry (py "group") (py "news").
Definition two_targets : value :=
  VDict [(py "accounts", VList [account_entry (py "alice")]);
         (py "targets", VList [first_target; second_target])].
Definition loaded : state :=
  State two_targets [alice] (inr (Json.dumps two_targets)) [] [].

(** A world in which nobody can be written to. *)
Definition deaf : world :=
  World (Dir [] []) (fun _ => false) (fun _ => false)
        (fun _ _ => None)
        (fun _ _ => inr (User None None))
        (fun _ _ r _ =>
           if py_eq r (VStr (py "nobody")) then Some peer_error else None).

(** A fresh manager, and a world with session files next to the script
    and in the sessions directory. *)
Definition fresh : state :=
  State default_document [] (inl (Raise FileNotFoundError [])) [] [].

Definition home : world :=
  World (Dir [py "alice.session"; py "temp_session.session"; py "notes.txt"]
             [(py "sessions", Dir [py "bob.session"; py "alice.session"] [])])
        (fun _ => false) (fun _ => false)
        (fun _ _ => None)
        (fun _ _ => inr (User None None))
        (fun _ _ _ _ => None).

(** A world in which the account that logs in is called [temp_session]. *)
Definition namesake : world :=
  World (Dir [] []) (fun _ => false) (fun _ => false)
        (fun _ _ => None)
        (fun _ _ => inr (User (Some (py "temp_session")) (Some (py "Temp"))))
        (fun _ _ _ _ => None).

(** A document with two accounts, the first of which Telegram refuses. *)
Definition auth_error : exn := Raise RPCError (py "AUTH_KEY_UNREGISTERED").
Definition two_accounts : value :=
  VDict [(py "accounts",
          VList [account_entry (py "alice"); account_entry (py "bob")]);
         (py "targets", VList [])].
Definition restarted : state :=
  State two_accounts [] (inr (Json.dumps two_accounts)) [] [].
Definition alice_revoked : world :=
  World (Dir [] []) (fun _ => false) (fun _ => false)
        (fun _ c =>
           if py_eq (client_name c) (VStr (py "alice"))
           then Some auth_error else None)
        (fun _ _ => inr (User None None))
        (fun _ _ _ _ => None).

(** A document with two accounts and a target. *)
Definition written : value :=
  VDict [(py "accounts",
          VList [account_entry (py "alice"); account_entry (py "bob")]);
         (py "targets", VList [target_entry (py "group") (py "hello")])].

Definition permission_error : exn := Raise OSError (py "Permission denied").

(** A manager with a client whose document has no targets. *)
Definition no_targets : state :=
  State (VDict [(py "accounts", VList [account_entry (py "alice")])])
        [alice] (inl (Raise FileNotFoundError [])) [] [].

(** A manager with targets and no client. *)
Definition no_clients : state :=
  State two_targets [] (inr (Json.dumps two_targets)) [] [].



(** A world in which the account that logs in is called [bob_1]. *)
Definition bob : user := User (Some (py "bob 1!_")) (Some (py "Bob")).
Definition login : world :=
  World (Dir [] []) (fun _ => false) (fun _ => false)
        (fun _ _ => None)
        (fun _ _ => inr bob)
        (fun _ _ _ _ => None).


(** A document with the reserved name between two accounts, and a world
    in which the session of the second lies in the sessions directory. *)
Definition with_reserved : value :=
  VDict [(py "accounts",
          VList [account_entry (py "alice");
                 account_entry (py "temp_session");
                 account_entry (py "bob")]);
         (py "targets", VList [])].
Definition reserved_between : state :=
  State with_reserved [] (inr (Json.dumps with_reserved)) [] [].
Definition bob_in_sessions : world :=
  World (Dir [] []) (fun name => py_eq name (VStr (py "bob")))
        (fun _ => false)
        (fun _ _ => None)
        (fun _ _ => inr (User None None))
        (fun _ _ _ _ => None).

(** A manager that tracks [alice] already. *)
Definition tracking_alice : state :=
  State two_targets [] (inr (Json.dumps two_targets)) [] [].

(** A document with characters beyond ASCII: an accented letter and an
    emoji in a name, the euro sign in a message. *)
Definition accented : state :=
  State (document [[233%N; 128512%N]] [(py "group", [8364%N])])
        [] (inl (Raise FileNotFoundError [])) [] [].

(** The manager of [reserved_between] at whose terminal a no is typed. *)
Definition declining : state :=
  State with_reserved [] (inr (Json.dumps with_reserved)) [py "n"] [].

End Scenario.

(** * Properties *)

Local Open Scope py_scope.

(** ** Strings *)

Lemma pystr_eqb_eq (a b : pystr) : PyStr.eqb a b = true <-> a = b.
Proof.
  revert b; induction a as [|x a IH]; intros [|y b]; simpl; split;
    try discriminate; try reflexivity.
  - intros H. apply andb_true_iff in H as [H1 H2].
    apply N.eqb_eq in H1. apply IH in H2. now subst.
  - intros H. injection H as -> ->. rewrite N.eqb_refl. now apply IH.
Qed.

Lemma pystr_eqb_refl (a : pystr) : PyStr.eqb a a = true.
Proof. now apply pystr_eqb_eq. Qed.

Lemma pystr_eqb_neq (a b : pystr) : PyStr.eqb a b = false <-> a <> b.
Proof.
  split.
  - intros H E. apply pystr_eqb_eq in E. congruence.
  - intros H. destruct (PyStr.eqb a b) eqn:E; [|reflexivity].
    apply pystr_eqb_eq in E. contradiction.
Qed.

Lemma startswith_app (p s : pystr) : startswith p (p ++ s) = true.
Proof. induction p; simpl; [reflexivity|]. now rewrite N.eqb_refl. Qed.

Lemma startswith_split (p s : pystr) :
  startswith p s = true -> exists s', s = p ++ s'.
Proof.
  revert s; induction p as [|x p IH]; intros s H.
  - now exists s.
  - destruct s as [|y s]; simpl in H; [discriminate|].
    apply andb_true_iff in H as [H1 H2]. apply N.eqb_eq in H1. subst y.
    destruct (IH _ H2) as [s' ->]. now exists s'.
Qed.

(** Skipping the rest of a matched separator. *)
Lemma split_from_skip (sep p cur s : pystr) :
  split_from sep (length p) cur (p ++ s) = split_from sep 0 cur s.
Proof. induction p; simpl; [reflexivity | assumption]. Qed.

Lemma split_from_without (sep : pystr) :
  forall s cur, contains sep s = false ->
    split_from sep 0 cur s = [rev cur ++ s].
Proof.
  induction s as [|c t IH]; intros cur H.
  - simpl. now rewrite app_nil_r.
  - simpl in H. apply orb_false_iff in H as [H1 H2].
    cbn [split_from]. rewrite H1. rewrite IH by assumption.
    simpl. now rewrite <- app_assoc.
Qed.

Lemma split_from_nonempty (sep : pystr) :
  forall s k cur, split_from sep k cur s <> [].
Proof.
  induction s as [|c t IH]; intros k cur; cbn [split_from]; [discriminate|].
  destruct k; [|apply IH].
  destruct (startswith sep (c :: t)); [discriminate | apply IH].
Qed.

(** The last piece of a split follows an occurrence of the separator and
    holds none. *)
Lemma split_last_piece (sep0 : char) (sep1 : pystr) :
  let sep := sep0 :: sep1 in
  forall n s cur, length s <= n -> contains sep s = true ->
    exists pre, s = pre ++ sep ++ last (split_from sep 0 cur s) []
                /\ contains sep (last (split_from sep 0 cur s) []) = false.
Proof.
  intros sep. induction n as [|n IH]; intros s cur Hn H.
  - destruct s; [discriminate | simpl in Hn; lia].
  - destruct s as [|c t]; [discriminate|].
    cbn [split_from]. destruct (startswith sep (c :: t)) eqn:Hs.
    + destruct (startswith_split _ _ Hs) as [s' E].
      unfold sep in E. simpl in E. injection E as E1 E2. subst c t.
      replace (length sep - 1) with (length sep1) by (simpl; lia).
      rewrite split_from_skip.
      assert (Hlen : length s' <= n).
      { simpl in Hn. rewrite length_app in Hn. lia. }
      destruct (contains sep s') eqn:Hc.
      * destruct (IH s' [] Hlen Hc) as [pre [E1 E2]].
        exists (sep ++ pre).
        pose proof (split_from_nonempty sep s' 0 []) as Hne.
        destruct (split_from sep 0 [] s') as [|p0 ps] eqn:Es; [contradiction|].
        change (last (rev cur :: p0 :: ps) []) with (last (p0 :: ps) []).
        split; [|assumption].
        unfold sep. simpl. f_equal. rewrite <- List.app_assoc. f_equal.
        exact E1.
      * rewrite split_from_without by assumption. simpl.
        exists []. now split.
    + cbn [contains] in H. rewrite Hs in H. cbn [orb] in H.
      assert (Hlen : length t <= n) by (simpl in Hn; lia).
      destruct (IH t (c :: cur) Hlen H) as [pre [E1 E2]].
      exists (c :: pre). split; [|assumption].
      simpl. f_equal. exact E1.
Qed.

(** ** The document and the monad *)

Lemma dict_get_set_same (k : pystr) (v : value) (d : list (pystr * value)) :
  Dict.get k (Dict.set k v d) = Some v.
Proof.
  induction d as [|[k0 v0] d IH]; simpl.
  - now rewrite pystr_eqb_refl.
  - destruct (PyStr.eqb k k0) eqn:E; simpl; rewrite E; [reflexivity | exact IH].
Qed.

Lemma dict_get_set_other (k k' : pystr) (v : value) (d : list (pystr * value)) :
  k <> k' -> Dict.get k' (Dict.set k v d) = Dict.get k' d.
Proof.
  intros Hk. induction d as [|[k0 v0] d IH]; simpl.
  - apply not_eq_sym in Hk. apply pystr_eqb_neq in Hk. now rewrite Hk.
  - destruct (PyStr.eqb k k0) eqn:E; simpl.
    + apply pystr_eqb_eq in E. subst k0.
      apply not_eq_sym in Hk. apply pystr_eqb_neq in Hk. now rewrite Hk.
    + destruct (PyStr.eqb k' k0); [reflexivity | exact IH].
Qed.

Lemma bind_inr {A B} {c : M A} (k : A -> M B) {st st' : state} {x : A} :
  c st = (inr x, st') -> bind c k st = k x st'.
Proof. intros H. unfold bind. now rewrite H. Qed.

Lemma bind_inl {A B} {c : M A} (k : A -> M B) {st st' : state} {e : exn} :
  c st = (inl e, st') -> bind c k st = (inl e, st').
Proof. intros H. unfold bind. now rewrite H. Qed.

Lemma data_item_get (key : string) (st : state) (d : list (pystr * value))
      (v : value) :
  sessions_data st = VDict d -> Dict.get (py key) d = Some v ->
  data_item key st = (inr v, st).
Proof.
  intros Hd Hg. unfold data_item, bind, gets, lift, getitem.
  now rewrite Hd, Hg.
Qed.

Lemma mutate_item_run (key : string) (f : value -> result value)
      (st : state) (d : list (pystr * value)) (old new : value) :
  sessions_data st = VDict d -> Dict.get (py key) d = Some old ->
  f old = inr new ->
  mutate_item key f st
  = (inr tt, set_data (VDict (Dict.set (py key) new d)) st).
Proof.
  intros Hd Hg Hf. unfold mutate_item, bind, gets, lift, getitem, modify.
  now rewrite Hd, Hg, Hf.
Qed.

(** ** Targets *)

(** C7. Adding a target reads the recipient and the message, cleans the
    recipient up, appends the entry to the targets and saves the document
    at once.  The clean-up drops a leading [@]; otherwise, when the input
    contains [t.me/], it keeps what follows an occurrence of it, in which
    [t.me/] occurs no more; otherwise the input stays.  In particular
    [@alice] and [https://t.me/alice] both become [alice]. *)
Theorem add_target_normalizes_and_persists
        (st : state) (d : list (pystr * value))
        (targets : list value) (raw message : pystr) (rest : list pystr) :
  sessions_data st = VDict d ->
  Dict.get (py "targets") d = Some (VList targets) ->
  stdin st = raw :: message :: rest ->
  let recipient := normalize_target raw in
  let data' :=
    VDict (Dict.set (py "targets")
             (VList (targets ++ [target_entry recipient message])) d) in
  (exists st',
      add_target st = (inr tt, st')
      /\ sessions_data st' = data'
      /\ sessions_file st' = inr (Json.dumps data')
      /\ clients st' = clients st
      /\ stdin st' = rest
      /\ log st' =
         log st ++
         [Prompt "Enter target username/group/channel (with or without @) or link: ";
          Prompt "Enter the message to send: ";
          Saved (Json.dumps data');
          Print "Added new target: {}" [VStr recipient]])
  /\ (raw = py "@alice" \/ raw = py "https://t.me/alice" ->
      recipient = py "alice")
  /\ (forall t, raw = 64%N :: t -> recipient = t)
  /\ (startswith (py "@") raw = false ->
      contains (py "t.me/") raw = true ->
      exists pre, raw = pre ++ py "t.me/" ++ recipient
                  /\ contains (py "t.me/") recipient = false)
  /\ (startswith (py "@") raw = false ->
      contains (py "t.me/") raw = false -> recipient = raw).
Proof.
  intros Hd Hg Hin recipient data'.
  split; [|split; [|split; [|split]]].
  - destruct st as [data cs f lines lg]. simpl in Hd, Hin. subst data lines.
    eexists. split.
    + unfold add_target, input, print, save_sessions. unfold bind.
      cbn [modify gets ret raise lift add_log set_stdin set_data set_file
           set_clients stdin log sessions_data clients sessions_file].
      erewrite mutate_item_run; [|reflexivity|exact Hg|reflexivity].
      cbn [modify gets ret raise lift add_log set_stdin set_data set_file
           set_clients stdin log sessions_data clients sessions_file].
      reflexivity.
    + cbn. repeat split. rewrite <- !app_assoc. reflexivity.
  - intros [-> | ->]; reflexivity.
  - intros t ->. reflexivity.
  - intros Hat Hc. unfold recipient, normalize_target. rewrite Hat, Hc.
    unfold split.
    exact (split_last_piece 116%N (py ".me/") (length raw) raw [] (le_n _) Hc).
  - intros Hat Hc. unfold recipient, normalize_target. now rewrite Hat, Hc.
Qed.

Lemma add_target_normalizes_and_persists_witness :
  let st := State default_document [] (inl (Raise FileNotFoundError []))
                  [py "https://t.me/alice"; py "hello"] [] in
  sessions_data st = default_document
  /\ Dict.get (py "targets")
       [(py "accounts", VList []); (py "targets", VList [])]
     = Some (VList [])
  /\ stdin st = [py "https://t.me/alice"; py "hello"]
  /\ exists st',
      add_target st = (inr tt, st')
      /\ sessions_data st'
         = VDict [(py "accounts", VList []);
                  (py "targets", VList [target_entry (py "alice") (py "hello")])].
Proof.
  intros st.
  split; [reflexivity | split; [reflexivity | split; [reflexivity|]]].
  destruct (add_target_normalizes_and_persists st
              [(py "accounts", VList []); (py "targets", VList [])] []
              (py "https://t.me/alice") (py "hello") []
              eq_refl eq_refl eq_refl) as [[st' [H1 [H2 _]]] _].
  exists st'. split; [exact H1 | exact H2].
Defined.

(** ** One round of sending *)

Lemma extend_log_nil (st : state) : extend_log [] st = st.
Proof. destruct st; unfold extend_log; simpl. now rewrite app_nil_r. Qed.

Lemma extend_log_app (a b : list event) (st : state) :
  extend_log b (extend_log a st) = extend_log (a ++ b) st.
Proof. unfold extend_log; simpl. now rewrite <- app_assoc. Qed.

Ltac run_m :=
  unfold modify, gets, ret, raise, lift, add_log, extend_log;
  cbn [set_stdin set_data set_file set_clients
       stdin log sessions_data clients sessions_file].

Lemma send_to_target_run (w : world) (c : client) (t : value) (st : state) :
  send_to_target w c t st
  = (inr tt, extend_log (target_events w (length (log st)) c t) st).
Proof.
  destruct st as [data cs f lines lg].
  unfold send_to_target, send_message, client_send_message, target_events,
    print, try_except, bind.
  run_m.
  destruct (getitem t (py "recipient")) as [e|r]; [reflexivity|].
  destruct (getitem t (py "message")) as [e|m];
    [run_m; rewrite <- ?List.app_assoc; reflexivity|].
  run_m. rewrite !length_app. simpl length. rewrite !Nat.add_1_r.
  destruct (send_outcome w (S (length lg)) c r m) as [e|];
    run_m; rewrite <- ?List.app_assoc; reflexivity.
Qed.

Lemma for_each_targets_run (w : world) (c : client) (ts : list value) :
  forall st,
    for_each (send_to_target w c) ts st
    = (inr tt, extend_log (targets_events w (length (log st)) c ts) st).
Proof.
  induction ts as [|t ts IH]; intros st.
  - simpl. now rewrite extend_log_nil.
  - cbn [for_each targets_events].
    rewrite (bind_inr _ (send_to_target_run w c t st)).
    rewrite IH. rewrite extend_log_app. cbn [extend_log log].
    now rewrite length_app.
Qed.

Lemma has_targets_extend_log (evs : list event) (st : state)
      (targets : list value) :
  has_targets st targets -> has_targets (extend_log evs st) targets.
Proof. intros H. exact H. Qed.

Lemma for_each_clients_run (w : world) (targets : list value)
      (cs : list client) :
  forall st, has_targets st targets ->
    for_each
      (fun c =>
         targets <- data_item "targets" ;;
         items <- lift (iter targets) ;;
         for_each (send_to_target w c) items)
      cs st
    = (inr tt, extend_log (clients_events w (length (log st)) cs targets) st).
Proof.
  induction cs as [|c cs IH]; intros st Ht.
  - simpl. now rewrite extend_log_nil.
  - cbn [for_each clients_events].
    assert (Hbody :
      (targets0 <- data_item "targets" ;;
       items <- lift (iter targets0) ;;
       for_each (send_to_target w c) items) st
      = (inr tt, extend_log (targets_events w (length (log st)) c targets) st)).
    { destruct Ht as [d [v [Hd [Hg Hi]]]].
      rewrite (bind_inr _ (data_item_get "targets" st d v Hd Hg)).
      unfold bind at 1. unfold lift. rewrite Hi.
      apply for_each_targets_run. }
    rewrite (bind_inr _ Hbody).
    rewrite IH by (apply has_targets_extend_log; exact Ht).
    rewrite extend_log_app. cbn [extend_log log].
    now rewrite length_app.
Qed.

Lemma broadcast_round_run (w : world) (st : state) (targets : list value) :
  has_targets st targets ->
  broadcast_round w st
  = (inr tt,
     extend_log (round_events w (length (log st)) (clients st) targets) st).
Proof.
  intros Ht. unfold broadcast_round.
  unfold bind at 1. cbn [gets].
  rewrite (bind_inr _ (for_each_clients_run w targets (clients st) st Ht)).
  unfold print, bind, round_events. run_m.
  rewrite <- ?List.app_assoc. reflexivity.
Qed.

Lemma sent_calls_app (a b : list event) :
  sent_calls (a ++ b) = sent_calls a ++ sent_calls b.
Proof. unfold sent_calls. apply flat_map_app. Qed.

Lemma target_events_fields (w : world) (n : nat) (c : client) (t r m : value) :
  target_fields t = Some (r, m) ->
  target_events w n c t
  = [Print "\nSending message to {}..." [r];
     Sent c r m (send_outcome w (S n) c r m);
     match send_outcome w (S n) c r m with
     | None => Print "Message sent successfully to {}" [r]
     | Some e => Print "Failed to send message: {}" [VStr (exn_str e)]
     end].
Proof.
  unfold target_fields, target_events. intros H.
  destruct (getitem t (py "recipient")) as [e|r0]; [discriminate|].
  destruct (getitem t (py "message")) as [e|m0]; [discriminate|].
  now injection H as -> ->.
Qed.

Lemma sent_calls_target (w : world) (n : nat) (c : client) (t r m : value) :
  target_fields t = Some (r, m) ->
  sent_calls (target_events w n c t) = [(c, r, m)].
Proof.
  unfold target_fields, target_events. intros H.
  destruct (getitem t (py "recipient")) as [e|r0]; [discriminate|].
  destruct (getitem t (py "message")) as [e|m0]; [discriminate|].
  injection H as -> ->. simpl.
  now destruct (send_outcome w (S n) c r m).
Qed.

Lemma sent_calls_targets (w : world) (c : client) (targets : list value) :
  forall fields n,
    map target_fields targets = map Some fields ->
    sent_calls (targets_events w n c targets)
    = map (fun rm => (c, fst rm, snd rm)) fields.
Proof.
  induction targets as [|t ts IH]; intros [|[r m] fields] n H;
    try discriminate; [reflexivity|].
  simpl in H. injection H as Ht Hts.
  cbn [targets_events]. rewrite sent_calls_app.
  rewrite (sent_calls_target w n c t r m Ht). simpl. f_equal.
  now apply IH.
Qed.

Lemma sent_calls_clients (w : world) (targets : list value)
      (fields : list (value * value)) (cs : list client) :
  map target_fields targets = map Some fields ->
  forall n, sent_calls (clients_events w n cs targets) = round_pairs cs fields.
Proof.
  intros H. induction cs as [|c cs IH]; intros n; [reflexivity|].
  cbn [clients_events]. rewrite sent_calls_app.
  rewrite (sent_calls_targets w c targets fields n H). rewrite IH.
  reflexivity.
Qed.

Lemma sent_calls_round (w : world) (targets : list value)
      (fields : list (value * value)) (cs : list client) (n : nat) :
  map target_fields targets = map Some fields ->
  sent_calls (round_events w n cs targets) = round_pairs cs fields.
Proof.
  intros H. unfold round_events. rewrite sent_calls_app.
  rewrite (sent_calls_clients w targets fields cs H). simpl.
  apply app_nil_r.
Qed.

(** C6. In one round the calls of [send_message] are, in this order, one
    per client and target: the clients in the order of [self.clients], and
    for each of them the targets in the order of the list, each with its
    recipient and its message.  With one client and two targets these are
    exactly two calls, both through that client, the first target first. *)
Theorem broadcast_round_sends_each_target_per_client
        (w : world) (st : state) (targets : list value)
        (fields : list (value * value)) :
  has_targets st targets ->
  map target_fields targets = map Some fields ->
  exists evs,
    broadcast_round w st = (inr tt, extend_log evs st)
    /\ sent_calls evs = round_pairs (clients st) fields
    /\ (forall c r1 m1 r2 m2,
          clients st = [c] -> fields = [(r1, m1); (r2, m2)] ->
          sent_calls evs = [(c, r1, m1); (c, r2, m2)]).
Proof.
  intros Ht Hf.
  exists (round_events w (length (log st)) (clients st) targets).
  split; [now apply broadcast_round_run|].
  pose proof (sent_calls_round w targets fields (clients st)
                (length (log st)) Hf) as Hs.
  split; [exact Hs|].
  intros c r1 m1 r2 m2 Hc Hfs. rewrite Hs, Hc, Hfs. reflexivity.
Qed.

Lemma failure_logged_app_l (a b : list event) c r m e :
  failure_logged a c r m e -> failure_logged (a ++ b) c r m e.
Proof.
  intros [x [y ->]]. exists x, (y ++ b).
  now rewrite <- !List.app_assoc.
Qed.

Lemma failure_logged_app_r (a b : list event) c r m e :
  failure_logged b c r m e -> failure_logged (a ++ b) c r m e.
Proof.
  intros [x [y ->]]. exists (a ++ x), y.
  now rewrite <- !List.app_assoc.
Qed.

Lemma failure_logged_target (w : world) (n : nat) (c0 : client) (t : value)
      c r m e :
  In (Sent c r m (Some e)) (target_events w n c0 t) ->
  failure_logged (target_events w n c0 t) c r m e.
Proof.
  unfold target_events.
  destruct (getitem t (py "recipient")) as [e0|r0].
  { intros [H|[]]; discriminate. }
  destruct (getitem t (py "message")) as [e0|m0].
  { intros [H|[H|[]]]; discriminate. }
  intros [H|[H|[H|[]]]]; try discriminate.
  - injection H as -> -> -> Ho. rewrite Ho. now exists [], [].
  - destruct (send_outcome w (S n) c0 r0 m0); discriminate.
Qed.

Lemma failure_logged_targets (w : world) (c0 : client) (ts : list value)
      c r m e :
  forall n,
    In (Sent c r m (Some e)) (targets_events w n c0 ts) ->
    failure_logged (targets_events w n c0 ts) c r m e.
Proof.
  induction ts as [|t ts IH]; intros n H; [destruct H|].
  cbn [targets_events] in *. apply in_app_or in H as [H|H].
  - apply failure_logged_app_l. now apply failure_logged_target.
  - apply failure_logged_app_r. now apply IH.
Qed.

Lemma failure_logged_clients (w : world) (ts : list value)
      (cs : list client) c r m e :
  forall n,
    In (Sent c r m (Some e)) (clients_events w n cs ts) ->
    failure_logged (clients_events w n cs ts) c r m e.
Proof.
  induction cs as [|c0 cs IH]; intros n H; [destruct H|].
  cbn [clients_events] in *. apply in_app_or in H as [H|H].
  - apply failure_logged_app_l. now apply failure_logged_targets.
  - apply failure_logged_app_r. now apply IH.
Qed.

(** C5. Whatever calls of [send_message] fail in a round, the round goes
    on to its end: every failure is caught, its error is printed right
    after the call, which itself comes right after the line that names
    the recipient, and the calls that follow a failed one are those of
    all the pairs that remain; so when the call for the first of two
    targets fails, the call for the second is still made. *)
Theorem broadcast_round_isolates_send_failures
        (w : world) (st : state) (targets : list value)
        (fields : list (value * value)) :
  has_targets st targets ->
  map target_fields targets = map Some fields ->
  exists evs,
    broadcast_round w st = (inr tt, extend_log evs st)
    /\ (forall c r m e,
          In (Sent c r m (Some e)) evs -> failure_logged evs c r m e)
    /\ (forall before after c r m e,
          evs = before ++ Sent c r m (Some e) :: after ->
          round_pairs (clients st) fields
          = sent_calls before ++ (c, r, m) :: sent_calls after)
    /\ (forall c r1 m1 r2 m2 e,
          clients st = [c] -> fields = [(r1, m1); (r2, m2)] ->
          send_outcome w (S (length (log st))) c r1 m1 = Some e ->
          exists o, In (Sent c r1 m1 (Some e)) evs /\ In (Sent c r2 m2 o) evs).
Proof.
  intros Ht Hf.
  exists (round_events w (length (log st)) (clients st) targets).
  split; [now apply broadcast_round_run|].
  pose proof (sent_calls_round w targets fields (clients st)
                (length (log st)) Hf) as Hs.
  split; [|split].
  - intros c r m e H. unfold round_events in *.
    apply in_app_or in H as [H|H].
    + apply failure_logged_app_l. now apply failure_logged_clients.
    + destruct H as [H|[H|[]]]; discriminate.
  - intros before after c r m e E. rewrite <- Hs, E.
    rewrite sent_calls_app. reflexivity.
  - intros c r1 m1 r2 m2 e Hc Hfs Ho. rewrite Hc.
    rewrite Hfs in Hf.
    destruct targets as [|t1 [|t2 [|t3 ts]]]; try discriminate.
    simpl in Hf. injection Hf as H1 H2.
    unfold round_events. cbn [clients_events targets_events].
    rewrite (target_events_fields w _ c t1 r1 m1 H1).
    rewrite (target_events_fields w _ c t2 r2 m2 H2).
    rewrite Ho. eexists. split.
    + simpl. right. left. reflexivity.
    + simpl. do 4 right. left. reflexivity.
Qed.

Lemma broadcast_round_sends_each_target_per_client_witness :
  has_targets Scenario.loaded [Scenario.first_target; Scenario.second_target]
  /\ map target_fields [Scenario.first_target; Scenario.second_target]
     = map Some [(VStr (py "nobody"), VStr (py "hello"));
                 (VStr (py "group"), VStr (py "news"))]
  /\ exists evs,
      broadcast_round Scenario.deaf Scenario.loaded
      = (inr tt, extend_log evs Scenario.loaded)
      /\ sent_calls evs
         = [(Scenario.alice, VStr (py "nobody"), VStr (py "hello"));
            (Scenario.alice, VStr (py "group"), VStr (py "news"))].
Proof.
  assert (Ht : has_targets Scenario.loaded
                 [Scenario.first_target; Scenario.second_target]).
  { eexists. eexists. split; [reflexivity|]. split; reflexivity. }
  split; [exact Ht|]. split; [reflexivity|].
  destruct (broadcast_round_sends_each_target_per_client
              Scenario.deaf Scenario.loaded
              [Scenario.first_target; Scenario.second_target]
              [(VStr (py "nobody"), VStr (py "hello"));
               (VStr (py "group"), VStr (py "news"))]
              Ht eq_refl) as [evs [H1 [H2 _]]].
  exists evs. split; [exact H1 | exact H2].
Defined.

Lemma broadcast_round_isolates_send_failures_witness :
  has_targets Scenario.loaded [Scenario.first_target; Scenario.second_target]
  /\ map target_fields [Scenario.first_target; Scenario.second_target]
     = map Some [(VStr (py "nobody"), VStr (py "hello"));
                 (VStr (py "group"), VStr (py "news"))]
  /\ exists evs,
      broadcast_round Scenario.deaf Scenario.loaded
      = (inr tt, extend_log evs Scenario.loaded)
      /\ exists o,
          In (Sent Scenario.alice (VStr (py "nobody")) (VStr (py "hello"))
                   (Some Scenario.peer_error)) evs
          /\ In (Sent Scenario.alice (VStr (py "group")) (VStr (py "news")) o)
                evs.
Proof.
  assert (Ht : has_targets Scenario.loaded
                 [Scenario.first_target; Scenario.second_target]).
  { eexists. eexists. split; [reflexivity|]. split; reflexivity. }
  split; [exact Ht|]. split; [reflexivity|].
  destruct (broadcast_round_isolates_send_failures
              Scenario.deaf Scenario.loaded
              [Scenario.first_target; Scenario.second_target]
              [(VStr (py "nobody"), VStr (py "hello"));
               (VStr (py "group"), VStr (py "news"))]
              Ht eq_refl) as [evs [H1 [_ [_ H4]]]].
  exists evs. split; [exact H1|].
  exact (H4 Scenario.alice _ _ _ _ Scenario.peer_error
            eq_refl eq_refl eq_refl).
Defined.

(** ** What a computation logs *)

Lemma emits_ret (P : event -> Prop) {A} (x : A) : emits P (ret x).
Proof. intros st. exists []. simpl. now rewrite app_nil_r. Qed.

Lemma emits_raise (P : event -> Prop) {A} (e : exn) : emits P (@raise A e).
Proof. intros st. exists []. simpl. now rewrite app_nil_r. Qed.

Lemma emits_lift (P : event -> Prop) {A} (r : result A) : emits P (lift r).
Proof. intros st. exists []. simpl. now rewrite app_nil_r. Qed.

Lemma emits_gets (P : event -> Prop) {A} (f : state -> A) : emits P (gets f).
Proof. intros st. exists []. simpl. now rewrite app_nil_r. Qed.

Lemma emits_add_log (P : event -> Prop) (ev : event) :
  P ev -> emits P (modify (add_log ev)).
Proof. intros H st. exists [ev]. simpl. split; [reflexivity | now constructor]. Qed.

Lemma emits_modify (P : event -> Prop) (f : state -> state) :
  (forall st, log (f st) = log st) -> emits P (modify f).
Proof.
  intros H st. exists []. simpl. rewrite H. now rewrite app_nil_r.
Qed.

Lemma emits_bind (P : event -> Prop) {A B} (c : M A) (k : A -> M B) :
  emits P c -> (forall x, emits P (k x)) -> emits P (bind c k).
Proof.
  intros Hc Hk st. unfold bind. destruct (Hc st) as [evs [E F]].
  destruct (c st) as [[e|x] st1]; simpl in E.
  - exists evs. now split.
  - destruct (Hk x st1) as [evs' [E' F']].
    exists (evs ++ evs'). split.
    + now rewrite E', E, <- List.app_assoc.
    + apply Forall_app. now split.
Qed.

Lemma emits_try_except (P : event -> Prop) {A} (c : M A) (h : exn -> M A) :
  emits P c -> (forall e, emits P (h e)) -> emits P (try_except c h).
Proof.
  intros Hc Hh st. unfold try_except. destruct (Hc st) as [evs [E F]].
  destruct (c st) as [[e|x] st1]; simpl in E.
  - destruct (Hh e st1) as [evs' [E' F']].
    exists (evs ++ evs'). split.
    + now rewrite E', E, <- List.app_assoc.
    + apply Forall_app. now split.
  - exists evs. now split.
Qed.

Lemma emits_finally (P : event -> Prop) {A} (c : M A) (f : M unit) :
  emits P c -> emits P f -> emits P (finally c f).
Proof.
  intros Hc Hf st. unfold finally. destruct (Hc st) as [evs [E F]].
  destruct (c st) as [r st1]; simpl in E.
  destruct (Hf st1) as [evs' [E' F']].
  exists (evs ++ evs'). split.
  - destruct (f st1) as [[e|u] st2]; simpl in *;
      now rewrite E', E, <- List.app_assoc.
  - apply Forall_app. now split.
Qed.

Lemma emits_for_each (P : event -> Prop) {A} (body : A -> M unit)
      (l : list A) :
  (forall x, emits P (body x)) -> emits P (for_each body l).
Proof.
  intros H. induction l as [|x l IH]; simpl.
  - apply emits_ret.
  - apply emits_bind; [apply H | intros _; exact IH].
Qed.

Lemma emits_weaken (P Q : event -> Prop) {A} (c : M A) :
  (forall ev, P ev -> Q ev) -> emits P c -> emits Q c.
Proof.
  intros HPQ Hc st. destruct (Hc st) as [evs [E F]].
  exists evs. split; [exact E|]. eapply Forall_impl; eassumption.
Qed.

Create HintDb emits.
#[export] Hint Resolve emits_ret emits_raise emits_lift emits_gets
  emits_bind emits_try_except emits_for_each emits_finally : emits.

Lemma emits_print (P : event -> Prop) (text : string) (args : list value) :
  P (Print text args) -> emits P (print text args).
Proof. apply emits_add_log. Qed.

Lemma emits_input (P : event -> Prop) (prompt : string) :
  P (Prompt prompt) -> emits P (input prompt).
Proof.
  intros H. unfold input.
  apply emits_bind; [now apply emits_add_log|]. intros _.
  apply emits_bind; [apply emits_gets|]. intros [|l rest].
  - apply emits_raise.
  - apply emits_bind; [now apply emits_modify | intros _; apply emits_ret].
Qed.

Lemma emits_save_sessions (P : event -> Prop) :
  (forall text, P (Saved text)) -> emits P save_sessions.
Proof.
  intros H. unfold save_sessions.
  apply emits_bind; [apply emits_gets|]. intros data.
  apply emits_bind; [now apply emits_modify | intros _].
  now apply emits_add_log.
Qed.

Lemma emits_data_item (P : event -> Prop) (key : string) :
  emits P (data_item key).
Proof. unfold data_item. auto with emits. Qed.

Lemma emits_mutate_item (P : event -> Prop) (key : string)
      (f : value -> result value) :
  emits P (mutate_item key f).
Proof.
  unfold mutate_item.
  apply emits_bind; [apply emits_gets|]. intros data.
  apply emits_bind; [apply emits_lift|]. intros old.
  apply emits_bind; [apply emits_lift|]. intros new.
  destruct data; try apply emits_ret. now apply emits_modify.
Qed.

#[export] Hint Resolve emits_data_item emits_mutate_item : emits.

Lemma emits_add_target : emits target_setup_event add_target.
Proof.
  unfold add_target.
  apply emits_bind; [apply emits_input; discriminate|]. intros target.
  apply emits_bind; [apply emits_input; discriminate|]. intros message.
  apply emits_bind; [apply emits_mutate_item|]. intros _.
  apply emits_bind; [apply emits_save_sessions; exact (fun _ => I)|].
  intros _. apply emits_print. exact I.
Qed.

Lemma emits_more_targets (fuel : nat) :
  emits target_setup_event (more_targets fuel).
Proof.
  induction fuel as [|fuel IH]; simpl; [apply emits_ret|].
  apply emits_bind; [apply emits_input; discriminate|]. intros add_more.
  destruct (negb _); [apply emits_ret|].
  apply emits_bind; [apply emits_add_target | intros _; exact IH].
Qed.

Lemma emits_setup_targets : emits target_setup_event setup_targets.
Proof.
  unfold setup_targets.
  apply emits_bind; [apply emits_data_item|]. intros targets.
  apply emits_bind.
  - destruct (negb _); [|apply emits_ret].
    apply emits_bind; [apply emits_print; exact I|].
    intros _. apply emits_add_target.
  - intros _. apply emits_bind; [apply emits_gets|]. intros lines.
    apply emits_more_targets.
Qed.

(** ** Session discovery *)

Lemma traverse_app {A B} (f : A -> result B) (l1 l2 : list A)
      (r1 r2 : list B) :
  traverse f l1 = inr r1 -> traverse f l2 = inr r2 ->
  traverse f (l1 ++ l2) = inr (r1 ++ r2).
Proof.
  revert r1. induction l1 as [|x l1 IH]; intros r1 H1 H2; simpl in *.
  - now injection H1 as <-.
  - destruct (f x) as [e|y]; [discriminate|].
    destruct (traverse f l1) as [e|ys]; [discriminate|].
    injection H1 as <-. now rewrite (IH ys eq_refl H2).
Qed.

Lemma dict_set_set (k : pystr) (v v' : value) (d : list (pystr * value)) :
  Dict.set k v' (Dict.set k v d) = Dict.set k v' d.
Proof.
  induction d as [|[k0 v0] d IH]; simpl.
  - now rewrite pystr_eqb_refl.
  - destruct (PyStr.eqb k k0) eqn:E; simpl; rewrite E; [reflexivity|].
    now rewrite IH.
Qed.

Lemma dict_set_get (k : pystr) (v : value) (d : list (pystr * value)) :
  Dict.get k d = Some v -> Dict.set k v d = d.
Proof.
  induction d as [|[k0 v0] d IH]; simpl; [discriminate|].
  destruct (PyStr.eqb k k0) eqn:E.
  - now intros [= ->].
  - intros H. now rewrite IH.
Qed.

Lemma py_in_app (x : value) (a b : list value) :
  py_in x (a ++ b) = py_in x a || py_in x b.
Proof. apply existsb_app. Qed.

Lemma py_in_str_last (s : pystr) (a : list value) :
  py_in (VStr s) (a ++ [VStr s]) = true.
Proof.
  rewrite py_in_app. simpl. rewrite pystr_eqb_refl. apply orb_true_r.
Qed.

Lemma tracked_names_run (st : state) (d : list (pystr * value))
      (accs names : list value) :
  sessions_data st = VDict d ->
  Dict.get (py "accounts") d = Some (VList accs) ->
  session_names accs = inr names ->
  tracked_names st = (inr names, st).
Proof.
  intros Hd Hg Hn. unfold tracked_names.
  rewrite (bind_inr _ (data_item_get "accounts" st d _ Hd Hg)).
  unfold bind, lift. simpl. exact (f_equal (fun r => (r, st)) Hn).
Qed.

Lemma detect_file_run (found : list pystr) (file : pystr)
      (d : list (pystr * value)) (accs names : list value)
      cs f lines lg :
  Dict.get (py "accounts") d = Some (VList accs) ->
  session_names accs = inr names ->
  detect_file found file (State (VDict d) cs f lines lg)
  = if is_session_file file && negb (py_in (VStr (stem file)) names)
    then (inr (found ++ [stem file]),
          State (VDict (Dict.set (py "accounts")
                          (VList (accs ++ [account_entry (stem file)])) d))
                cs f lines lg)
    else (inr found, State (VDict d) cs f lines lg).
Proof.
  intros Hg Hn. unfold detect_file, is_session_file. fold (stem file).
  destruct (endswith (py ".session") file); [|reflexivity].
  destruct (PyStr.eqb (stem file) (py "temp_session")); [reflexivity|].
  cbn [andb negb].
  rewrite (bind_inr _ (tracked_names_run (State (VDict d) cs f lines lg)
                         d accs names eq_refl Hg Hn)).
  destruct (py_in (VStr (stem file)) names); [reflexivity|].
  cbn [negb].
  rewrite (bind_inr _ (mutate_item_run "accounts"
                         (fun l => append l (account_entry (stem file)))
                         (State (VDict d) cs f lines lg) d (VList accs)
                         (VList (accs ++ [account_entry (stem file)]))
                         eq_refl Hg eq_refl)).
  reflexivity.
Qed.

Lemma detect_files_run (files : list pystr) :
  forall (found : list pystr) (d : list (pystr * value))
         (accs names : list value) cs f lines lg,
    Dict.get (py "accounts") d = Some (VList accs) ->
    session_names accs = inr names ->
    detect_files found files (State (VDict d) cs f lines lg)
    = (inr (found ++ scan_names names files),
       State (VDict (Dict.set (py "accounts")
                       (VList (accs ++ map account_entry
                                          (scan_names names files))) d))
             cs f lines lg).
Proof.
  induction files as [|file files IH]; intros found d accs names cs f lines lg
    Hg Hn.
  - simpl. rewrite !app_nil_r. now rewrite (dict_set_get _ _ _ Hg).
  - cbn [detect_files scan_names].
    pose proof (detect_file_run found file d accs names
                  cs f lines lg Hg Hn) as Hstep.
    destruct (is_session_file file && negb (py_in (VStr (stem file)) names)).
    + rewrite (bind_inr _ Hstep).
      rewrite (IH _ _ (accs ++ [account_entry (stem file)])
                 (names ++ [VStr (stem file)])).
      * rewrite dict_set_set, <- !List.app_assoc. reflexivity.
      * apply dict_get_set_same.
      * unfold session_names. now apply traverse_app.
    + rewrite (bind_inr _ Hstep). now apply IH.
Qed.

(** Discovery never appends the reserved name. *)
Lemma scan_names_not_reserved (files : list pystr) :
  forall names, ~ In (py "temp_session") (scan_names names files).
Proof.
  induction files as [|file files IH]; intros names; simpl; [tauto|].
  destruct (is_session_file file) eqn:Hs; simpl; [|apply IH].
  destruct (py_in (VStr (stem file)) names); simpl; [apply IH|].
  intros [H|H]; [|now apply IH in H].
  unfold is_session_file in Hs. apply andb_true_iff in Hs as [_ Hs].
  rewrite H, pystr_eqb_refl in Hs. discriminate.
Qed.

(** A name that a pass appends was not tracked before. *)
Lemma scan_names_new (files : list pystr) :
  forall names s, In s (scan_names names files) ->
                  py_in (VStr s) names = false.
Proof.
  induction files as [|file files IH]; intros names s; simpl; [tauto|].
  destruct (is_session_file file && negb (py_in (VStr (stem file)) names))
    eqn:Hc.
  - intros [<-|H].
    + apply andb_true_iff in Hc as [_ Hc]. now apply negb_true_iff in Hc.
    + apply IH in H. rewrite py_in_app in H.
      now apply orb_false_iff in H as [H _].
  - apply IH.
Qed.

Lemma scan_names_nodup (files : list pystr) :
  forall names, NoDup (scan_names names files).
Proof.
  induction files as [|file files IH]; intros names; simpl; [constructor|].
  destruct (is_session_file file && negb (py_in (VStr (stem file)) names)).
  - constructor; [|apply IH].
    intros H. apply scan_names_new in H.
    now rewrite py_in_str_last in H.
  - apply IH.
Qed.

(** After a pass every session file is tracked. *)
Lemma scan_names_covers (files : list pystr) :
  forall names file,
    In file files -> is_session_file file = true ->
    py_in (VStr (stem file)) (names ++ map VStr (scan_names names files))
    = true.
Proof.
  induction files as [|f0 files IH]; intros names file; simpl; [tauto|].
  destruct (is_session_file f0 && negb (py_in (VStr (stem f0)) names)) eqn:Hc.
  - intros [<-|H] Hs.
    + rewrite py_in_app. simpl. rewrite pystr_eqb_refl. simpl.
      apply orb_true_r.
    + specialize (IH (names ++ [VStr (stem f0)]) file H Hs).
      now rewrite <- List.app_assoc in IH.
  - intros [<-|H] Hs.
    + rewrite Hs in Hc. simpl in Hc. apply negb_false_iff in Hc.
      rewrite py_in_app, Hc. reflexivity.
    + now apply IH.
Qed.

Lemma scan_names_tracked (files : list pystr) :
  forall names,
    (forall file, In file files -> is_session_file file = true ->
                  py_in (VStr (stem file)) names = true) ->
    scan_names names files = [].
Proof.
  induction files as [|f0 files IH]; intros names H; simpl; [reflexivity|].
  destruct (is_session_file f0) eqn:Hs; simpl.
  - rewrite (H f0 (or_introl eq_refl) Hs). simpl.
    apply IH. intros file Hin. apply H. now right.
  - apply IH. intros file Hin. apply H. now right.
Qed.

Lemma scan_names_again (names : list value) (files : list pystr) :
  scan_names (names ++ map VStr (scan_names names files)) files = [].
Proof.
  apply scan_names_tracked. intros file Hin Hs.
  now apply scan_names_covers.
Qed.

Lemma session_names_entries (l : list pystr) :
  session_names (map account_entry l) = inr (map VStr l).
Proof.
  unfold session_names. induction l as [|s l IH]; [reflexivity|].
  simpl. simpl in IH. now rewrite IH.
Qed.

(** What [detect_existing_sessions] does to a document whose accounts all
    have a name. *)
Lemma detect_existing_sessions_run (w : world) (d : list (pystr * value))
      (accs names : list value) cs f lines lg :
  Dict.get (py "accounts") d = Some (VList accs) ->
  session_names accs = inr names ->
  let found := scan_names names (walked_files w) in
  let data' :=
    VDict (Dict.set (py "accounts")
             (VList (accs ++ map account_entry found)) d) in
  detect_existing_sessions w (State (VDict d) cs f lines lg)
  = (inr found,
     match found with
     | [] =>
         State (VDict d) cs f lines
               (lg ++ [Print "Searching for sessions in: {} and {}" [];
                       Print "No existing session files found" []])
     | _ :: _ =>
         State data' cs (inr (Json.dumps data')) lines
               (lg ++ [Print "Searching for sessions in: {} and {}" [];
                       Print "Found existing sessions: {}"
                             [VStr (join (py ", ") found)];
                       Saved (Json.dumps data')])
     end).
Proof.
  intros Hg Hn found data'. unfold detect_existing_sessions.
  unfold print at 1. unfold bind at 1. run_m.
  rewrite (bind_inr _ (detect_files_run (walked_files w) [] d accs names
                         cs f lines _ Hg Hn)).
  cbn [app]. fold found. fold data'.
  destruct found as [|s found'] eqn:Ef.
  - unfold data'. cbn [map]. rewrite app_nil_r, (dict_set_get _ _ _ Hg).
    unfold print, bind. run_m. now rewrite <- List.app_assoc.
  - unfold print, save_sessions, bind. run_m.
    now rewrite <- !List.app_assoc.
Qed.

(** C4. For a document whose accounts all have a name, a scan returns
    the names it appended, none of which was tracked before and none
    twice; a second scan of the same files then finds nothing: it appends
    no account, leaves the document and the file as they are and only
    prints its two lines, without saving. *)
Theorem detect_existing_sessions_idempotent
        (w : world) (st : state) (d : list (pystr * value))
        (accs names : list value) :
  sessions_data st = VDict d ->
  Dict.get (py "accounts") d = Some (VList accs) ->
  session_names accs = inr names ->
  exists found st1 st2,
    detect_existing_sessions w st = (inr found, st1)
    /\ NoDup found
    /\ (forall s, In s found -> py_in (VStr s) names = false)
    /\ getitem (sessions_data st1) (py "accounts")
       = inr (VList (accs ++ map account_entry found))
    /\ detect_existing_sessions w st1 = (inr [], st2)
    /\ sessions_data st2 = sessions_data st1
    /\ sessions_file st2 = sessions_file st1
    /\ clients st2 = clients st1
    /\ log st2
       = log st1 ++ [Print "Searching for sessions in: {} and {}" [];
                     Print "No existing session files found" []].
Proof.
  intros Hd Hg Hn. destruct st as [data cs f lines lg]. simpl in Hd. subst data.
  set (found := scan_names names (walked_files w)).
  set (accs1 := accs ++ map account_entry found).
  set (d1 := Dict.set (py "accounts") (VList accs1) d).
  assert (Hg1 : Dict.get (py "accounts") d1 = Some (VList accs1))
    by apply dict_get_set_same.
  assert (Hn1 : session_names accs1 = inr (names ++ map VStr found)).
  { unfold session_names, accs1. apply traverse_app; [exact Hn|].
    apply session_names_entries. }
  assert (Hagain : scan_names (names ++ map VStr found) (walked_files w) = [])
    by apply scan_names_again.
  pose proof (detect_existing_sessions_run w d accs names cs f lines lg
                Hg Hn) as H1.
  cbv zeta in H1. fold found in H1. fold accs1 in H1. fold d1 in H1.
  destruct found as [|s found'] eqn:Ef.
  - (* nothing found: the document is unchanged *)
    assert (Ed : d1 = d).
    { unfold d1, accs1. simpl. rewrite app_nil_r. now apply dict_set_get. }
    pose proof (detect_existing_sessions_run w d accs names cs f lines
                  (lg ++ [Print "Searching for sessions in: {} and {}" [];
                          Print "No existing session files found" []])
                  Hg Hn) as H2.
    cbv zeta in H2. fold found in H2. rewrite Ef in H2.
    eexists. eexists. eexists.
    split; [exact H1|]. split; [constructor|]. split; [intros s []|].
    split. { simpl. rewrite Hg. unfold accs1. simpl. now rewrite app_nil_r. }
    split; [exact H2|]. repeat split.
  - pose proof (detect_existing_sessions_run w d1 accs1
                  (names ++ map VStr (s :: found')) cs
                  (inr (Json.dumps (VDict d1))) lines
                  (lg ++ [Print "Searching for sessions in: {} and {}" [];
                          Print "Found existing sessions: {}"
                                [VStr (join (py ", ") (s :: found'))];
                          Saved (Json.dumps (VDict d1))])
                  Hg1 Hn1) as H2.
    cbv zeta in H2. rewrite Hagain in H2.
    eexists. eexists. eexists.
    split; [exact H1|].
    split. { rewrite <- Ef. apply scan_names_nodup. }
    split. { rewrite <- Ef. apply scan_names_new. }
    split. { simpl. now rewrite Hg1. }
    split; [exact H2|]. repeat split.
Qed.

Lemma detect_existing_sessions_idempotent_witness :
  sessions_data Scenario.fresh
  = VDict [(py "accounts", VList []); (py "targets", VList [])]
  /\ Dict.get (py "accounts")
       [(py "accounts", VList []); (py "targets", VList [])]
     = Some (VList [])
  /\ session_names [] = inr []
  /\ exists found st1 st2,
      detect_existing_sessions Scenario.home Scenario.fresh = (inr found, st1)
      /\ getitem (sessions_data st1) (py "accounts")
         = inr (VList ([] ++ map account_entry found))
      /\ detect_existing_sessions Scenario.home st1 = (inr [], st2)
      /\ sessions_data st2 = sessions_data st1
      /\ sessions_file st2 = sessions_file st1.
Proof.
  split; [reflexivity | split; [reflexivity | split; [reflexivity|]]].
  destruct (detect_existing_sessions_idempotent
              Scenario.home Scenario.fresh
              [(py "accounts", VList []); (py "targets", VList [])] [] []
              eq_refl eq_refl eq_refl)
    as [found [st1 [st2 [H1 [_ [_ [H4 [H5 [H6 [H7 _]]]]]]]]]].
  exists found, st1, st2. repeat split; assumption.
Defined.

(** ** The first start *)

Ltac emits_any :=
  repeat first
    [ progress intros
    | apply emits_ret | apply emits_raise | apply emits_lift
    | apply emits_gets | apply emits_data_item | apply emits_mutate_item
    | apply emits_print; exact I
    | apply emits_input; exact I
    | apply emits_save_sessions; intros; exact I
    | apply emits_add_log; exact I
    | apply emits_modify; reflexivity
    | apply emits_bind | apply emits_try_except | apply emits_for_each
    | apply emits_finally
    | match goal with
      | |- emits _ (match ?x with _ => _ end) => destruct x
      end ].

Lemma emits_start (w : world) (c : client) : emits any_event (start w c).
Proof. unfold start. emits_any. Qed.

Lemma emits_get_me (w : world) (c : client) : emits any_event (get_me w c).
Proof. unfold get_me. emits_any. Qed.

Lemma emits_stop (c : client) : emits any_event (stop c).
Proof. unfold stop. emits_any. Qed.

Lemma emits_tracked_names : emits any_event tracked_names.
Proof. unfold tracked_names. emits_any. Qed.

Lemma emits_add_new_account (w : world) :
  emits any_event (add_new_account w).
Proof.
  unfold add_new_account.
  apply emits_try_except; [|emits_any].
  apply emits_bind; [apply emits_start|]. intros _.
  apply emits_bind; [apply emits_get_me|]. intros me.
  apply emits_bind; [emits_any|]. intros session_name.
  apply emits_bind; [apply emits_stop|]. intros _.
  apply emits_bind; [apply emits_start|]. intros _.
  apply emits_bind; [emits_any|]. intros _.
  apply emits_bind; [apply emits_tracked_names|]. intros names.
  emits_any.
Qed.

Lemma emits_broadcast_round (w : world) : emits any_event (broadcast_round w).
Proof.
  unfold broadcast_round, send_to_target, send_message, client_send_message.
  emits_any.
Qed.

Lemma emits_scheduled_message_sender (w : world) (rounds : nat) :
  emits any_event (scheduled_message_sender w rounds).
Proof.
  induction rounds as [|n IH]; simpl; [apply emits_ret|].
  apply emits_bind; [apply emits_broadcast_round | intros _; exact IH].
Qed.

(** What follows a computation in a sequence only adds to its trace. *)
Lemma bind_log_after {A B} (c : M A) (k : A -> M B) (st : state) :
  (forall x, emits any_event (k x)) ->
  exists more, log (snd (bind c k st)) = log (snd (c st)) ++ more.
Proof.
  intros Hk. unfold bind. destruct (c st) as [[e|x] st1]; simpl.
  - exists []. now rewrite app_nil_r.
  - destruct (Hk x st1) as [evs [E _]]. now exists evs.
Qed.

(** [run] starts with [setup]: whatever it does after, and the rounds of
    sending in particular, comes later in the trace. *)
Lemma run_after_setup (w : world) (rounds : nat) (st : state) :
  exists more,
    log (snd (run w rounds st)) = log (snd (setup w st)) ++ more.
Proof.
  unfold run, finally.
  destruct (bind_log_after (setup w)
              (fun _ =>
                 print "\nStarting scheduled message sender..." [] ;;
                 print "Press Ctrl+C to stop the program" [] ;;
                 print "==================================================" [] ;;
                 scheduled_message_sender w rounds) st) as [more1 E1].
  { intros _.
    apply emits_bind; [apply emits_print; exact I|]. intros _.
    apply emits_bind; [apply emits_print; exact I|]. intros _.
    apply emits_bind; [apply emits_print; exact I|]. intros _.
    apply emits_scheduled_message_sender. }
  match goal with
  | |- context [match ?c st with _ => _ end] => destruct (c st) as [r st1]
  end.
  simpl in E1.
  assert (Hstops : emits any_event (cs <- gets clients ;; for_each stop cs)).
  { apply emits_bind; [apply emits_gets|]. intros cs.
    apply emits_for_each. intros c. apply emits_stop. }
  destruct (Hstops st1) as [more2 [E2 _]].
  exists (more1 ++ more2).
  destruct ((cs <- gets clients ;; for_each stop cs) st1) as [[e|u] st2];
    simpl in *; now rewrite E2, E1, <- List.app_assoc.
Qed.

(** ** Setup without any account *)

Lemma print_run (text : string) (args : list value) (st : state) :
  print text args st = (inr tt, extend_log [Print text args] st).
Proof. reflexivity. Qed.

Lemma detect_nothing (w : world) (st : state) (d : list (pystr * value))
      (accs names : list value) :
  sessions_data st = VDict d ->
  Dict.get (py "accounts") d = Some (VList accs) ->
  session_names accs = inr names ->
  scan_names names (walked_files w) = [] ->
  detect_existing_sessions w st
  = (inr [],
     extend_log [Print "Searching for sessions in: {} and {}" [];
                 Print "No existing session files found" []] st).
Proof.
  intros Hd Hg Hn Hs. destruct st as [data cs f lines lg].
  simpl in Hd. subst data.
  pose proof (detect_existing_sessions_run w d accs names cs f lines lg
                Hg Hn) as H.
  cbv zeta in H. rewrite Hs in H. exact H.
Qed.

Lemma filter_nil {A} (p : A -> bool) (l : list A) :
  filter p l = [] -> forall x, In x l -> p x = false.
Proof.
  induction l as [|y l IH]; simpl; [tauto|].
  destruct (p y) eqn:E; [discriminate|].
  intros H x [<-|Hx]; [exact E | now apply IH].
Qed.

Lemma add_new_account_returns (w : world) (st : state) :
  exists oc st', add_new_account w st = (inr oc, st').
Proof.
  unfold add_new_account, try_except.
  match goal with
  | |- context [match ?c st with _ => _ end] =>
      destruct (c st) as [[e|oc] st1]
  end.
  - eexists. eexists. reflexivity.
  - eexists. eexists. reflexivity.
Qed.

(** Every call of [add_new_account] begins by starting the temporary
    client. *)
Lemma add_new_account_starts_temp (w : world) (st : state) :
  exists rest,
    log (snd (add_new_account w st))
    = log st
      ++ Started (Client (VStr (py "temp_session")) false)
                 (start_outcome w (length (log st))
                    (Client (VStr (py "temp_session")) false))
         :: rest.
Proof.
  unfold add_new_account.
  set (temp := Client (VStr (py "temp_session")) false).
  set (o := start_outcome w (length (log st)) temp).
  assert (Hh : forall e, emits any_event
                 (print "Failed to initialize client: {}" [VStr (exn_str e)] ;;
                  @ret (option client) None)) by emits_any.
  unfold try_except. unfold bind at 1.
  assert (Hs : start w temp st
               = (match o with Some e => inl e | None => inr tt end,
                  add_log (Started temp o) st)).
  { unfold start, bind, o. run_m. now destruct (start_outcome _ _ _). }
  rewrite Hs. destruct o as [e|].
  - destruct (Hh e (add_log (Started temp (Some e)) st)) as [evs [E _]].
    exists evs. rewrite E. simpl. now rewrite <- List.app_assoc.
  - match goal with
    | |- context [match ?k (add_log ?ev st) with _ => _ end] =>
        assert (Hk : emits any_event k); [|destruct (Hk (add_log ev st)) as [evs [E _]];
        destruct (k (add_log ev st)) as [[e|oc] st1]]
    end.
    + pose proof (emits_add_new_account w) as Hall.
      unfold add_new_account in Hall.
      apply emits_bind; [apply emits_get_me|]. intros me.
      apply emits_bind; [emits_any|]. intros session_name.
      apply emits_bind; [apply emits_stop|]. intros _.
      apply emits_bind; [apply emits_start|]. intros _.
      apply emits_bind; [emits_any|]. intros _.
      apply emits_bind; [apply emits_tracked_names|]. intros names.
      emits_any.
    + simpl in E. destruct (Hh e st1) as [evs' [E' _]].
      exists (evs ++ evs'). rewrite E', E. simpl.
      now rewrite <- !List.app_assoc.
    + simpl in E. exists evs. cbn [snd]. rewrite E. simpl.
      now rewrite <- !List.app_assoc.
Qed.

Lemma accounts_items_run (st : state) (d : list (pystr * value))
      (v : value) (items : list value) :
  sessions_data st = VDict d ->
  Dict.get (py "accounts") d = Some v ->
  iter v = inr items ->
  accounts_items st = (inr items, st).
Proof.
  intros Hd Hg Hi. unfold accounts_items.
  rewrite (bind_inr _ (data_item_get "accounts" st d v Hd Hg)).
  unfold lift. now rewrite Hi.
Qed.

Lemma load_accounts_empty (w : world) (st : state) (d : list (pystr * value)) :
  sessions_data st = VDict d ->
  Dict.get (py "accounts") d = Some (VList []) ->
  load_accounts w st = (inr tt, st).
Proof.
  intros Hd Hg. unfold load_accounts.
  now rewrite (bind_inr _ (accounts_items_run st d _ [] Hd Hg eq_refl)).
Qed.

(** C9. With no session file to discover, no account in the document
    and no client yet, [setup] prints its first lines, runs
    [add_new_account] once, which starts the temporary client, and goes on
    with the targets: from there on it starts no client and does not ask
    for another account.  [run] sends only after [setup]. *)
Theorem setup_without_accounts_adds_one_account
        (w : world) (st : state) (d : list (pystr * value)) :
  sessions_data st = VDict d ->
  Dict.get (py "accounts") d = Some (VList []) ->
  clients st = [] ->
  filter is_session_file (walked_files w) = [] ->
  exists added st1,
    add_new_account w (extend_log setup_preamble st) = (inr added, st1)
    /\ (exists rest,
           log st1
           = log st ++ setup_preamble
             ++ Started (Client (VStr (py "temp_session")) false)
                        (start_outcome w (length (log st ++ setup_preamble))
                           (Client (VStr (py "temp_session")) false))
                :: rest)
    /\ setup w st = setup_targets st1
    /\ (exists evs,
           log (snd (setup w st)) = log st1 ++ evs
           /\ Forall target_setup_event evs)
    /\ (forall rounds, exists more,
           log (snd (run w rounds st)) = log (snd (setup w st)) ++ more).
Proof.
  intros Hd Hg Hc Hf.
  assert (Hscan : scan_names [] (walked_files w) = []).
  { apply scan_names_tracked. intros file Hin Hs.
    now rewrite (filter_nil _ _ Hf file Hin) in Hs. }
  destruct (add_new_account_returns w (extend_log setup_preamble st))
    as [added [st1 Hadd]].
  exists added, st1.
  assert (Hsetup : setup w st = setup_targets st1).
  { unfold setup.
    rewrite (bind_inr _ (print_run _ _ st)).
    rewrite (bind_inr _ (print_run _ _ _)).
    rewrite (bind_inr _ (print_run _ _ _)).
    rewrite !extend_log_app. cbn [app].
    match goal with
    | |- context [bind (detect_existing_sessions w) _ ?s] =>
        rewrite (bind_inr _ (detect_nothing w s d [] [] Hd Hg eq_refl Hscan))
    end.
    rewrite !extend_log_app. cbn [app].
    match goal with
    | |- context [bind (load_accounts w) _ ?s] =>
        rewrite (bind_inr _ (load_accounts_empty w s d Hd Hg))
    end.
    unfold bind at 1. cbn [gets clients extend_log]. rewrite Hc.
    unfold bind at 1.
    rewrite (bind_inr _ (print_run _ _ _)).
    rewrite !extend_log_app. cbn [app]. fold setup_preamble.
    unfold bind at 1. rewrite Hadd. reflexivity. }
  split; [exact Hadd|]. split.
  { destruct (add_new_account_starts_temp w (extend_log setup_preamble st))
      as [rest E].
    rewrite Hadd in E. simpl in E. exists rest.
    now rewrite E, <- List.app_assoc. }
  split; [exact Hsetup|]. split.
  { rewrite Hsetup. apply emits_setup_targets. }
  intros rounds. apply run_after_setup.
Qed.

Lemma setup_without_accounts_adds_one_account_witness :
  sessions_data Scenario.fresh
  = VDict [(py "accounts", VList []); (py "targets", VList [])]
  /\ Dict.get (py "accounts")
       [(py "accounts", VList []); (py "targets", VList [])]
     = Some (VList [])
  /\ clients Scenario.fresh = []
  /\ filter is_session_file (walked_files Scenario.deaf) = []
  /\ exists added st1,
      add_new_account Scenario.deaf (extend_log setup_preamble Scenario.fresh)
      = (inr added, st1)
      /\ setup Scenario.deaf Scenario.fresh = setup_targets st1.
Proof.
  split; [reflexivity|]. split; [reflexivity|]. split; [reflexivity|].
  split; [reflexivity|].
  destruct (setup_without_accounts_adds_one_account
              Scenario.deaf Scenario.fresh
              [(py "accounts", VList []); (py "targets", VList [])]
              eq_refl eq_refl eq_refl eq_refl)
    as [added [st1 [H1 [_ [H3 _]]]]].
  exists added, st1. split; [exact H1 | exact H3].
Defined.

(** ** The reserved name *)

(** C3. When the account that logs in has the user name [temp_session],
    [add_new_account] appends an account of that name and saves it: the
    reserved name is in the document and in the file. *)
Theorem add_new_account_persists_reserved_name :
  exists st,
    add_new_account Scenario.namesake Scenario.fresh
    = (inr (Some (Client (VStr (py "temp_session")) false)), st)
    /\ getitem (sessions_data st) (py "accounts")
       = inr (VList [account_entry (py "temp_session")])
    /\ sessions_file st = inr (Json.dumps (sessions_data st))
    /\ Json.loads (Json.dumps (sessions_data st))
       = inr (VDict [(py "accounts", VList [account_entry (py "temp_session")]);
                     (py "targets", VList [])]).
Proof.
  eexists. split; [vm_compute; reflexivity|].
  split; [vm_compute; reflexivity|].
  split; vm_compute; reflexivity.
Qed.

(** ** Loading the accounts *)

(** C1. With the accounts [alice] and [bob] in the document and a
    refused start for [alice], the loop removes [alice], saves, and ends:
    the iterator is then past the end of the shortened list, so [bob] is
    never started.  [bob] stays in the document and in the file without a
    client. *)
Theorem load_accounts_skips_account_after_failure :
  exists st,
    load_accounts Scenario.alice_revoked Scenario.restarted = (inr tt, st)
    /\ getitem (sessions_data st) (py "accounts")
       = inr (VList [account_entry (py "bob")])
    /\ sessions_file st = inr (Json.dumps (sessions_data st))
    /\ clients st = []
    /\ log st
       = [Started (Client (VStr (py "alice")) true) (Some Scenario.auth_error);
          Print "Failed to load session {}: {}"
                [VStr (py "alice"); VStr (py "AUTH_KEY_UNREGISTERED")];
          Saved (Json.dumps (sessions_data st))].
Proof.
  eexists. split; [vm_compute; reflexivity|].
  split; [vm_compute; reflexivity|].
  split; [vm_compute; reflexivity|].
  split; vm_compute; reflexivity.
Qed.

(** ** The document in the file *)

Section JsonRoundTrip.

Local Open Scope N_scope.

(** *** Characters *)

Lemma hex_value_digit (d : N) : d < 16 -> Json.hex_value (Json.hex_digit d) = Some d.
Proof.
  intros H. unfold Json.hex_value, Json.hex_digit.
  destruct (d <? 10) eqn:E.
  - apply N.ltb_lt in E.
    replace ((48 <=? 48 + d) && (48 + d <=? 57)) with true.
    + f_equal. lia.
    + symmetry. apply andb_true_iff. split; apply N.leb_le; lia.
  - apply N.ltb_ge in E.
    replace ((48 <=? 87 + d) && (87 + d <=? 57)) with false.
    + replace ((97 <=? 87 + d) && (87 + d <=? 102)) with true.
      * f_equal. lia.
      * symmetry. apply andb_true_iff. split; apply N.leb_le; lia.
    + symmetry. apply andb_false_iff. right. apply N.leb_gt. lia.
Qed.

Lemma hex4_value_hex4 (n : N) :
  n < 65536 ->
  match Json.hex4 n with
  | [a; b; c; d] => Json.hex4_value a b c d
  | _ => None
  end = Some n.
Proof.
  intros H. unfold Json.hex4, Json.hex4_value.
  rewrite !hex_value_digit by (apply N.mod_lt; discriminate).
  f_equal.
  zify. Z.to_euclidean_division_equations. lia.
Qed.

Lemma land_high_low (k x : N) : x < 1024 -> N.land (k * 2 ^ 10) x = 0.
Proof.
  intros H. apply N.bits_inj. intros n.
  rewrite N.land_spec, N.bits_0.
  destruct (N.lt_ge_cases n 10) as [Hn|Hn].
  - now rewrite N.mul_pow2_bits_low.
  - destruct (N.eq_dec x 0) as [->|Hx].
    + now rewrite N.bits_0, andb_false_r.
    + rewrite (N.bits_above_log2 x n), andb_false_r; [reflexivity|].
      apply N.lt_le_trans with 10; [|assumption].
      apply N.log2_lt_pow2; [lia | exact H].
Qed.

Lemma lor_high_low (k x : N) : x < 1024 -> N.lor (k * 2 ^ 10) x = k * 1024 + x.
Proof.
  intros H. rewrite <- N.lxor_lor by now apply land_high_low.
  rewrite <- N.add_nocarry_lxor by now apply land_high_low.
  reflexivity.
Qed.

(** The two halves of the escape of a character beyond the basic plane. *)
Lemma surrogates_of (c : N) :
  65536 <= c -> c <= 1114111 ->
  let n := c - 65536 in
  N.lor 55296 (N.land (N.shiftr n 10) 1023) = 55296 + n / 1024
  /\ N.lor 56320 (N.land n 1023) = 56320 + n mod 1024.
Proof.
  intros H1 H2 n.
  assert (Hn : n < 1048576) by (unfold n; lia).
  change 1023 with (N.ones 10). rewrite !N.land_ones, N.shiftr_div_pow2.
  change (2 ^ 10) with 1024.
  assert (Hq : n / 1024 < 1024) by (zify; Z.to_euclidean_division_equations; lia).
  rewrite (N.mod_small (n / 1024)) by exact Hq.
  split.
  - change 55296 with (54 * 2 ^ 10) at 1. rewrite lor_high_low by exact Hq.
    reflexivity.
  - change 56320 with (55 * 2 ^ 10) at 1.
    rewrite lor_high_low by (apply N.mod_lt; discriminate). reflexivity.
Qed.

Lemma join_surrogates_of (q r : N) :
  q < 1024 -> r < 1024 ->
  Json.join_surrogates (55296 + q) (56320 + r) = 65536 + q * 1024 + r.
Proof.
  intros Hq Hr. unfold Json.join_surrogates.
  change 1023 with (N.ones 10). rewrite !N.land_ones, N.shiftl_mul_pow2.
  change (2 ^ 10) with 1024.
  replace ((55296 + q) mod 1024) with q
    by (zify; Z.to_euclidean_division_equations; lia).
  replace ((56320 + r) mod 1024) with r
    by (zify; Z.to_euclidean_division_equations; lia).
  change 1024 with (2 ^ 10) at 1. rewrite lor_high_low by exact Hr. lia.
Qed.

Lemma hex4_value_digits (n : N) :
  n < 65536 ->
  Json.hex4_value (Json.hex_digit (n / 4096 mod 16))
    (Json.hex_digit (n / 256 mod 16)) (Json.hex_digit (n / 16 mod 16))
    (Json.hex_digit (n mod 16)) = Some n.
Proof. exact (hex4_value_hex4 n). Qed.

Lemma scanstring_unfold_u (h1 h2 h3 h4 : char) (t2 : pystr) :
  Json.scanstring (92 :: 117 :: h1 :: h2 :: h3 :: h4 :: t2)
  = match Json.hex4_value h1 h2 h3 h4 with
    | None => None
    | Some u =>
        if Json.is_high_surrogate u then
          match t2 with
          | b :: x :: t3 =>
              if (b =? 92) && (x =? 117) then
                match t3 with
                | g1 :: g2 :: g3 :: g4 :: t4 =>
                    match Json.hex4_value g1 g2 g3 g4 with
                    | None => None
                    | Some u2 =>
                        if Json.is_low_surrogate u2
                        then Json.cons_char (Json.join_surrogates u u2)
                               (Json.scanstring t4)
                        else Json.cons_char u (Json.scanstring t2)
                    end
                | _ => None
                end
              else Json.cons_char u (Json.scanstring t2)
          | _ => Json.cons_char u (Json.scanstring t2)
          end
        else Json.cons_char u (Json.scanstring t2)
    end.
Proof. reflexivity. Qed.

(** Scanning the escape of a code unit that is no high surrogate. *)
Lemma scanstring_u_escape (n : N) (tail : pystr) :
  n < 65536 -> Json.is_high_surrogate n = false ->
  Json.scanstring (Json.u_escape n ++ tail)
  = Json.cons_char n (Json.scanstring tail).
Proof.
  intros Hn Hh. unfold Json.u_escape, Json.hex4. cbn [app].
  rewrite scanstring_unfold_u, (hex4_value_digits n Hn), Hh. reflexivity.
Qed.

Lemma scanstring_surrogate_pair (hi lo : N) (tail : pystr) :
  hi < 65536 -> lo < 65536 ->
  Json.is_high_surrogate hi = true -> Json.is_low_surrogate lo = true ->
  Json.scanstring (Json.u_escape hi ++ Json.u_escape lo ++ tail)
  = Json.cons_char (Json.join_surrogates hi lo) (Json.scanstring tail).
Proof.
  intros Hhi Hlo Hh Hl. unfold Json.u_escape, Json.hex4. cbn [app].
  rewrite scanstring_unfold_u, (hex4_value_digits hi Hhi), Hh.
  change ((92 =? 92) && (117 =? 117)) with true. cbv iota.
  rewrite (hex4_value_digits lo Hlo), Hl. reflexivity.
Qed.

Lemma scanstring_unfold_plain (c : char) (t : pystr) :
  Json.scanstring (c :: t)
  = if c =? 34 then Some ([], t)
    else if c =? 92 then Json.scanstring (92 :: t)
    else if c <=? 31 then None
    else Json.cons_char c (Json.scanstring t).
Proof. reflexivity. Qed.

Lemma scanstring_escape_char (c : char) (tail : pystr) :
  scalar c = true ->
  Json.scanstring (Json.escape_char c ++ tail)
  = Json.cons_char c (Json.scanstring tail).
Proof.
  intros Hc. unfold Json.escape_char.
  destruct (c =? 34) eqn:E34; [apply N.eqb_eq in E34; now subst|].
  destruct (c =? 92) eqn:E92; [apply N.eqb_eq in E92; now subst|].
  destruct (c =? 10) eqn:E10; [apply N.eqb_eq in E10; now subst|].
  destruct (c =? 13) eqn:E13; [apply N.eqb_eq in E13; now subst|].
  destruct (c =? 9) eqn:E9; [apply N.eqb_eq in E9; now subst|].
  destruct (c =? 8) eqn:E8; [apply N.eqb_eq in E8; now subst|].
  destruct (c =? 12) eqn:E12; [apply N.eqb_eq in E12; now subst|].
  destruct ((32 <=? c) && (c <=? 126)) eqn:Ep.
  - apply andb_true_iff in Ep as [Ep1 Ep2]. apply N.leb_le in Ep1.
    cbn [app]. rewrite scanstring_unfold_plain, E34, E92.
    replace (c <=? 31) with false by (symmetry; apply N.leb_gt; lia).
    reflexivity.
  - unfold scalar in Hc.
    destruct (c <? 65536) eqn:Eb.
    + apply N.ltb_lt in Eb. apply scanstring_u_escape; [exact Eb|].
      unfold Json.is_high_surrogate.
      apply orb_true_iff in Hc as [Hc|Hc].
      * apply N.ltb_lt in Hc. apply andb_false_iff. left. apply N.leb_gt. lia.
      * apply andb_true_iff in Hc as [Hc _]. apply N.ltb_lt in Hc.
        apply andb_false_iff. right. apply N.leb_gt. lia.
    + apply N.ltb_ge in Eb.
      assert (Hu : c <= 1114111).
      { apply orb_true_iff in Hc as [Hc|Hc].
        - apply N.ltb_lt in Hc. lia.
        - apply andb_true_iff in Hc as [_ Hc]. now apply N.leb_le in Hc. }
      destruct (surrogates_of c Eb Hu) as [Ehi Elo]. cbv zeta in Ehi, Elo.
      cbv zeta. rewrite Ehi, Elo, <- List.app_assoc.
      assert (Hq : (c - 65536) / 1024 < 1024)
        by (zify; Z.to_euclidean_division_equations; lia).
      assert (Hr : (c - 65536) mod 1024 < 1024)
        by (apply N.mod_lt; discriminate).
      rewrite scanstring_surrogate_pair.
      * rewrite join_surrogates_of by assumption.
        replace (65536 + (c - 65536) / 1024 * 1024 + (c - 65536) mod 1024)
          with c; [reflexivity|].
        zify; Z.to_euclidean_division_equations; lia.
      * zify; Z.to_euclidean_division_equations; lia.
      * zify; Z.to_euclidean_division_equations; lia.
      * unfold Json.is_high_surrogate. apply andb_true_iff.
        split; apply N.leb_le; zify; Z.to_euclidean_division_equations; lia.
      * unfold Json.is_low_surrogate. apply andb_true_iff.
        split; apply N.leb_le; zify; Z.to_euclidean_division_equations; lia.
Qed.

Lemma scanstring_escaped (s : pystr) (rest : pystr) :
  forallb scalar s = true ->
  Json.scanstring (flat_map Json.escape_char s ++ 34 :: rest) = Some (s, rest).
Proof.
  induction s as [|c s IH]; intros H.
  - reflexivity.
  - simpl in H. apply andb_true_iff in H as [Hc Hs].
    cbn [flat_map]. rewrite <- List.app_assoc.
    rewrite scanstring_escape_char by exact Hc.
    now rewrite IH.
Qed.

(** *** White space *)

Lemma skip_ws_spaces (k : nat) (s : pystr) :
  Json.skip_ws (repeat 32 k ++ s) = Json.skip_ws s.
Proof. induction k as [|k IH]; [reflexivity | exact IH]. Qed.

Lemma skip_ws_newline_indent (lvl : nat) (s : pystr) :
  Json.skip_ws (Json.newline_indent lvl ++ s) = Json.skip_ws s.
Proof. unfold Json.newline_indent. cbn [app]. apply skip_ws_spaces. Qed.

Lemma skip_ws_stop (c : char) (s : pystr) :
  Json.is_ws c = false -> Json.skip_ws (c :: s) = c :: s.
Proof. intros H. cbn [Json.skip_ws]. now rewrite H. Qed.

(** *** Unfolding the scanner *)

Lemma scan_once_string (fuel : nat) (t : pystr) :
  Json.scan_once (S fuel) (34 :: t)
  = match Json.scanstring t with
    | Some (str, r) => Json.Scanned (VStr str) r
    | None => Json.Invalid
    end.
Proof. reflexivity. Qed.

Lemma scan_once_object (fuel : nat) (t : pystr) :
  Json.scan_once (S fuel) (123 :: t)
  = match Json.skip_ws t with
    | c' :: r =>
        if c' =? 125 then Json.Scanned (VDict []) r
        else
          match Json.parse_members fuel (c' :: r) with
          | Json.Scanned pairs r' => Json.Scanned (Json.dict_of_pairs pairs) r'
          | Json.Invalid => Json.Invalid
          | Json.Exhausted => Json.Exhausted
          end
    | [] => Json.Invalid
    end.
Proof. reflexivity. Qed.

Lemma scan_once_array (fuel : nat) (t : pystr) :
  Json.scan_once (S fuel) (91 :: t)
  = match Json.skip_ws t with
    | c' :: r =>
        if c' =? 93 then Json.Scanned (VList []) r
        else
          match Json.parse_items fuel (c' :: r) with
          | Json.Scanned items r' => Json.Scanned (VList items) r'
          | Json.Invalid => Json.Invalid
          | Json.Exhausted => Json.Exhausted
          end
    | [] => Json.Invalid
    end.
Proof. reflexivity. Qed.

Lemma parse_items_step (fuel : nat) (s : pystr) :
  Json.parse_items (S fuel) s
  = match Json.scan_once fuel s with
    | Json.Scanned v r =>
        match Json.skip_ws r with
        | c :: r' =>
            if c =? 93 then Json.Scanned [v] r'
            else if c =? 44 then
              match Json.parse_items fuel (Json.skip_ws r') with
              | Json.Scanned items r'' => Json.Scanned (v :: items) r''
              | Json.Invalid => Json.Invalid
              | Json.Exhausted => Json.Exhausted
              end
            else Json.Invalid
        | [] => Json.Invalid
        end
    | Json.Invalid => Json.Invalid
    | Json.Exhausted => Json.Exhausted
    end.
Proof. reflexivity. Qed.

Lemma parse_members_step (fuel : nat) (t : pystr) :
  Json.parse_members (S fuel) (34 :: t)
  = match Json.scanstring t with
    | Some (key, r) =>
        match Json.skip_ws r with
        | colon :: r1 =>
            if colon =? 58 then
              match Json.scan_once fuel (Json.skip_ws r1) with
              | Json.Scanned v r2 =>
                  match Json.skip_ws r2 with
                  | c :: r3 =>
                      if c =? 125 then Json.Scanned [(key, v)] r3
                      else if c =? 44 then
                        match Json.parse_members fuel (Json.skip_ws r3) with
                        | Json.Scanned pairs r4 =>
                            Json.Scanned ((key, v) :: pairs) r4
                        | Json.Invalid => Json.Invalid
                        | Json.Exhausted => Json.Exhausted
                        end
                      else Json.Invalid
                  | [] => Json.Invalid
                  end
              | Json.Invalid => Json.Invalid
              | Json.Exhausted => Json.Exhausted
              end
            else Json.Invalid
        | [] => Json.Invalid
        end
    | None => Json.Invalid
    end.
Proof. reflexivity. Qed.

(** *** Values that are read back *)

Lemma reads_back_string (lvl : nat) (s : pystr) :
  text_ok s = true -> reads_back 1 lvl (VStr s).
Proof.
  intros H. split.
  - eexists. eexists. split; [reflexivity|]. split; reflexivity.
  - intros fuel rest Hf. destruct fuel as [|fuel]; [lia|].
    cbn [Json.encode]. unfold Json.encode_string.
    cbn [app]. rewrite <- List.app_assoc. cbn [app].
    rewrite scan_once_string, scanstring_escaped by exact H. reflexivity.
Qed.

(** One member, its value read back, and what the scanner does next. *)
Lemma parse_members_member (k fuel lvl : nat) (key : pystr) (v : value)
      (tail : pystr) :
  text_ok key = true -> reads_back k lvl v -> (k <= fuel)%nat ->
  Json.parse_members (S fuel)
    (Json.encode_string key ++ py ": " ++ Json.encode lvl v ++ tail)
  = match Json.skip_ws tail with
    | c :: r3 =>
        if c =? 125 then Json.Scanned [(key, v)] r3
        else if c =? 44 then
          match Json.parse_members fuel (Json.skip_ws r3) with
          | Json.Scanned pairs r4 => Json.Scanned ((key, v) :: pairs) r4
          | Json.Invalid => Json.Invalid
          | Json.Exhausted => Json.Exhausted
          end
        else Json.Invalid
    | [] => Json.Invalid
    end.
Proof.
  intros Hk [[c [t [Ec [Hw _]]]] Hv] Hf.
  unfold Json.encode_string. cbn [app]. rewrite <- List.app_assoc. cbn [app].
  rewrite parse_members_step, scanstring_escaped by exact Hk.
  change (py ": ") with [58; 32]. cbn [app].
  rewrite (skip_ws_stop 58) by reflexivity.
  change (58 =? 58) with true. cbv iota.
  change (Json.skip_ws (32 :: Json.encode lvl v ++ tail))
    with (Json.skip_ws (Json.encode lvl v ++ tail)).
  rewrite Ec. cbn [app]. rewrite (skip_ws_stop c) by exact Hw.
  change (c :: t ++ tail) with ((c :: t) ++ tail). rewrite <- Ec.
  now rewrite Hv.
Qed.

(** The items of an array, each read back, up to the closing bracket. *)
Lemma parse_items_back (k lvl lvl' : nat) (items : list value) :
  forall fuel rest,
    items <> [] ->
    Forall (reads_back k lvl) items ->
    (length items + k <= fuel)%nat ->
    Json.parse_items fuel
      (join (44 :: Json.newline_indent lvl) (map (Json.encode lvl) items)
       ++ Json.newline_indent lvl' ++ 93 :: rest)
    = Json.Scanned items rest.
Proof.
  induction items as [|v items IH]; intros fuel rest Hne Hall Hfuel;
    [contradiction|].
  inversion Hall as [|? ? Hv Hrest]; subst.
  destruct fuel as [|fuel]; [simpl in Hfuel; lia|].
  destruct Hv as [_ Hscan].
  rewrite parse_items_step.
  destruct items as [|v' items'].
  - cbn [map join]. rewrite Hscan by (simpl in Hfuel; lia).
    rewrite skip_ws_newline_indent, (skip_ws_stop 93) by reflexivity.
    reflexivity.
  - change (join (44 :: Json.newline_indent lvl)
              (map (Json.encode lvl) (v :: v' :: items')))
      with (Json.encode lvl v ++ (44 :: Json.newline_indent lvl)
            ++ join (44 :: Json.newline_indent lvl)
                 (map (Json.encode lvl) (v' :: items'))).
    rewrite <- !List.app_assoc. rewrite Hscan by (simpl in Hfuel; lia).
    cbn [app]. rewrite (skip_ws_stop 44) by reflexivity.
    change (44 =? 93) with false. change (44 =? 44) with true. cbv iota.
    rewrite skip_ws_newline_indent.
    assert (Hhead : exists c t,
               join (44 :: Json.newline_indent lvl)
                 (map (Json.encode lvl) (v' :: items')) = c :: t
               /\ Json.is_ws c = false).
    { inversion Hrest as [|? ? Hv' _]; subst.
      destruct Hv' as [[c [t [Ec [Hw _]]]] _].
      destruct items'; cbn [map join]; rewrite Ec;
        eexists; eexists; (split; [reflexivity | exact Hw]). }
    destruct Hhead as [c [t [Ej Hw]]].
    rewrite Ej. cbn [app].
    rewrite (skip_ws_stop c) by exact Hw.
    change (c :: t ++ Json.newline_indent lvl' ++ 93 :: rest)
      with ((c :: t) ++ Json.newline_indent lvl' ++ 93 :: rest).
    rewrite <- Ej.
    rewrite IH; [reflexivity | discriminate | exact Hrest
                | simpl in *; lia].
Qed.

Lemma reads_back_more (k k' lvl : nat) (v : value) :
  (k <= k')%nat -> reads_back k lvl v -> reads_back k' lvl v.
Proof.
  intros Hk [Hh Hs]. split; [exact Hh|].
  intros fuel rest Hf. apply Hs. lia.
Qed.

Lemma reads_back_account (lvl : nat) (s : pystr) :
  text_ok s = true -> reads_back 4 lvl (account_entry s).
Proof.
  intros Hs. split.
  - eexists. eexists. split; [reflexivity|]. split; reflexivity.
  - intros fuel rest Hf.
    destruct fuel as [|[|[|fuel]]]; try lia.
    change (Json.encode lvl (account_entry s))
      with (123 :: Json.newline_indent (S lvl)
            ++ (Json.encode_string (py "session_name") ++ py ": "
                ++ Json.encode (S lvl) (VStr s))
            ++ Json.newline_indent lvl ++ [125]).
    cbn [app]. rewrite scan_once_object.
    rewrite <- !List.app_assoc, skip_ws_newline_indent.
    change (Json.encode_string (py "session_name"))
      with (34 :: flat_map Json.escape_char (py "session_name") ++ [34]).
    cbn [app]. rewrite (skip_ws_stop 34) by reflexivity.
    change (34 =? 125) with false. cbv iota.
    match goal with
    | |- context [Json.parse_members _ (34 :: ?x ++ ?y)] =>
        change (34 :: x ++ y)
          with (Json.encode_string (py "session_name") ++ y)
    end.
    rewrite (parse_members_member 1 (S fuel) (S lvl) (py "session_name")
               (VStr s)); [|reflexivity|now apply reads_back_string|lia].
    rewrite skip_ws_newline_indent, (skip_ws_stop 125) by reflexivity.
    reflexivity.
Qed.

Lemma reads_back_target (lvl : nat) (r m : pystr) :
  text_ok r = true -> text_ok m = true ->
  reads_back 4 lvl (target_entry r m).
Proof.
  intros Hr Hm. split.
  - eexists. eexists. split; [reflexivity|]. split; reflexivity.
  - intros fuel rest Hf.
    destruct fuel as [|[|[|[|fuel]]]]; try lia.
    change (Json.encode lvl (target_entry r m))
      with (123 :: Json.newline_indent (S lvl)
            ++ ((Json.encode_string (py "recipient") ++ py ": "
                 ++ Json.encode (S lvl) (VStr r))
                ++ (44 :: Json.newline_indent (S lvl))
                ++ (Json.encode_string (py "message") ++ py ": "
                    ++ Json.encode (S lvl) (VStr m)))
            ++ Json.newline_indent lvl ++ [125]).
    cbn [app]. rewrite scan_once_object.
    rewrite <- !List.app_assoc, skip_ws_newline_indent.
    change (Json.encode_string (py "recipient"))
      with (34 :: flat_map Json.escape_char (py "recipient") ++ [34]).
    cbn [app]. rewrite (skip_ws_stop 34) by reflexivity.
    change (34 =? 125) with false. cbv iota.
    match goal with
    | |- context [Json.parse_members _ (34 :: ?x ++ ?y)] =>
        change (34 :: x ++ y)
          with (Json.encode_string (py "recipient") ++ y)
    end.
    rewrite (parse_members_member 1 (S (S fuel)) (S lvl) (py "recipient")
               (VStr r)); [|reflexivity|now apply reads_back_string|lia].
    rewrite (skip_ws_stop 44) by reflexivity.
    change (44 =? 125) with false. change (44 =? 44) with true. cbv iota.
    rewrite <- !List.app_assoc, skip_ws_newline_indent.
    change (Json.encode_string (py "message"))
      with (34 :: flat_map Json.escape_char (py "message") ++ [34]).
    cbn [app]. rewrite (skip_ws_stop 34) by reflexivity.
    match goal with
    | |- context [Json.parse_members _ (34 :: ?x ++ ?y)] =>
        change (34 :: x ++ y)
          with (Json.encode_string (py "message") ++ y)
    end.
    rewrite (parse_members_member 1 (S fuel) (S lvl) (py "message")
               (VStr m)); [|reflexivity|now apply reads_back_string|lia].
    rewrite skip_ws_newline_indent, (skip_ws_stop 125) by reflexivity.
    reflexivity.
Qed.

Lemma reads_back_list (k lvl : nat) (items : list value) :
  Forall (reads_back k (S lvl)) items ->
  reads_back (S (length items + k)) lvl (VList items).
Proof.
  intros Hall. split.
  - destruct items; eexists; eexists; (split; [reflexivity|]);
      split; reflexivity.
  - intros fuel rest Hf. destruct fuel as [|fuel]; [lia|].
    destruct items as [|v items].
    + reflexivity.
    + change (Json.encode lvl (VList (v :: items)))
        with (91 :: Json.newline_indent (S lvl)
              ++ join (44 :: Json.newline_indent (S lvl))
                   (map (Json.encode (S lvl)) (v :: items))
              ++ Json.newline_indent lvl ++ [93]).
      cbn [app]. rewrite scan_once_array.
      rewrite <- !List.app_assoc, skip_ws_newline_indent.
      assert (Hhead : exists c t,
                 join (44 :: Json.newline_indent (S lvl))
                   (map (Json.encode (S lvl)) (v :: items)) = c :: t
                 /\ Json.is_ws c = false /\ (c =? 93) = false).
      { inversion Hall as [|? ? Hv _]; subst.
        destruct Hv as [[c [t [Ec [Hw Hb]]]] _].
        destruct items; cbn [map join]; rewrite Ec;
          eexists; eexists; (split; [reflexivity | split; assumption]). }
      destruct Hhead as [c [t [Ej [Hw Hb]]]].
      rewrite Ej. cbn [app]. rewrite (skip_ws_stop c) by exact Hw.
      rewrite Hb.
      change (c :: t ++ Json.newline_indent lvl ++ 93 :: rest)
        with ((c :: t) ++ Json.newline_indent lvl ++ 93 :: rest).
      rewrite <- Ej.
      rewrite (parse_items_back k (S lvl) lvl);
        [reflexivity | discriminate | exact Hall | simpl in *; lia].
Qed.

(** *** The document *)

Lemma reads_back_accounts (lvl : nat) (accounts : list pystr) :
  forallb text_ok accounts = true ->
  Forall (reads_back 4 lvl) (map account_entry accounts).
Proof.
  induction accounts as [|s l IH]; intros H; [constructor|].
  simpl in H. apply andb_true_iff in H as [Hs Hl].
  constructor; [now apply reads_back_account | now apply IH].
Qed.

Lemma reads_back_targets (lvl : nat) (targets : list (pystr * pystr)) :
  forallb (fun rm => text_ok (fst rm) && text_ok (snd rm)) targets = true ->
  Forall (reads_back 4 lvl)
         (map (fun rm => target_entry (fst rm) (snd rm)) targets).
Proof.
  induction targets as [|[r m] l IH]; intros H; [constructor|].
  simpl in H. apply andb_true_iff in H as [Hs Hl].
  apply andb_true_iff in Hs as [Hr Hm].
  constructor; [now apply reads_back_target | now apply IH].
Qed.

Lemma reads_back_document (accounts : list pystr)
      (targets : list (pystr * pystr)) :
  valid_document accounts targets = true ->
  reads_back (length accounts + length targets + 8) 0
             (document accounts targets).
Proof.
  intros H. apply andb_true_iff in H as [Ha Ht].
  pose proof (reads_back_list 4 1 _ (reads_back_accounts 2 accounts Ha)) as Ra.
  pose proof (reads_back_list 4 1 _ (reads_back_targets 2 targets Ht)) as Rt.
  rewrite length_map in Ra, Rt.
  set (A := VList (map account_entry accounts)) in *.
  set (T := VList (map (fun rm => target_entry (fst rm) (snd rm)) targets))
    in *.
  split.
  - eexists. eexists. split; [reflexivity|]. split; reflexivity.
  - intros fuel rest Hf.
    destruct fuel as [|[|[|fuel]]]; try lia.
    change (Json.encode 0 (document accounts targets))
      with (123 :: Json.newline_indent 1
            ++ ((Json.encode_string (py "accounts") ++ py ": "
                 ++ Json.encode 1 A)
                ++ (44 :: Json.newline_indent 1)
                ++ (Json.encode_string (py "targets") ++ py ": "
                    ++ Json.encode 1 T))
            ++ Json.newline_indent 0 ++ [125]).
    cbn [app]. rewrite scan_once_object.
    rewrite <- !List.app_assoc, skip_ws_newline_indent.
    change (Json.encode_string (py "accounts"))
      with (34 :: flat_map Json.escape_char (py "accounts") ++ [34]).
    cbn [app]. rewrite (skip_ws_stop 34) by reflexivity.
    change (34 =? 125) with false. cbv iota.
    match goal with
    | |- context [Json.parse_members _ (34 :: ?x ++ ?y)] =>
        change (34 :: x ++ y)
          with (Json.encode_string (py "accounts") ++ y)
    end.
    rewrite (parse_members_member _ (S fuel) 1 (py "accounts") A _
               eq_refl Ra) by lia.
    rewrite (skip_ws_stop 44) by reflexivity.
    change (44 =? 125) with false. change (44 =? 44) with true. cbv iota.
    rewrite <- ?List.app_assoc, skip_ws_newline_indent.
    change (Json.encode_string (py "targets"))
      with (34 :: flat_map Json.escape_char (py "targets") ++ [34]).
    cbn [app]. rewrite (skip_ws_stop 34) by reflexivity.
    match goal with
    | |- context [Json.parse_members _ (34 :: ?x ++ ?y)] =>
        change (34 :: x ++ y)
          with (Json.encode_string (py "targets") ++ y)
    end.
    rewrite (parse_members_member _ fuel 1 (py "targets") T _
               eq_refl Rt) by lia.
    rewrite skip_ws_newline_indent, (skip_ws_stop 125) by reflexivity.
    reflexivity.
Qed.

Lemma join_length_ge (sep : pystr) (l : list pystr) :
  Forall (fun x => x <> []) l -> (length l <= length (join sep l))%nat.
Proof.
  induction l as [|x l IH]; intros H; [simpl; lia|].
  inversion H as [|? ? Hx Hl]; subst. specialize (IH Hl).
  destruct l as [|y l'].
  - destruct x; [contradiction | simpl; lia].
  - change (join sep (x :: y :: l')) with (x ++ sep ++ join sep (y :: l')).
    rewrite !length_app. destruct x; [contradiction|]. simpl in *. lia.
Qed.

Lemma encode_list_length (k lvl : nat) (items : list value) :
  Forall (reads_back k (S lvl)) items ->
  (length items <= length (Json.encode lvl (VList items)))%nat.
Proof.
  intros H. destruct items as [|v items]; [simpl; lia|].
  change (Json.encode lvl (VList (v :: items)))
    with (91 :: Json.newline_indent (S lvl)
          ++ join (44 :: Json.newline_indent (S lvl))
               (map (Json.encode (S lvl)) (v :: items))
          ++ Json.newline_indent lvl ++ [93]).
  cbn [length]. rewrite !length_app.
  pose proof (join_length_ge (44 :: Json.newline_indent (S lvl))
                (map (Json.encode (S lvl)) (v :: items))) as Hj.
  rewrite length_map in Hj.
  assert (Hne : Forall (fun x => x <> [])
                  (map (Json.encode (S lvl)) (v :: items))).
  { apply Forall_map. eapply Forall_impl; [|exact H].
    intros a [[c [t [E _]]] _]. rewrite E. discriminate. }
  specialize (Hj Hne). cbn [length] in Hj. lia.
Qed.

(** What is dumped is loaded back. *)
Lemma loads_dumps_document (accounts : list pystr)
      (targets : list (pystr * pystr)) :
  valid_document accounts targets = true ->
  Json.loads (Json.dumps (document accounts targets))
  = inr (document accounts targets).
Proof.
  intros H. destruct (reads_back_document accounts targets H) as [_ Hscan].
  unfold Json.loads, Json.dumps.
  assert (Hlen : (length accounts + length targets
                  <= length (Json.encode 0 (document accounts targets)))%nat).
  { apply andb_true_iff in H as [Ha Ht].
    pose proof (encode_list_length 4 1 _ (reads_back_accounts 2 accounts Ha))
      as La.
    pose proof (encode_list_length 4 1 _ (reads_back_targets 2 targets Ht))
      as Lt.
    rewrite length_map in La, Lt.
    change (Json.encode 0 (document accounts targets))
      with (123 :: Json.newline_indent 1
            ++ ((Json.encode_string (py "accounts") ++ py ": "
                 ++ Json.encode 1 (VList (map account_entry accounts)))
                ++ (44 :: Json.newline_indent 1)
                ++ (Json.encode_string (py "targets") ++ py ": "
                    ++ Json.encode 1
                         (VList (map (fun rm => target_entry (fst rm) (snd rm))
                                     targets))))
            ++ Json.newline_indent 0 ++ [125]).
    cbn [length]. rewrite !length_app. lia. }
  assert (Hl : (8 <= length (Json.encode 0 (document accounts targets)))%nat).
  { change (Json.encode 0 (document accounts targets))
      with (123 :: Json.newline_indent 1
            ++ ((Json.encode_string (py "accounts") ++ py ": "
                 ++ Json.encode 1 (VList (map account_entry accounts)))
                ++ (44 :: Json.newline_indent 1)
                ++ (Json.encode_string (py "targets") ++ py ": "
                    ++ Json.encode 1
                         (VList (map (fun rm => target_entry (fst rm) (snd rm))
                                     targets))))
            ++ Json.newline_indent 0 ++ [125]).
    cbn [length]. rewrite !length_app.
    change (length (Json.encode_string (py "accounts"))) with 10%nat.
    lia. }
  assert (Et : exists t, Json.encode 0 (document accounts targets) = 123 :: t).
  { eexists. reflexivity. }
  destruct Et as [t Et].
  pose proof (Hscan (2 * length (Json.encode 0 (document accounts targets)) + 1)%nat
                [] ltac:(lia)) as Hs.
  rewrite app_nil_r in Hs.
  remember (Json.encode 0 (document accounts targets)) as text eqn:Etext.
  assert (Hb : startswith [65279] text = false) by (rewrite Et; reflexivity).
  assert (Hsk : Json.skip_ws text = text) by (rewrite Et; reflexivity).
  rewrite Hb, Hsk, Hs. reflexivity.
Qed.

End JsonRoundTrip.

(** ** Saving and loading *)

(** C8. Saving a document of the documented shape, a dict of the
    accounts and the targets whose strings are Unicode text, and loading
    the file again gives the same document: the same accounts and the
    same targets, in the same order. *)
Theorem save_then_load_gives_same_document
        (st : state) (accounts : list pystr) (targets : list (pystr * pystr)) :
  valid_document accounts targets = true ->
  sessions_data st = document accounts targets ->
  exists st',
    save_sessions st = (inr tt, st')
    /\ sessions_data st' = document accounts targets
    /\ load_sessions (sessions_file st') = inr (document accounts targets).
Proof.
  intros Hv Hd. eexists. split; [reflexivity|].
  split; [exact Hd|].
  cbn [sessions_file add_log set_file load_sessions sessions_data].
  rewrite Hd. now apply loads_dumps_document.
Qed.

Lemma save_then_load_gives_same_document_witness :
  valid_document [py "alice"; py "bob"] [(py "group", py "hello")] = true
  /\ sessions_data (State Scenario.written [] (inl (Raise FileNotFoundError []))
                          [] [])
     = document [py "alice"; py "bob"] [(py "group", py "hello")]
  /\ exists st',
      save_sessions (State Scenario.written [] (inl (Raise FileNotFoundError []))
                           [] [])
      = (inr tt, st')
      /\ load_sessions (sessions_file st') = inr Scenario.written.
Proof.
  split; [reflexivity | split; [reflexivity|]].
  destruct (save_then_load_gives_same_document
              (State Scenario.written [] (inl (Raise FileNotFoundError [])) [] [])
              [py "alice"; py "bob"] [(py "group", py "hello")]
              eq_refl eq_refl) as [st' [H1 [_ H3]]].
  exists st'. split; [exact H1 | exact H3].
Defined.

(** C2, as the code has it. A missing file gives the default document;
    an empty file is no JSON text and raises the decoding error; every
    other exception of opening or reading and every decoding error
    reaches the caller. *)
Theorem load_sessions_recovers_only_missing_file
        (missing : pystr) (e : exn) (text : pystr) (e' : exn) :
  exn_cls e <> FileNotFoundError ->
  Json.loads text = inl e' ->
  load_sessions (inl (Raise FileNotFoundError missing)) = inr default_document
  /\ load_sessions (inr []) = inl Json.decode_error
  /\ load_sessions (inl e) = inl e
  /\ load_sessions (inr text) = inl e'.
Proof.
  intros He Ht. split; [reflexivity|]. split; [reflexivity|].
  split; [|exact Ht].
  unfold load_sessions. destruct e as [[] msg]; try reflexivity.
  now contradiction He.
Qed.

Lemma load_sessions_recovers_only_missing_file_witness :
  exn_cls Scenario.permission_error <> FileNotFoundError
  /\ Json.loads (py "{") = inl Json.decode_error
  /\ load_sessions (inl (Raise FileNotFoundError (py "sessions.json")))
     = inr default_document
  /\ load_sessions (inr []) = inl Json.decode_error
  /\ load_sessions (inl Scenario.permission_error)
     = inl Scenario.permission_error
  /\ load_sessions (inr (py "{")) = inl Json.decode_error.
Proof.
  assert (H1 : exn_cls Scenario.permission_error <> FileNotFoundError)
    by discriminate.
  split; [exact H1|]. split; [reflexivity|].
  exact (load_sessions_recovers_only_missing_file
           (py "sessions.json") Scenario.permission_error (py "{")
           Json.decode_error H1 eq_refl).
Defined.

(** C2, as stated, fails: an empty file does not give the default
    document, it raises. *)
Lemma load_sessions_empty_file_raises :
  load_sessions (inr []) = inl Json.decode_error
  /\ load_sessions (inr []) <> inr default_document.
Proof. split; [reflexivity | discriminate]. Qed.

(** ** A document of another shape *)

Lemma tracked_names_missing (st : state) (e : exn) :
  getitem (sessions_data st) (py "accounts") = inl e ->
  tracked_names st = (inl e, st).
Proof.
  intros H. unfold tracked_names, data_item, bind, gets, lift. now rewrite H.
Qed.

Lemma detect_files_missing (st : state) (e : exn) :
  getitem (sessions_data st) (py "accounts") = inl e ->
  forall files found,
    detect_files found files st = (inr found, st)
    \/ detect_files found files st = (inl e, st).
Proof.
  intros H. induction files as [|file files IH]; intros found.
  - now left.
  - cbn [detect_files].
    assert (Hf : detect_file found file st = (inr found, st)
                 \/ detect_file found file st = (inl e, st)).
    { unfold detect_file.
      destruct (endswith (py ".session") file); [|now left].
      destruct (PyStr.eqb _ _); [now left|].
      right. now rewrite (bind_inl _ (tracked_names_missing st e H)). }
    destruct Hf as [Hf|Hf].
    + rewrite (bind_inr _ Hf). apply IH.
    + right. now rewrite (bind_inl _ Hf).
Qed.

Lemma setup_raises_missing_accounts (w : world) (st : state) (e : exn) :
  getitem (sessions_data st) (py "accounts") = inl e ->
  exists st', setup w st = (inl e, st').
Proof.
  intros H. unfold setup.
  rewrite (bind_inr _ (print_run _ _ st)).
  rewrite (bind_inr _ (print_run _ _ _)).
  rewrite (bind_inr _ (print_run _ _ _)).
  rewrite !extend_log_app. cbn [app].
  match goal with
  | |- context [bind (detect_existing_sessions w) _ ?s] => set (st3 := s)
  end.
  assert (H3 : getitem (sessions_data st3) (py "accounts") = inl e) by exact H.
  unfold detect_existing_sessions.
  unfold bind at 1. unfold bind at 1. rewrite print_run.
  set (st4 := extend_log _ st3).
  assert (H4 : getitem (sessions_data st4) (py "accounts") = inl e) by exact H.
  destruct (detect_files_missing st4 e H4 (walked_files w) []) as [Hd|Hd].
  - rewrite (bind_inr _ Hd).
    rewrite (bind_inr _ (print_run _ _ _)).
    unfold ret at 1.
    set (st5 := extend_log _ st4).
    assert (H5 : getitem (sessions_data st5) (py "accounts") = inl e)
      by exact H.
    exists st5. unfold load_accounts, accounts_items, data_item.
    unfold bind, gets, lift. now rewrite H5.
  - rewrite (bind_inl _ Hd). now exists st4.
Qed.

(** C10. Whatever value the text of the file denotes, [load_sessions]
    returns it and the manager starts with it: nothing looks at its
    shape.  When it has no [accounts] (it is no dict, or a dict without
    that key), the exception of the indexing comes when [setup] runs. *)
Theorem load_sessions_does_not_validate
        (text : pystr) (v : value) (lines : list pystr) :
  Json.loads text = inr v ->
  load_sessions (inr text) = inr v
  /\ init (inr text) lines = inr (State v [] (inr text) lines [])
  /\ forall w e,
      getitem v (py "accounts") = inl e ->
      exists st', setup w (State v [] (inr text) lines []) = (inl e, st').
Proof.
  intros H. split; [exact H|]. split.
  - unfold init, load_sessions. now rewrite H.
  - intros w e He. now apply setup_raises_missing_accounts.
Qed.

Lemma load_sessions_does_not_validate_witness :
  Json.loads (py "{}") = inr (VDict [])
  /\ load_sessions (inr (py "{}")) = inr (VDict [])
  /\ init (inr (py "{}")) [] = inr (State (VDict []) [] (inr (py "{}")) [] [])
  /\ exists st',
      setup Scenario.home (State (VDict []) [] (inr (py "{}")) [] [])
      = (inl (Raise KeyError (py "accounts")), st').
Proof.
  split; [reflexivity|].
  destruct (load_sessions_does_not_validate (py "{}") (VDict []) [] eq_refl)
    as [H1 [H2 H3]].
  split; [exact H1|]. split; [exact H2|].
  exact (H3 Scenario.home (Raise KeyError (py "accounts")) eq_refl).
Defined.

(** ** The bound of the scanner *)

Section JsonFuel.
Local Open Scope N_scope.

Lemma skip_ws_length (s : pystr) :
  (length (Json.skip_ws s) <= length s)%nat.
Proof.
  induction s as [|c t IH]; simpl; [lia|].
  destruct (Json.is_ws c); simpl; lia.
Qed.

Lemma cons_char_some (c : char) (r : option (pystr * pystr))
      (str rest : pystr) :
  Json.cons_char c r = Some (str, rest) ->
  exists str', r = Some (str', rest).
Proof.
  destruct r as [[s' r']|]; simpl; [|discriminate].
  intros [= <- <-]. now exists s'.
Qed.

Ltac break_scan :=
  repeat match goal with
    | H : Json.cons_char _ _ = Some _ |- _ =>
        apply cons_char_some in H; destruct H as [? H]
    | H : match ?x with _ => _ end = Some _ |- _ =>
        destruct x eqn:?; try discriminate H
    | H : Some _ = Some _ |- _ => injection H as ? ?; subst
    end.

Lemma scanstring_shorter (n : nat) :
  forall s str r,
    (length s <= n)%nat -> Json.scanstring s = Some (str, r) ->
    (length r < length s)%nat.
Proof.
  induction n as [|n IH]; intros s str r Hn H.
  - destruct s; [discriminate | simpl in Hn; lia].
  - destruct s as [|c t]; [discriminate|].
    cbn [Json.scanstring] in H.
    break_scan;
      try match goal with
        | H : Json.scanstring ?x = Some _ |- _ =>
            apply IH in H; [simpl in *; lia | simpl in *; lia]
        end.
    simpl; lia.
Qed.

Lemma span_digits_length (s : pystr) :
  forall d r, Json.span_digits s = (d, r) -> (length r <= length s)%nat.
Proof.
  induction s as [|c t IH]; intros d r H; simpl in H.
  - injection H as <- <-. simpl. lia.
  - destruct (Json.is_digit c).
    + destruct (Json.span_digits t) as [d' r'] eqn:E.
      injection H as <- <-. specialize (IH d' r' eq_refl). simpl. lia.
    + injection H as <- <-. simpl. lia.
Qed.

Lemma scan_int_shorter (s i r : pystr) :
  Json.scan_int s = Some (i, r) -> (length r < length s)%nat.
Proof.
  unfold Json.scan_int. intros H.
  destruct s as [|c t]; [discriminate|].
  destruct (c =? 45).
  - destruct t as [|c' t']; [discriminate|].
    destruct (c' =? 48); [injection H as <- <-; simpl; lia|].
    destruct (Json.is_digit c'); [|discriminate].
    destruct (Json.span_digits t') as [d r'] eqn:E.
    injection H as <- <-. apply span_digits_length in E. simpl. lia.
  - destruct (c =? 48); [injection H as <- <-; simpl; lia|].
    destruct (Json.is_digit c); [|discriminate].
    destruct (Json.span_digits t) as [d r'] eqn:E.
    injection H as <- <-. apply span_digits_length in E. simpl. lia.
Qed.

Lemma scan_frac_length (s f r : pystr) :
  Json.scan_frac s = (f, r) -> (length r <= length s)%nat.
Proof.
  unfold Json.scan_frac. intros H.
  destruct s as [|dot [|c t]]; try (injection H as <- <-; simpl; lia).
  destruct ((dot =? 46) && Json.is_digit c);
    [|injection H as <- <-; simpl; lia].
  destruct (Json.span_digits (c :: t)) as [d r'] eqn:E.
  injection H as <- <-. apply span_digits_length in E. simpl in *. lia.
Qed.

Lemma scan_exp_length (s e r : pystr) :
  Json.scan_exp s = (e, r) -> (length r <= length s)%nat.
Proof.
  unfold Json.scan_exp. intros H.
  destruct s as [|c t]; [injection H as <- <-; simpl; lia|].
  destruct ((c =? 101) || (c =? 69)); [|injection H as <- <-; simpl; lia].
  destruct t as [|c' t'].
  - simpl in H. injection H as <- <-. simpl. lia.
  - destruct ((c' =? 45) || (c' =? 43)).
    + destruct (Json.span_digits t') as [d r'] eqn:E.
      apply span_digits_length in E.
      destruct d; injection H as <- <-; simpl in *; lia.
    + destruct (Json.span_digits (c' :: t')) as [d r'] eqn:E.
      apply span_digits_length in E.
      destruct d; injection H as <- <-; simpl in *; lia.
Qed.

Lemma match_number_shorter (s : pystr) (v : value) (r : pystr) :
  Json.match_number s = Some (v, r) -> (length r < length s)%nat.
Proof.
  unfold Json.match_number. intros H.
  destruct (Json.scan_int s) as [[i r1]|] eqn:Ei; [|discriminate].
  apply scan_int_shorter in Ei.
  destruct (Json.scan_frac r1) as [f r2] eqn:Ef.
  apply scan_frac_length in Ef.
  destruct (Json.scan_exp r2) as [e r3] eqn:Ee.
  apply scan_exp_length in Ee.
  destruct f, e; injection H as <- <-; lia.
Qed.

Lemma strip_prefix_length (p : pystr) :
  forall s r, Json.strip_prefix p s = Some r ->
              length s = (length p + length r)%nat.
Proof.
  induction p as [|x p IH]; intros s r H; simpl in H.
  - now injection H as <-.
  - destruct s as [|y s]; [discriminate|].
    destruct (x =? y); [|discriminate].
    apply IH in H. simpl. lia.
Qed.

Lemma scan_atom_shorter (s : pystr) (v : value) (r : pystr) :
  Json.scan_atom s = Some (v, r) -> (length r < length s)%nat.
Proof.
  unfold Json.scan_atom. intros H.
  repeat match type of H with
    | match Json.strip_prefix ?p s with _ => _ end = _ =>
        let E := fresh "E" in
        destruct (Json.strip_prefix p s) eqn:E;
          [injection H as <- <-; apply strip_prefix_length in E;
           simpl in E; lia|]
    end.
  exact (match_number_shorter s v r H).
Qed.

Lemma scan_once_step (fuel : nat) (c : char) (t : pystr) :
  Json.scan_once (S fuel) (c :: t)
  = if c =? 34 then
      match Json.scanstring t with
      | Some (str, r) => Json.Scanned (VStr str) r
      | None => Json.Invalid
      end
    else if c =? 123 then
      match Json.skip_ws t with
      | c' :: r =>
          if c' =? 125 then Json.Scanned (VDict []) r
          else
            match Json.parse_members fuel (c' :: r) with
            | Json.Scanned pairs r' =>
                Json.Scanned (Json.dict_of_pairs pairs) r'
            | Json.Invalid => Json.Invalid
            | Json.Exhausted => Json.Exhausted
            end
      | [] => Json.Invalid
      end
    else if c =? 91 then
      match Json.skip_ws t with
      | c' :: r =>
          if c' =? 93 then Json.Scanned (VList []) r
          else
            match Json.parse_items fuel (c' :: r) with
            | Json.Scanned items r' => Json.Scanned (VList items) r'
            | Json.Invalid => Json.Invalid
            | Json.Exhausted => Json.Exhausted
            end
      | [] => Json.Invalid
      end
    else
      match Json.scan_atom (c :: t) with
      | Some (v, r) => Json.Scanned v r
      | None => Json.Invalid
      end.
Proof. reflexivity. Qed.

Lemma parse_members_unfold (fuel : nat) (q : char) (t : pystr) :
  Json.parse_members (S fuel) (q :: t)
  = if q =? 34 then Json.parse_members (S fuel) (34 :: t) else Json.Invalid.
Proof.
  destruct (q =? 34) eqn:E; [apply N.eqb_eq in E; now subst|].
  cbn [Json.parse_members]. now rewrite E.
Qed.

(** Whatever is scanned is taken from the text. *)
Lemma scanned_shorter (fuel : nat) :
  (forall s v r, Json.scan_once fuel s = Json.Scanned v r ->
                 (length r < length s)%nat)
  /\ (forall s l r, Json.parse_items fuel s = Json.Scanned l r ->
                    (length r < length s)%nat)
  /\ (forall s l r, Json.parse_members fuel s = Json.Scanned l r ->
                    (length r < length s)%nat).
Proof.
  induction fuel as [|fuel [IHv [IHi IHm]]].
  - repeat split; intros; discriminate.
  - split; [|split].
    + intros s v r H. destruct s as [|c t]; [discriminate|].
      rewrite scan_once_step in H.
      destruct (c =? 34).
      { destruct (Json.scanstring t) as [[str r']|] eqn:E; [|discriminate].
        injection H as <- <-.
        apply (scanstring_shorter (length t)) in E; simpl; lia. }
      destruct (c =? 123).
      { pose proof (skip_ws_length t) as Hw.
        destruct (Json.skip_ws t) as [|c' r0]; [discriminate|].
        destruct (c' =? 125); [injection H as <- <-; simpl in *; lia|].
        destruct (Json.parse_members fuel (c' :: r0)) as [pairs r'| |] eqn:E;
          try discriminate.
        injection H as <- <-. apply IHm in E. simpl in *. lia. }
      destruct (c =? 91).
      { pose proof (skip_ws_length t) as Hw.
        destruct (Json.skip_ws t) as [|c' r0]; [discriminate|].
        destruct (c' =? 93); [injection H as <- <-; simpl in *; lia|].
        destruct (Json.parse_items fuel (c' :: r0)) as [items r'| |] eqn:E;
          try discriminate.
        injection H as <- <-. apply IHi in E. simpl in *. lia. }
      destruct (Json.scan_atom (c :: t)) as [[v' r']|] eqn:E; [|discriminate].
      injection H as <- <-. now apply scan_atom_shorter in E.
    + intros s l r H. rewrite parse_items_step in H.
      destruct (Json.scan_once fuel s) as [v r1| |] eqn:E; try discriminate.
      apply IHv in E. pose proof (skip_ws_length r1) as Hw.
      destruct (Json.skip_ws r1) as [|c r']; [discriminate|].
      destruct (c =? 93); [injection H as <- <-; simpl in *; lia|].
      destruct (c =? 44); [|discriminate].
      pose proof (skip_ws_length r') as Hw'.
      destruct (Json.parse_items fuel (Json.skip_ws r')) as [items r''| |] eqn:E';
        try discriminate.
      injection H as <- <-. apply IHi in E'. simpl in *. lia.
    + intros s l r H. destruct s as [|q t]; [discriminate|].
      rewrite parse_members_unfold in H.
      destruct (q =? 34); [|discriminate].
      rewrite parse_members_step in H.
      destruct (Json.scanstring t) as [[key r0]|] eqn:Ek; [|discriminate].
      apply (scanstring_shorter (length t)) in Ek; [|lia].
      pose proof (skip_ws_length r0) as Hw0.
      destruct (Json.skip_ws r0) as [|colon r1]; [discriminate|].
      destruct (colon =? 58); [|discriminate].
      pose proof (skip_ws_length r1) as Hw1.
      destruct (Json.scan_once fuel (Json.skip_ws r1)) as [v r2| |] eqn:Ev;
        try discriminate.
      apply IHv in Ev. pose proof (skip_ws_length r2) as Hw2.
      destruct (Json.skip_ws r2) as [|c r3]; [discriminate|].
      destruct (c =? 125); [injection H as <- <-; simpl in *; lia|].
      destruct (c =? 44); [|discriminate].
      pose proof (skip_ws_length r3) as Hw3.
      destruct (Json.parse_members fuel (Json.skip_ws r3)) as [pairs r4| |] eqn:Em;
        try discriminate.
      injection H as <- <-. apply IHm in Em. simpl in *. lia.
Qed.

(** With fuel beyond twice the length of the text, no scan runs out of
    it. *)
Lemma scan_enough (fuel : nat) :
  (forall s, (2 * length s < fuel)%nat ->
             Json.scan_once fuel s <> Json.Exhausted)
  /\ (forall s, (2 * length s + 1 < fuel)%nat ->
                Json.parse_items fuel s <> Json.Exhausted)
  /\ (forall s, (2 * length s + 1 < fuel)%nat ->
                Json.parse_members fuel s <> Json.Exhausted).
Proof.
  induction fuel as [|fuel [IHv [IHi IHm]]].
  - repeat split; intros; lia.
  - destruct (scanned_shorter fuel) as [Sv [Si Sm]].
    split; [|split].
    + intros s Hf. destruct s as [|c t]; [discriminate|].
      rewrite scan_once_step.
      destruct (c =? 34).
      { destruct (Json.scanstring t) as [[str r']|]; discriminate. }
      destruct (c =? 123).
      { pose proof (skip_ws_length t) as Hw.
        destruct (Json.skip_ws t) as [|c' r0]; [discriminate|].
        destruct (c' =? 125); [discriminate|].
        assert (Hm : Json.parse_members fuel (c' :: r0) <> Json.Exhausted)
          by (apply IHm; simpl in *; lia).
        destruct (Json.parse_members fuel (c' :: r0));
          [discriminate | discriminate | contradiction]. }
      destruct (c =? 91).
      { pose proof (skip_ws_length t) as Hw.
        destruct (Json.skip_ws t) as [|c' r0]; [discriminate|].
        destruct (c' =? 93); [discriminate|].
        assert (Hi : Json.parse_items fuel (c' :: r0) <> Json.Exhausted)
          by (apply IHi; simpl in *; lia).
        destruct (Json.parse_items fuel (c' :: r0));
          [discriminate | discriminate | contradiction]. }
      destruct (Json.scan_atom (c :: t)) as [[v' r']|]; discriminate.
    + intros s Hf. rewrite parse_items_step.
      assert (Hv : Json.scan_once fuel s <> Json.Exhausted)
        by (apply IHv; lia).
      destruct (Json.scan_once fuel s) as [v r1| |] eqn:E;
        [|discriminate|contradiction].
      apply Sv in E. pose proof (skip_ws_length r1) as Hw.
      destruct (Json.skip_ws r1) as [|c r']; [discriminate|].
      destruct (c =? 93); [discriminate|].
      destruct (c =? 44); [|discriminate].
      pose proof (skip_ws_length r') as Hw'.
      assert (Hi : Json.parse_items fuel (Json.skip_ws r') <> Json.Exhausted)
        by (apply IHi; simpl in *; lia).
      destruct (Json.parse_items fuel (Json.skip_ws r'));
        [discriminate | discriminate | contradiction].
    + intros s Hf. destruct s as [|q t]; [discriminate|].
      rewrite parse_members_unfold.
      destruct (q =? 34); [|discriminate].
      rewrite parse_members_step.
      destruct (Json.scanstring t) as [[key r0]|] eqn:Ek; [|discriminate].
      apply (scanstring_shorter (length t)) in Ek; [|lia].
      pose proof (skip_ws_length r0) as Hw0.
      destruct (Json.skip_ws r0) as [|colon r1]; [discriminate|].
      destruct (colon =? 58); [|discriminate].
      pose proof (skip_ws_length r1) as Hw1.
      assert (Hv : Json.scan_once fuel (Json.skip_ws r1) <> Json.Exhausted)
        by (apply IHv; simpl in *; lia).
      destruct (Json.scan_once fuel (Json.skip_ws r1)) as [v r2| |] eqn:Ev;
        [|discriminate|contradiction].
      apply Sv in Ev. pose proof (skip_ws_length r2) as Hw2.
      destruct (Json.skip_ws r2) as [|c r3]; [discriminate|].
      destruct (c =? 125); [discriminate|].
      destruct (c =? 44); [|discriminate].
      pose proof (skip_ws_length r3) as Hw3.
      assert (Hm : Json.parse_members fuel (Json.skip_ws r3) <> Json.Exhausted)
        by (apply IHm; simpl in *; lia).
      destruct (Json.parse_members fuel (Json.skip_ws r3));
        [discriminate | discriminate | contradiction].
Qed.

(** The bound of [loads] is never reached. *)
Lemma scan_once_enough (s : pystr) :
  Json.scan_once (2 * length s + 1) (Json.skip_ws s) <> Json.Exhausted.
Proof.
  apply (proj1 (scan_enough (2 * length s + 1))).
  pose proof (skip_ws_length s). lia.
Qed.

End JsonFuel.

(** ** What a computation keeps *)

Section Steps.

Variable R : state -> state -> Prop.
Hypothesis R_refl : forall st, R st st.
Hypothesis R_trans : forall a b c, R a b -> R b c -> R a c.

Lemma steps_ret {A} (x : A) : steps R (ret x).
Proof. intros st. apply R_refl. Qed.

Lemma steps_raise {A} (e : exn) : steps R (@raise A e).
Proof. intros st. apply R_refl. Qed.

Lemma steps_lift {A} (r : result A) : steps R (lift r).
Proof. intros st. apply R_refl. Qed.

Lemma steps_gets {A} (f : state -> A) : steps R (gets f).
Proof. intros st. apply R_refl. Qed.

Lemma steps_modify (f : state -> state) :
  (forall st, R st (f st)) -> steps R (modify f).
Proof. intros H st. apply H. Qed.

Lemma steps_bind {A B} (c : M A) (k : A -> M B) :
  steps R c -> (forall x, steps R (k x)) -> steps R (bind c k).
Proof.
  intros Hc Hk st. unfold bind. specialize (Hc st).
  destruct (c st) as [[e|x] st1]; simpl in *; [exact Hc|].
  eapply R_trans; [exact Hc | apply Hk].
Qed.

Lemma steps_try_except {A} (c : M A) (h : exn -> M A) :
  steps R c -> (forall e, steps R (h e)) -> steps R (try_except c h).
Proof.
  intros Hc Hh st. unfold try_except. specialize (Hc st).
  destruct (c st) as [[e|x] st1]; simpl in *; [|exact Hc].
  eapply R_trans; [exact Hc | apply Hh].
Qed.

Lemma steps_mutate_item (key : string) (f : value -> result value) :
  (forall v st, R st (set_data v st)) -> steps R (mutate_item key f).
Proof.
  intros H. unfold mutate_item.
  apply steps_bind; [apply steps_gets|]. intros data.
  apply steps_bind; [apply steps_lift|]. intros old.
  apply steps_bind; [apply steps_lift|]. intros new.
  destruct data; try apply steps_ret. apply steps_modify. intros st. apply H.
Qed.

End Steps.

(** *** Standard input *)

Lemma stdin_shrinks_refl (st : state) : stdin_shrinks st st.
Proof. unfold stdin_shrinks. lia. Qed.

Lemma stdin_shrinks_trans (a b c : state) :
  stdin_shrinks a b -> stdin_shrinks b c -> stdin_shrinks a c.
Proof. unfold stdin_shrinks. lia. Qed.

Lemma input_run (prompt : string) (st : state) :
  input prompt st
  = match stdin st with
    | [] => (inl (Raise EOFError (py "EOF when reading a line")),
             add_log (Prompt prompt) st)
    | l :: rest => (inr l, set_stdin rest (add_log (Prompt prompt) st))
    end.
Proof. destruct st as [data cs f [|l rest] lg]; reflexivity. Qed.

Lemma steps_input (prompt : string) : steps stdin_shrinks (input prompt).
Proof.
  intros st. rewrite input_run. unfold stdin_shrinks.
  destruct (stdin st) eqn:E; simpl; rewrite ?E; simpl; lia.
Qed.

Lemma stdin_shrinks_update (f : state -> state) :
  (forall st, stdin (f st) = stdin st) -> steps stdin_shrinks (modify f).
Proof.
  intros H. apply steps_modify. intros st. unfold stdin_shrinks.
  rewrite H. lia.
Qed.

Ltac stdin_auto :=
  repeat first
    [ progress intros
    | apply steps_input
    | apply (steps_ret _ stdin_shrinks_refl)
    | apply (steps_raise _ stdin_shrinks_refl)
    | apply (steps_lift _ stdin_shrinks_refl)
    | apply (steps_gets _ stdin_shrinks_refl)
    | apply (steps_mutate_item _ stdin_shrinks_refl stdin_shrinks_trans);
      intros; apply stdin_shrinks_refl
    | apply stdin_shrinks_update; reflexivity
    | apply (steps_bind _ stdin_shrinks_trans)
    | apply (steps_try_except _ stdin_shrinks_trans)
    | match goal with
      | |- steps _ (match ?x with _ => _ end) => destruct x
      end ].

Lemma steps_add_target : steps stdin_shrinks add_target.
Proof. unfold add_target, save_sessions, print. stdin_auto. Qed.

Lemma steps_add_new_account (w : world) :
  steps stdin_shrinks (add_new_account w).
Proof.
  unfold add_new_account, start, get_me, stop, tracked_names, data_item,
    save_sessions, print.
  stdin_auto.
Qed.

(** More fuel than lines left changes nothing. *)
Lemma more_targets_enough (n : nat) :
  forall m st,
    length (stdin st) < n -> length (stdin st) < m ->
    more_targets n st = more_targets m st.
Proof.
  induction n as [|n IH]; intros m st Hn Hm; [lia|].
  destruct m as [|m]; [lia|].
  cbn [more_targets]. unfold bind at 1 3. rewrite input_run.
  destruct (stdin st) as [|l rest] eqn:E; [reflexivity|].
  destruct (negb _); [reflexivity|].
  unfold bind.
  pose proof (steps_add_target (set_stdin rest (add_log
    (Prompt "\nDo you want to add another target? (y/N): ") st))) as Hs.
  destruct (add_target _) as [[e|u] st2]; [reflexivity|].
  unfold stdin_shrinks in Hs. simpl in Hs, Hn, Hm.
  apply IH; lia.
Qed.

Lemma more_accounts_enough (w : world) (n : nat) :
  forall m st,
    length (stdin st) < n -> length (stdin st) < m ->
    more_accounts w n st = more_accounts w m st.
Proof.
  induction n as [|n IH]; intros m st Hn Hm; [lia|].
  destruct m as [|m]; [lia|].
  cbn [more_accounts]. unfold bind at 1 3. rewrite input_run.
  destruct (stdin st) as [|l rest] eqn:E; [reflexivity|].
  destruct (negb _); [reflexivity|].
  unfold bind.
  pose proof (steps_add_new_account w (set_stdin rest (add_log
    (Prompt "\nDo you want to add another account? (y/N): ") st))) as Hs.
  destruct (add_new_account w _) as [[e|u] st2]; [reflexivity|].
  unfold stdin_shrinks in Hs. simpl in Hs, Hn, Hm.
  apply IH; lia.
Qed.

(** *** The list the loading loop goes through *)

Lemma accounts_items_eq (st : state) :
  accounts_items st = (items_of (sessions_data st), st).
Proof.
  unfold accounts_items, data_item, items_of, bind, gets, lift.
  now destruct (getitem (sessions_data st) (py "accounts")).
Qed.

Lemma same_data_refl (st : state) : same_data st st.
Proof. reflexivity. Qed.

Lemma same_data_trans (a b c : state) :
  same_data a b -> same_data b c -> same_data a c.
Proof. unfold same_data. congruence. Qed.

Lemma same_data_update (f : state -> state) :
  (forall st, sessions_data (f st) = sessions_data st) ->
  steps same_data (modify f).
Proof. intros H. apply steps_modify. exact H. Qed.

Ltac data_auto :=
  repeat first
    [ progress intros
    | apply (steps_ret _ same_data_refl)
    | apply (steps_raise _ same_data_refl)
    | apply (steps_lift _ same_data_refl)
    | apply (steps_gets _ same_data_refl)
    | apply same_data_update; reflexivity
    | apply (steps_bind _ same_data_trans)
    | apply (steps_try_except _ same_data_trans)
    | match goal with
      | |- steps _ (match ?x with _ => _ end) => destruct x
      | |- steps _ (if ?x then _ else _) => destruct x
      end ].

Lemma remove_first_length (x : value) (l : list value) :
  forall l', remove_first x l = Some l' -> length l = S (length l').
Proof.
  induction l as [|y l IH]; intros l' H; simpl in H; [discriminate|].
  destruct (py_eq y x); [now injection H as <-|].
  destruct (remove_first x l) as [l0|]; [|discriminate].
  injection H as <-. simpl. now rewrite (IH l0 eq_refl).
Qed.

(** An account that was gone through leaves a list that is not longer. *)
Lemma load_account_items (w : world) (account : value) (st st1 : state)
      (items : list value) :
  load_account w account st = (inr tt, st1) ->
  items_of (sessions_data st) = inr items ->
  exists items1,
    items_of (sessions_data st1) = inr items1
    /\ length items1 <= length items.
Proof.
  unfold load_account, try_except.
  match goal with
  | |- context [match ?body st with _ => _ end] =>
      assert (Hbody : steps same_data body);
      [unfold start, print; data_auto
      |specialize (Hbody st); destruct (body st) as [[e|u] st'] eqn:Eb]
  end.
  - (* the handler *)
    unfold same_data in Hbody. simpl in Hbody.
    intros Hh Hi. rewrite <- Hbody in Hi. clear Eb Hbody.
    destruct st' as [data cs f lines lg]. simpl in Hi.
    unfold items_of in Hi.
    destruct data as [| | | | | |d]; try discriminate Hi.
    simpl in Hi.
    destruct (Dict.get (py "accounts") d) as [v|] eqn:Eg; [|discriminate].
    unfold mutate_item, save_sessions, print in Hh.
    unfold bind, lift, modify, gets in Hh.
    destruct (getitem account (py "session_name")) as [e0|name];
      [discriminate|].
    cbn [sessions_data add_log getitem] in Hh. rewrite Eg in Hh.
    destruct v as [|b|z|lx|s|l|d']; try discriminate Hh.
    cbn [remove] in Hh.
    destruct (remove_first account l) as [l'|] eqn:Er; [|discriminate].
    cbn [set_data set_file add_log sessions_data clients sessions_file
         stdin log] in Hh.
    injection Hh as <-. simpl in Hi. injection Hi as <-.
    exists l'. split.
    + unfold items_of. simpl. now rewrite dict_get_set_same.
    + apply remove_first_length in Er. lia.
  - intros Hh Hi. destruct u. injection Hh as <-.
    unfold same_data in Hbody. simpl in Hbody. rewrite Hbody.
    exists items. split; [exact Hi | lia].
Qed.

(** The loop is given as many steps as the list has items; it never
    needs more. *)
Lemma load_accounts_from_enough (w : world) (n : nat) :
  forall m i st items,
    items_of (sessions_data st) = inr items ->
    length items <= i + n -> n <= m ->
    load_accounts_from w n i st = load_accounts_from w m i st.
Proof.
  induction n as [|n IH]; intros m i st items Hi Hn Hm.
  - destruct m as [|m]; [reflexivity|].
    cbn [load_accounts_from]. unfold bind at 1.
    rewrite accounts_items_eq, Hi.
    replace (nth_error items i) with (@None value); [reflexivity|].
    symmetry. apply nth_error_None. lia.
  - destruct m as [|m]; [lia|].
    cbn [load_accounts_from]. unfold bind at 1 3.
    rewrite accounts_items_eq, Hi.
    destruct (nth_error items i) as [account|]; [|reflexivity].
    unfold bind.
    destruct (load_account w account st) as [[e|[]] st1] eqn:El;
      [reflexivity|].
    destruct (load_account_items w account st st1 items El Hi)
      as [items1 [Hi1 Hl]].
    apply (IH m (S i) st1 items1 Hi1); lia.
Qed.

(** [load_accounts] does the same with any larger bound. *)
Corollary load_accounts_enough (w : world) (k : nat) (st : state) :
  (items <- accounts_items ;; load_accounts_from w (length items + k) 0) st
  = load_accounts w st.
Proof.
  unfold load_accounts, bind. rewrite accounts_items_eq.
  destruct (items_of (sessions_data st)) as [e|items] eqn:E; [reflexivity|].
  symmetry. apply (load_accounts_from_enough w _ _ 0 st items E); lia.
Qed.

(** * Further properties *)

(** ** Rounds in a row *)

Lemma same_but_log_refl (st : state) : same_but_log st st.
Proof. unfold same_but_log. tauto. Qed.

Lemma same_but_log_trans (a b c : state) :
  same_but_log a b -> same_but_log b c -> same_but_log a c.
Proof. unfold same_but_log. intuition congruence. Qed.

Lemma same_but_log_add_log (ev : event) :
  steps same_but_log (modify (add_log ev)).
Proof. intros st. unfold same_but_log. simpl. tauto. Qed.

Lemma steps_for_each (R : state -> state -> Prop) {A} (body : A -> M unit)
      (l : list A) :
  (forall st, R st st) ->
  (forall a b c, R a b -> R b c -> R a c) ->
  (forall x, steps R (body x)) -> steps R (for_each body l).
Proof.
  intros Hr Ht Hb. induction l as [|x l IH]; simpl.
  - now apply steps_ret.
  - apply steps_bind; [exact Ht | apply Hb | intros _; exact IH].
Qed.

Ltac log_auto :=
  repeat first
    [ progress intros
    | apply (steps_ret _ same_but_log_refl)
    | apply (steps_raise _ same_but_log_refl)
    | apply (steps_lift _ same_but_log_refl)
    | apply (steps_gets _ same_but_log_refl)
    | apply same_but_log_add_log
    | apply (steps_bind _ same_but_log_trans)
    | apply (steps_try_except _ same_but_log_trans)
    | apply (steps_for_each _ _ _ same_but_log_refl same_but_log_trans)
    | match goal with
      | |- steps _ (match ?x with _ => _ end) => destruct x
      end ].

Lemma steps_broadcast_round (w : world) :
  steps same_but_log (broadcast_round w).
Proof.
  unfold broadcast_round, send_to_target, send_message, client_send_message,
    data_item, print.
  log_auto.
Qed.

(** X1. Sending never touches anything but the trace: whatever the
    document holds and whatever the calls answer, after any number of
    rounds the document, the list of clients, the file and the standard
    input are what they were. *)
Theorem scheduled_message_sender_only_logs
        (w : world) (rounds : nat) (st : state) :
  same_but_log st (snd (scheduled_message_sender w rounds st)).
Proof.
  revert st. change (steps same_but_log (scheduled_message_sender w rounds)).
  induction rounds as [|n IH]; cbn [scheduled_message_sender].
  - apply (steps_ret _ same_but_log_refl).
  - apply (steps_bind _ same_but_log_trans);
      [apply steps_broadcast_round | intros _; exact IH].
Qed.









Lemma idle_rounds_run (w : world) (k : nat) :
  forall st, clients st = [] ->
    scheduled_message_sender w k st
    = (inr tt, extend_log (concat (repeat idle_round k)) st).
Proof.
  induction k as [|k IH]; intros st Hc.
  - simpl. now rewrite extend_log_nil.
  - cbn [scheduled_message_sender repeat concat].
    assert (Hr : broadcast_round w st = (inr tt, extend_log idle_round st)).
    { unfold broadcast_round. unfold bind at 1. cbn [gets]. rewrite Hc.
      cbn [for_each]. unfold print, bind, idle_round. run_m.
      rewrite <- ?List.app_assoc. reflexivity. }
    rewrite (bind_inr _ Hr). rewrite IH by exact Hc.
    now rewrite extend_log_app.
Qed.

(** X3. Without a client the targets are never looked at: whatever the
    document is, even one without [targets], each round only announces
    the next one and sleeps three hours, and nothing is raised. *)
Theorem scheduled_message_sender_without_clients
        (w : world) (st : state) (k : nat) :
  clients st = [] ->
  scheduled_message_sender w k st
  = (inr tt, extend_log (concat (repeat idle_round k)) st)
  /\ sent_calls (concat (repeat idle_round k)) = [].
Proof.
  intros Hc. split; [now apply idle_rounds_run|].
  induction k as [|k IH]; [reflexivity|].
  cbn [repeat concat]. rewrite sent_calls_app, IH. reflexivity.
Qed.

Lemma scheduled_message_sender_without_clients_witness :
  clients Scenario.no_clients = []
  /\ scheduled_message_sender Scenario.deaf 2 Scenario.no_clients
     = (inr tt,
        extend_log (idle_round ++ idle_round) Scenario.no_clients).
Proof.
  split; [reflexivity|].
  exact (proj1 (scheduled_message_sender_without_clients
                  Scenario.deaf Scenario.no_clients 2 eq_refl)).
Defined.

(** X4. With a client, a document without targets stops the sender: the
    indexing error of [self.sessions_data['targets']] is raised outside
    the handlers of the loop body, so the first round raises it at once,
    before any line is printed, any message sent or any sleep. *)
Theorem scheduled_message_sender_raises_without_targets
        (w : world) (st : state) (c : client) (cs : list client) (e : exn)
        (k : nat) :
  clients st = c :: cs ->
  getitem (sessions_data st) (py "targets") = inl e ->
  scheduled_message_sender w (S k) st = (inl e, st).
Proof.
  intros Hc He. cbn [scheduled_message_sender].
  unfold broadcast_round, data_item, bind, gets, lift.
  rewrite Hc. cbn [for_each]. unfold bind. now rewrite He.
Qed.

Lemma scheduled_message_sender_raises_without_targets_witness :
  clients Scenario.no_targets = [Scenario.alice]
  /\ scheduled_message_sender Scenario.deaf 1 Scenario.no_targets
     = (inl (Raise KeyError (py "targets")), Scenario.no_targets).
Proof.
  split; [reflexivity|].
  exact (scheduled_message_sender_raises_without_targets
           Scenario.deaf Scenario.no_targets Scenario.alice []
           (Raise KeyError (py "targets")) 0 eq_refl eq_refl).
Defined.

(** ** The end of [run] *)



(** ** Adding targets *)

Lemma add_target_run (d : list (pystr * value)) (l : list value)
      (raw message : pystr) (rest : list pystr) (cs : list client)
      (f : result pystr) (lg : list event) :
  Dict.get (py "targets") d = Some (VList l) ->
  let data' :=
    VDict (Dict.set (py "targets")
             (VList (l ++ [target_entry (normalize_target raw) message])) d) in
  add_target (State (VDict d) cs f (raw :: message :: rest) lg)
  = (inr tt,
     State data' cs (inr (Json.dumps data')) rest
       (lg ++
        [Prompt "Enter target username/group/channel (with or without @) or link: ";
         Prompt "Enter the message to send: ";
         Saved (Json.dumps data');
         Print "Added new target: {}" [VStr (normalize_target raw)]])).
Proof.
  intros Hg data'.
  unfold add_target, input, print, save_sessions. unfold bind. run_m.
  erewrite mutate_item_run; [|reflexivity|exact Hg|reflexivity].
  run_m. rewrite <- !List.app_assoc. reflexivity.
Qed.

Lemma more_targets_script (stop : pystr) (rest : list pystr)
      (new : list (pystr * pystr * pystr)) :
  says_yes stop = false ->
  forallb (fun arm => says_yes (fst (fst arm))) new = true ->
  forall fuel st d l,
    sessions_data st = VDict d ->
    Dict.get (py "targets") d = Some (VList l) ->
    stdin st = target_lines new ++ stop :: rest ->
    length (stdin st) < fuel ->
    exists st',
      more_targets fuel st = (inr tt, st')
      /\ sessions_data st'
         = VDict (Dict.set (py "targets") (VList (l ++ typed_entries new)) d)
      /\ stdin st' = rest
      /\ clients st' = clients st
      /\ sessions_file st'
         = match new with
           | [] => sessions_file st
           | _ :: _ => inr (Json.dumps (sessions_data st'))
           end.
Proof.
  intros Hstop. induction new as [|[[a raw] msg] new IH];
    intros Hyes fuel st d l Hd Hg Hin Hfuel.
  - destruct fuel as [|fuel]; [lia|].
    destruct st as [data cs f lines lg]. simpl in Hd, Hin. subst data lines.
    cbn [more_targets]. unfold bind at 1. rewrite input_run.
    cbn [stdin]. unfold says_yes in Hstop. rewrite Hstop.
    eexists. split; [reflexivity|].
    cbn [negb set_stdin add_log sessions_data stdin clients sessions_file
         typed_entries map].
    rewrite app_nil_r, (dict_set_get _ _ _ Hg). repeat split.
  - destruct fuel as [|fuel]; [lia|].
    cbn [forallb fst] in Hyes. apply andb_true_iff in Hyes as [Ha Hyes].
    destruct st as [data cs f lines lg]. simpl in Hd, Hin, Hfuel.
    subst data lines.
    cbn [more_targets]. unfold bind at 1. rewrite input_run.
    cbn [stdin target_lines flat_map fst snd app].
    unfold says_yes in Ha. rewrite Ha. cbn [negb].
    unfold add_log, set_stdin.
    cbn [sessions_data clients sessions_file stdin log].
    rewrite (bind_inr _ (add_target_run d l raw msg _ cs f _ Hg)).
    cbn [target_lines flat_map fst snd app length] in Hfuel.
    match goal with
    | |- context [more_targets fuel ?s] =>
        destruct (IH Hyes fuel s _ (l ++ [target_entry (normalize_target raw) msg])
                     eq_refl (dict_get_set_same _ _ _) eq_refl)
          as [st' [Hrun [Hdata [Hstdin [Hcs Hfile]]]]]
    end.
    { cbn [stdin]. fold (target_lines new). lia. }
    exists st'. split; [exact Hrun|].
    rewrite dict_set_set, <- List.app_assoc in Hdata.
    cbn [sessions_data clients sessions_file] in *.
    repeat split; try assumption.
    destruct new; [|exact Hfile].
    rewrite Hfile, Hdata. cbn [typed_entries map fst snd]. reflexivity.
Qed.

(** X6. The question for another target adds one target per yes: when
    the answers [y] or [Y] are each followed by a target and a message,
    and the first other answer ends the loop, the targets of the document
    are the old ones followed by the new entries in the order typed, each
    with its cleaned recipient; the lines after the last answer stay
    unread, the clients stay, and when something was added the file holds
    the final document. *)
Theorem more_targets_adds_one_per_yes
        (st : state) (d : list (pystr * value)) (l : list value)
        (new : list (pystr * pystr * pystr)) (stop : pystr)
        (rest : list pystr) (fuel : nat) :
  sessions_data st = VDict d ->
  Dict.get (py "targets") d = Some (VList l) ->
  forallb (fun arm => says_yes (fst (fst arm))) new = true ->
  says_yes stop = false ->
  stdin st = target_lines new ++ stop :: rest ->
  length (stdin st) < fuel ->
  exists st',
    more_targets fuel st = (inr tt, st')
    /\ sessions_data st'
       = VDict (Dict.set (py "targets") (VList (l ++ typed_entries new)) d)
    /\ stdin st' = rest
    /\ clients st' = clients st
    /\ sessions_file st'
       = match new with
         | [] => sessions_file st
         | _ :: _ => inr (Json.dumps (sessions_data st'))
         end.
Proof.
  intros Hd Hg Hyes Hstop Hin Hfuel.
  exact (more_targets_script stop rest new Hstop Hyes fuel st d l
           Hd Hg Hin Hfuel).
Qed.

Lemma more_targets_adds_one_per_yes_witness :
  let st := State default_document [] (inl (Raise FileNotFoundError []))
              [py "Y"; py "@group"; py "hi";
               py "y"; py "https://t.me/news"; py "hello";
               py "no"; py "left"] [] in
  exists st',
    more_targets 9 st = (inr tt, st')
    /\ sessions_data st'
       = VDict [(py "accounts", VList []);
                (py "targets",
                 VList [target_entry (py "group") (py "hi");
                        target_entry (py "news") (py "hello")])]
    /\ stdin st' = [py "left"].
Proof.
  intros st.
  destruct (more_targets_adds_one_per_yes st
              [(py "accounts", VList []); (py "targets", VList [])] []
              [(py "Y", py "@group", py "hi");
               (py "y", py "https://t.me/news", py "hello")]
              (py "no") [py "left"] 9
              eq_refl eq_refl eq_refl eq_refl eq_refl)
    as [st' [H1 [H2 [H3 _]]]].
  - simpl. lia.
  - exists st'. split; [exact H1|]. split; [exact H2 | exact H3].
Defined.





(** ** What [setup] leaves behind *)







(** ** Adding an account *)











Lemma sanitize_name_chars (w : world) (raw : pystr) :
  forallb (name_char w) (sanitize w raw) = true.
Proof.
  unfold sanitize. induction raw as [|c raw IH]; [reflexivity|].
  cbn [filter]. fold (name_char w c).
  destruct (name_char w c) eqn:E; [|exact IH].
  cbn [forallb]. now rewrite E, IH.
Qed.

(** X10. A successful call of [add_new_account]: when the temporary
    client starts and tells who is logged in, the name has a user name or
    a first name, and the client of the cleaned name starts, then the
    temporary client is stopped before the new one is started, the new
    client is returned and appended to the clients, and the name, which
    only has letters, digits, [-] and [_], is appended to the accounts and
    saved at once unless it is tracked already, in which case neither the
    document nor the file changes. *)
Theorem add_new_account_registers_client
        (w : world) (st : state) (d : list (pystr * value))
        (accs names : list value) (me : user) (raw : pystr) :
  let temp := Client (VStr (py "temp_session")) false in
  let name := sanitize w raw in
  let c := Client (VStr name) false in
  let n := length (log st) in
  sessions_data st = VDict d ->
  Dict.get (py "accounts") d = Some (VList accs) ->
  session_names accs = inr names ->
  start_outcome w n temp = None ->
  get_me_outcome w (n + 1) temp = inr me ->
  username_or_first_name me = Some raw ->
  start_outcome w (n + 3) c = None ->
  let data' :=
    if py_in (VStr name) names then VDict d
    else VDict (Dict.set (py "accounts")
                  (VList (accs ++ [account_entry name])) d) in
  exists st',
    add_new_account w st = (inr (Some c), st')
    /\ clients st' = clients st ++ [c]
    /\ sessions_data st' = data'
    /\ sessions_file st'
       = (if py_in (VStr name) names then sessions_file st
          else inr (Json.dumps data'))
    /\ stdin st' = stdin st
    /\ log st'
       = log st ++ login_events temp c me
         ++ (if py_in (VStr name) names then []
             else [Saved (Json.dumps data')])
    /\ forallb (name_char w) name = true.
Proof.
  intros temp name c n Hd Hg Hn Hs1 Hme Hraw Hs2 data'.
  destruct st as [data cs f lines lg]. simpl in Hd, n. subst data.
  assert (Hpre :
    forall k : list value -> pystr -> M (option client),
      (start w temp ;;
       me0 <- get_me w temp ;;
       session_name <-
         match username_or_first_name me0 with
         | Some name0 => ret (sanitize w name0)
         | None => raise (Raise TypeError (py "'NoneType' object is not iterable"))
         end ;;
       stop temp ;;
       let c0 := Client (VStr session_name) false in
       start w c0 ;;
       print "Successfully logged in as {}" [opt_str (first_name me0)] ;;
       names0 <- tracked_names ;;
       k names0 session_name)
        (State (VDict d) cs f lines lg)
      = k names name
          (State (VDict d) cs f lines (lg ++ login_events temp c me))).
  { intros k. unfold start, get_me, stop, print, bind. run_m.
    fold n. rewrite Hs1. run_m.
    rewrite length_app. cbn [length]. fold n. rewrite Hme, Hraw. run_m.
    rewrite !length_app. cbn [length]. fold n.
    replace (n + 1 + 1 + 1) with (n + 3) by lia.
    fold name. fold c. rewrite Hs2. run_m.
    erewrite tracked_names_run; [|reflexivity|exact Hg|exact Hn].
    unfold login_events. rewrite <- !List.app_assoc. reflexivity. }
  unfold add_new_account, try_except.
  match goal with
  | |- context [match ?body ?s with _ => _ end] =>
      assert (E : body s = _)
        by exact (Hpre (fun names0 session_name =>
          (if negb (py_in (VStr session_name) names0)
           then mutate_item "accounts"
                  (fun l => append l (account_entry session_name)) ;;
                save_sessions
           else ret tt) ;;
          modify (fun st0 =>
                    set_clients
                      (clients st0 ++ [Client (VStr session_name) false])
                      st0) ;;
          ret (Some (Client (VStr session_name) false))));
      rewrite E; clear E
  end.
  cbv beta.
  fold c. unfold data'. destruct (py_in (VStr name) names); cbn [negb].
  - unfold bind. run_m. eexists. split; [reflexivity|].
    cbn [clients sessions_data sessions_file stdin log].
    rewrite app_nil_r. repeat split. apply sanitize_name_chars.
  - unfold bind at 1. unfold bind at 1.
    erewrite mutate_item_run; [|reflexivity|exact Hg|reflexivity].
    unfold save_sessions, bind. run_m. eexists. split; [reflexivity|].
    cbn [clients sessions_data sessions_file stdin log].
    rewrite <- !List.app_assoc. repeat split. apply sanitize_name_chars.
Qed.

Lemma add_new_account_registers_client_witness :
  exists st',
    add_new_account Scenario.login Scenario.loaded
    = (inr (Some (Client (VStr (py "bob1_")) false)), st')
    /\ clients st' = [Scenario.alice; Client (VStr (py "bob1_")) false].
Proof.
  destruct (add_new_account_registers_client
              Scenario.login Scenario.loaded
              [(py "accounts", VList [account_entry (py "alice")]);
               (py "targets",
                VList [Scenario.first_target; Scenario.second_target])]
              [account_entry (py "alice")] [VStr (py "alice")]
              Scenario.bob (py "bob 1!_")
              eq_refl eq_refl eq_refl eq_refl eq_refl eq_refl eq_refl)
    as [st' [H1 [H2 _]]].
  exists st'. split; [exact H1 | exact H2].
Defined.

(** ** Loading the accounts *)

Lemma load_account_starts (w : world) (account : value) (s : pystr)
      (data : value) (cs : list client) (f : result pystr)
      (lines : list pystr) (lg : list event) :
  getitem account (py "session_name") = inr (VStr s) ->
  start_outcome w (length lg) (session_client w s) = None ->
  load_account w account (State data cs f lines lg)
  = (inr tt,
     if PyStr.eqb s (py "temp_session") then State data cs f lines lg
     else State data (cs ++ [session_client w s]) f lines
            (lg ++ [Started (session_client w s) None;
                    Print "Successfully loaded session: {}" [VStr s]])).
Proof.
  intros Hname Hstart.
  unfold load_account, try_except. unfold bind at 1. unfold lift at 1.
  rewrite Hname.
  assert (Hpath :
    (if session_file_exists w (VStr s)
     then ret (VStr (path_join (py "sessions") s))
     else ret (VStr s)) (State data cs f lines lg)
    = (inr (client_name (session_client w s)), State data cs f lines lg)).
  { unfold session_client. cbn [client_name].
    now destruct (session_file_exists w (VStr s)). }
  rewrite (bind_inr _ Hpath).
  cbn [py_eq]. destruct (PyStr.eqb s (py "temp_session")); [reflexivity|].
  change (Client (client_name (session_client w s)) true)
    with (session_client w s).
  unfold start, print, bind. run_m. rewrite Hstart. run_m.
  rewrite <- !List.app_assoc. reflexivity.
Qed.

Lemma loadable_cons (s : pystr) (strs : list pystr) :
  loadable (s :: strs)
  = if PyStr.eqb s (py "temp_session") then loadable strs
    else s :: loadable strs.
Proof.
  unfold loadable. cbn [filter].
  now destruct (PyStr.eqb s (py "temp_session")).
Qed.

Lemma loading_events_cons (w : world) (s : pystr) (strs : list pystr) :
  loading_events w (s :: strs)
  = if PyStr.eqb s (py "temp_session") then loading_events w strs
    else [Started (session_client w s) None;
          Print "Successfully loaded session: {}" [VStr s]]
         ++ loading_events w strs.
Proof.
  unfold loading_events. rewrite loadable_cons.
  now destruct (PyStr.eqb s (py "temp_session")).
Qed.

Lemma load_accounts_from_all (w : world) (d : list (pystr * value))
      (accs : list value) (f : result pystr) (lines : list pystr)
      (suf : list value) :
  Dict.get (py "accounts") d = Some (VList accs) ->
  forall (strs : list pystr) (pre : list value) (fuel : nat)
         (cs : list client) (lg : list event),
    accs = pre ++ suf ->
    session_names suf = inr (map VStr strs) ->
    (forall n s, In s strs -> start_outcome w n (session_client w s) = None) ->
    length suf <= fuel ->
    load_accounts_from w fuel (length pre) (State (VDict d) cs f lines lg)
    = (inr tt,
       State (VDict d) (cs ++ map (session_client w) (loadable strs))
             f lines (lg ++ loading_events w strs)).
Proof.
  intros Hg. induction suf as [|a suf IH];
    intros strs pre fuel cs lg Hacc Hn Hw Hfuel.
  - destruct strs; [|discriminate Hn].
    cbn [loadable loading_events filter map flat_map].
    rewrite !app_nil_r.
    destruct fuel as [|fuel]; [reflexivity|].
    cbn [load_accounts_from]. unfold bind at 1.
    rewrite accounts_items_eq. unfold items_of. cbn [sessions_data getitem].
    rewrite Hg. cbn [iter]. rewrite Hacc, app_nil_r.
    now rewrite (proj2 (nth_error_None pre (length pre)) (le_n _)).
  - unfold session_names in Hn. cbn [traverse] in Hn.
    destruct (getitem a (py "session_name")) as [e|name] eqn:Ea;
      [discriminate|].
    fold (session_names suf) in Hn.
    destruct (session_names suf) as [e|names] eqn:En; [discriminate|].
    destruct strs as [|s strs]; [discriminate|].
    cbn [map] in Hn. injection Hn as -> ->.
    destruct fuel as [|fuel]; [cbn [length] in Hfuel; lia|].
    cbn [load_accounts_from]. unfold bind at 1.
    rewrite accounts_items_eq. unfold items_of. cbn [sessions_data getitem].
    rewrite Hg. cbn [iter]. rewrite Hacc.
    rewrite nth_error_app2 by lia. rewrite Nat.sub_diag. cbn [nth_error].
    rewrite (bind_inr _ (load_account_starts w a s (VDict d) cs f lines lg
                           Ea (Hw _ s (or_introl eq_refl)))).
    assert (Hpre : S (length pre) = length (pre ++ [a]))
      by (rewrite length_app; simpl; lia).
    rewrite Hpre.
    assert (Hacc' : accs = (pre ++ [a]) ++ suf)
      by (now rewrite <- List.app_assoc).
    assert (Hw' : forall n s0, In s0 strs ->
                    start_outcome w n (session_client w s0) = None)
      by (intros n s0 Hs0; apply Hw; now right).
    cbn [length] in Hfuel.
    rewrite loadable_cons, loading_events_cons.
    destruct (PyStr.eqb s (py "temp_session")).
    + rewrite (IH strs (pre ++ [a]) fuel cs lg Hacc' eq_refl Hw')
        by lia.
      reflexivity.
    + rewrite (IH strs (pre ++ [a]) fuel _ _ Hacc' eq_refl Hw') by lia.
      cbn [map]. rewrite <- !List.app_assoc. reflexivity.
Qed.

Lemma load_accounts_run
        (w : world) (st : state) (d : list (pystr * value))
        (accs : list value) (strs : list pystr) :
  sessions_data st = VDict d ->
  Dict.get (py "accounts") d = Some (VList accs) ->
  session_names accs = inr (map VStr strs) ->
  (forall n s, In s strs -> start_outcome w n (session_client w s) = None) ->
  load_accounts w st
  = (inr tt,
     State (VDict d) (clients st ++ map (session_client w) (loadable strs))
           (sessions_file st) (stdin st)
           (log st ++ loading_events w strs)).
Proof.
  intros Hd Hg Hn Hw. destruct st as [data cs f lines lg].
  simpl in Hd. subst data. cbn [clients sessions_file stdin log].
  unfold load_accounts. unfold bind at 1.
  rewrite accounts_items_eq. unfold items_of. cbn [sessions_data getitem].
  rewrite Hg. cbn [iter].
  exact (load_accounts_from_all w d accs f lines accs Hg strs [] (length accs)
           cs lg eq_refl Hn Hw (le_n _)).
Qed.

(** X11. When every client starts, the loop of [setup] over the accounts
    makes one client for each account but the reserved name, in the order
    of the list: with the session path under [sessions] when the file is
    there and the bare name otherwise, and with updates off.  The
    document and the file stay as they are, and for each client its start
    and the line about the loaded session are logged. *)
Theorem load_accounts_starts_every_account
        (w : world) (st : state) (d : list (pystr * value))
        (accs : list value) (strs : list pystr) :
  sessions_data st = VDict d ->
  Dict.get (py "accounts") d = Some (VList accs) ->
  session_names accs = inr (map VStr strs) ->
  (forall n s, In s strs -> start_outcome w n (session_client w s) = None) ->
  load_accounts w st
  = (inr tt,
     State (VDict d) (clients st ++ map (session_client w) (loadable strs))
           (sessions_file st) (stdin st)
           (log st ++ loading_events w strs)).
Proof. apply load_accounts_run. Qed.

Lemma load_accounts_starts_every_account_witness :
  load_accounts Scenario.bob_in_sessions Scenario.reserved_between
  = (inr tt,
     State Scenario.with_reserved
           [Client (VStr (py "alice")) true;
            Client (VStr (py "sessions/bob")) true]
           (inr (Json.dumps Scenario.with_reserved)) []
           [Started (Client (VStr (py "alice")) true) None;
            Print "Successfully loaded session: {}" [VStr (py "alice")];
            Started (Client (VStr (py "sessions/bob")) true) None;
            Print "Successfully loaded session: {}" [VStr (py "bob")]]).
Proof.
  exact (load_accounts_starts_every_account
           Scenario.bob_in_sessions Scenario.reserved_between
           [(py "accounts",
             VList [account_entry (py "alice");
                    account_entry (py "temp_session");
                    account_entry (py "bob")]);
            (py "targets", VList [])]
           [account_entry (py "alice"); account_entry (py "temp_session");
            account_entry (py "bob")]
           [py "alice"; py "temp_session"; py "bob"]
           eq_refl eq_refl eq_refl (fun _ _ _ => eq_refl)).
Defined.

(** ** What discovery finds *)

Lemma scan_names_sound (files : list pystr) :
  forall names s,
    In s (scan_names names files) ->
    exists file, In file files /\ is_session_file file = true
                 /\ stem file = s.
Proof.
  induction files as [|f0 files IH]; intros names s; simpl; [tauto|].
  destruct (is_session_file f0 && negb (py_in (VStr (stem f0)) names))
    eqn:Hc.
  - intros [<-|H].
    + apply andb_true_iff in Hc as [Hc _]. exists f0. auto.
    + destruct (IH _ _ H) as [file [Hin Hf]]. exists file. auto.
  - intros H. destruct (IH _ _ H) as [file [Hin Hf]]. exists file. auto.
Qed.

Lemma py_in_strs (s : pystr) (l : list pystr) :
  py_in (VStr s) (map VStr l) = true -> In s l.
Proof.
  induction l as [|x l IH]; simpl; [discriminate|].
  intros H. apply orb_true_iff in H as [H|H].
  - left. now apply pystr_eqb_eq in H.
  - right. now apply IH.
Qed.

(** X12. What discovery finds: for a document whose accounts all have a
    name, the names returned are exactly the names of the session files
    under the script directory that are not tracked yet, the reserved
    name left out; the file is written when a name was found and only
    then, and the clients and the standard input are never touched. *)
Theorem detect_existing_sessions_finds_untracked_files
        (w : world) (st : state) (d : list (pystr * value))
        (accs names : list value) :
  sessions_data st = VDict d ->
  Dict.get (py "accounts") d = Some (VList accs) ->
  session_names accs = inr names ->
  exists found st',
    detect_existing_sessions w st = (inr found, st')
    /\ (forall s,
          In s found <->
          py_in (VStr s) names = false
          /\ exists file, In file (walked_files w)
                          /\ endswith (py ".session") file = true
                          /\ stem file = s
                          /\ s <> py "temp_session")
    /\ (found = [] ->
        sessions_data st' = sessions_data st
        /\ sessions_file st' = sessions_file st
        /\ saves (skipn (length (log st)) (log st')) = [])
    /\ (found <> [] ->
        sessions_file st' = inr (Json.dumps (sessions_data st')))
    /\ clients st' = clients st
    /\ stdin st' = stdin st.
Proof.
  intros Hd Hg Hn. destruct st as [data cs f lines lg].
  simpl in Hd. subst data.
  pose proof (detect_existing_sessions_run w d accs names cs f lines lg
                Hg Hn) as Hrun.
  cbv zeta in Hrun.
  set (found := scan_names names (walked_files w)) in *.
  exists found. eexists. split; [exact Hrun|].
  split; [|split; [|split; [|split]]].
  - intros s. split.
    + intros Hin. split; [exact (scan_names_new _ _ _ Hin)|].
      destruct (scan_names_sound _ _ _ Hin) as [file [Hf [Hs He]]].
      exists file. unfold is_session_file in Hs.
      apply andb_true_iff in Hs as [Hs1 Hs2].
      repeat split; try assumption.
      apply negb_true_iff, pystr_eqb_neq in Hs2. now rewrite He in Hs2.
    + intros [Hnew [file [Hf [Hs [He Ht]]]]].
      assert (Hsf : is_session_file file = true).
      { unfold is_session_file. rewrite Hs, He. cbn [andb].
        apply negb_true_iff. now apply pystr_eqb_neq. }
      pose proof (scan_names_covers (walked_files w) names file Hf Hsf) as Hc.
      fold found in Hc. rewrite He, py_in_app, Hnew in Hc.
      now apply py_in_strs.
  - intros E. rewrite E. cbn [sessions_data sessions_file log].
    rewrite skipn_app, skipn_all, Nat.sub_diag. now repeat split.
  - intros E. destruct found; [contradiction|]. reflexivity.
  - now destruct found.
  - now destruct found.
Qed.

Lemma detect_existing_sessions_finds_untracked_files_witness :
  exists st',
    detect_existing_sessions Scenario.home Scenario.tracking_alice
    = (inr [py "bob"], st')
    /\ sessions_file st' = inr (Json.dumps (sessions_data st')).
Proof.
  destruct (detect_existing_sessions_finds_untracked_files
              Scenario.home Scenario.tracking_alice
              [(py "accounts", VList [account_entry (py "alice")]);
               (py "targets",
                VList [Scenario.first_target; Scenario.second_target])]
              [account_entry (py "alice")] [VStr (py "alice")]
              eq_refl eq_refl eq_refl)
    as [found [st' [Hrun [_ [_ [Hfile _]]]]]].
  assert (Hfound : found = [py "bob"]).
  { assert (E : fst (detect_existing_sessions Scenario.home
                       Scenario.tracking_alice) = inr [py "bob"])
      by (vm_compute; reflexivity).
    rewrite Hrun in E. cbn [fst] in E. now injection E. }
  exists st'. split.
  - rewrite Hrun, Hfound. reflexivity.
  - apply Hfile. rewrite Hfound. discriminate.
Defined.

(** ** The name a session file stands for *)

Lemma session_suffix_no_border (name : pystr) :
  name <> [] ->
  startswith (py ".session") name = false ->
  startswith (py ".session") (name ++ py ".session") = false.
Proof.
  intros Hne Hs.
  destruct name as [|c1 name]; [contradiction|].
  do 7 (destruct name as [|? name];
        [cbn; rewrite ?andb_false_r; reflexivity|]).
  exact Hs.
Qed.

Lemma replace_session_suffix (name : pystr) :
  contains (py ".session") name = false ->
  replace (py ".session") [] (name ++ py ".session") = name.
Proof.
  unfold replace. induction name as [|c name IH]; intros Hc.
  - reflexivity.
  - cbn [contains] in Hc. apply orb_false_iff in Hc as [Hs Hc].
    pose proof (session_suffix_no_border (c :: name)
                  ltac:(discriminate) Hs) as Hb.
    change ((c :: name) ++ py ".session")
      with (c :: (name ++ py ".session")) in *.
    cbn [replace_from]. rewrite Hb. f_equal. now apply IH.
Qed.

(** X13. The file [<name>.session] stands for [<name>]: when the name
    does not contain [.session] itself, the file ends in [.session], what
    [replace] leaves of it is the name, and discovery passes it over only
    when the name is the reserved one. *)
Theorem stem_of_session_file (name : pystr) :
  contains (py ".session") name = false ->
  endswith (py ".session") (name ++ py ".session") = true
  /\ stem (name ++ py ".session") = name
  /\ is_session_file (name ++ py ".session")
     = negb (PyStr.eqb name (py "temp_session")).
Proof.
  intros Hc.
  assert (He : endswith (py ".session") (name ++ py ".session") = true).
  { unfold endswith. rewrite rev_app_distr. apply startswith_app. }
  assert (Hs : stem (name ++ py ".session") = name)
    by (unfold stem; now apply replace_session_suffix).
  split; [exact He|]. split; [exact Hs|].
  unfold is_session_file. now rewrite He, Hs.
Qed.

Lemma stem_of_session_file_witness :
  stem (py "my.account.session") = py "my.account".
Proof.
  exact (proj1 (proj2 (stem_of_session_file (py "my.account") eq_refl))).
Defined.

(** ** The text of the file *)

Lemma skip_ws_blank (s : pystr) :
  forallb Json.is_ws s = true -> Json.skip_ws s = [].
Proof.
  induction s as [|c s IH]; [reflexivity|].
  cbn [forallb Json.skip_ws]. intros H.
  apply andb_true_iff in H as [Hc Hs]. rewrite Hc. now apply IH.
Qed.

(** X14. A file that holds nothing but white space is no document:
    [load_sessions] raises the decoding error, which is not the one it
    catches, and so does the constructor. *)
Theorem load_sessions_blank_file_raises (s : pystr) (lines : list pystr) :
  forallb Json.is_ws s = true ->
  load_sessions (inr s) = inl Json.decode_error
  /\ init (inr s) lines = inl Json.decode_error.
Proof.
  intros H.
  assert (E : load_sessions (inr s) = inl Json.decode_error).
  { unfold load_sessions, Json.loads. rewrite (skip_ws_blank s H).
    destruct (startswith [65279%N] s); [reflexivity|].
    replace (2 * length s + 1) with (S (2 * length s)) by lia.
    reflexivity. }
  split; [exact E|]. unfold init. now rewrite E.
Qed.

Lemma load_sessions_blank_file_raises_witness :
  load_sessions (inr (py "  ")) = inl Json.decode_error.
Proof.
  exact (proj1 (load_sessions_blank_file_raises (py "  ") [] eq_refl)).
Defined.

Section JsonAscii.

Local Open Scope N_scope.

Lemma forallb_map_comp {A B} (p : B -> bool) (f : A -> B) (l : list A) :
  forallb p (map f l) = forallb (fun x => p (f x)) l.
Proof. induction l as [|x l IH]; simpl; [reflexivity | now rewrite IH]. Qed.

Lemma is_ascii_app (a b : pystr) :
  is_ascii (a ++ b) = is_ascii a && is_ascii b.
Proof. apply forallb_app. Qed.

Lemma hex_digit_ascii (n : N) :
  (Json.hex_digit (n mod 16) <? 128) = true.
Proof.
  unfold Json.hex_digit. pose proof (N.mod_upper_bound n 16 ltac:(lia)).
  apply N.ltb_lt. destruct (n mod 16 <? 10); lia.
Qed.

Lemma u_escape_ascii (n : N) : is_ascii (Json.u_escape n) = true.
Proof.
  unfold Json.u_escape, Json.hex4. cbn [is_ascii forallb].
  now rewrite !hex_digit_ascii.
Qed.

Lemma escape_char_ascii (c : char) : is_ascii (Json.escape_char c) = true.
Proof.
  unfold Json.escape_char.
  repeat match goal with
         | |- context [if ?c0 =? ?k then _ else _] =>
             destruct (c0 =? k); [reflexivity|]
         end.
  destruct ((32 <=? c) && (c <=? 126)) eqn:E.
  - apply andb_true_iff in E as [_ E]. apply N.leb_le in E.
    cbn [is_ascii forallb]. rewrite andb_true_r. apply N.ltb_lt. lia.
  - destruct (c <? 65536); [apply u_escape_ascii|].
    cbv zeta. now rewrite is_ascii_app, !u_escape_ascii.
Qed.

Lemma encode_string_ascii (s : pystr) :
  is_ascii (Json.encode_string s) = true.
Proof.
  unfold Json.encode_string.
  change (34 :: flat_map Json.escape_char s ++ [34])
    with ([34] ++ flat_map Json.escape_char s ++ [34]).
  rewrite !is_ascii_app. cbn [is_ascii forallb].
  change (forallb (fun c => c <? 128) (flat_map Json.escape_char s))
    with (is_ascii (flat_map Json.escape_char s)).
  replace (is_ascii (flat_map Json.escape_char s)) with true; [reflexivity|].
  symmetry. induction s as [|c s IH]; [reflexivity|].
  cbn [flat_map]. now rewrite is_ascii_app, escape_char_ascii, IH.
Qed.

Lemma newline_indent_ascii (lvl : nat) :
  is_ascii (Json.newline_indent lvl) = true.
Proof.
  unfold Json.newline_indent. cbn [is_ascii forallb].
  induction (4 * lvl)%nat as [|n IH]; [reflexivity|exact IH].
Qed.

Lemma join_ascii (sep : pystr) (l : list pystr) :
  is_ascii sep = true -> forallb is_ascii l = true ->
  is_ascii (join sep l) = true.
Proof.
  intros Hsep. induction l as [|x l IH]; [reflexivity|].
  cbn [forallb]. intros H. apply andb_true_iff in H as [Hx Hl].
  destruct l as [|y l]; [exact Hx|].
  change (join sep (x :: y :: l)) with (x ++ sep ++ join sep (y :: l)).
  now rewrite !is_ascii_app, Hx, Hsep, IH.
Qed.

Lemma separator_ascii (lvl : nat) :
  is_ascii (44 :: Json.newline_indent lvl) = true.
Proof. exact (newline_indent_ascii lvl). Qed.

Lemma encode_list_ascii (lvl : nat) (l : list value) :
  forallb (fun v => is_ascii (Json.encode (S lvl) v)) l = true ->
  is_ascii (Json.encode lvl (VList l)) = true.
Proof.
  intros H. destruct l as [|v l]; [reflexivity|].
  change (Json.encode lvl (VList (v :: l)))
    with ([91] ++ Json.newline_indent (S lvl)
          ++ join (44 :: Json.newline_indent (S lvl))
               (map (Json.encode (S lvl)) (v :: l))
          ++ Json.newline_indent lvl ++ [93]).
  rewrite !is_ascii_app, !newline_indent_ascii.
  rewrite join_ascii;
    [reflexivity | apply separator_ascii | now rewrite forallb_map_comp].
Qed.

Lemma encode_members_ascii (lvl : nat) (d : list (pystr * value)) :
  forallb (fun kv => is_ascii (Json.encode (S lvl) (snd kv))) d = true ->
  is_ascii (Json.encode lvl (VDict d)) = true.
Proof.
  intros H. destruct d as [|kv d]; [reflexivity|].
  change (Json.encode lvl (VDict (kv :: d)))
    with ([123] ++ Json.newline_indent (S lvl)
          ++ join (44 :: Json.newline_indent (S lvl))
               (map (fun kv : pystr * value =>
                       let (k, x) := kv in
                       Json.encode_string k ++ py ": "
                       ++ Json.encode (S lvl) x) (kv :: d))
          ++ Json.newline_indent lvl ++ [125]).
  rewrite !is_ascii_app, !newline_indent_ascii.
  rewrite join_ascii; [reflexivity | apply separator_ascii|].
  rewrite forallb_map_comp. revert H.
  induction (kv :: d) as [|[k x] l IH]; [reflexivity|].
  cbn [forallb snd]. intros H. apply andb_true_iff in H as [Hx Hl].
  rewrite (IH Hl), !is_ascii_app, encode_string_ascii, Hx. reflexivity.
Qed.

Lemma saved_document_ascii (accounts : list pystr)
      (targets : list (pystr * pystr)) :
  is_ascii (Json.dumps (document accounts targets)) = true.
Proof.
  unfold Json.dumps, document.
  apply encode_members_ascii. cbn [forallb snd].
  rewrite !andb_true_r. apply andb_true_iff. split.
  - apply encode_list_ascii. rewrite forallb_map_comp.
    apply forallb_forall. intros s _.
    apply encode_members_ascii. cbn [forallb snd Json.encode].
    now rewrite encode_string_ascii.
  - apply encode_list_ascii. rewrite forallb_map_comp.
    apply forallb_forall. intros [r m] _.
    apply encode_members_ascii. cbn [forallb fst snd Json.encode].
    now rewrite !encode_string_ascii.
Qed.

End JsonAscii.

(** X15. What [save_sessions] writes for a document of the documented
    shape is ASCII text, whatever characters the names, recipients and
    messages hold: every character outside the printable ASCII range is
    written as an escape, so the file does not depend on the encoding it
    is opened with. *)
Theorem save_sessions_writes_ascii
        (st : state) (accounts : list pystr) (targets : list (pystr * pystr)) :
  sessions_data st = document accounts targets ->
  exists text,
    sessions_file (snd (save_sessions st)) = inr text
    /\ is_ascii text = true.
Proof.
  intros Hd. exists (Json.dumps (document accounts targets)).
  split; [|apply saved_document_ascii].
  unfold save_sessions, bind. run_m. now rewrite Hd.
Qed.

Lemma save_sessions_writes_ascii_witness :
  exists text,
    sessions_file (snd (save_sessions Scenario.accented)) = inr text
    /\ is_ascii text = true.
Proof.
  exact (save_sessions_writes_ascii Scenario.accented [[233%N; 128512%N]]
           [(py "group", [8364%N])] eq_refl).
Defined.

(** ** Setup with accounts that load *)

(** X16. With accounts that load, [setup] adds none unless asked to: when
    no new session file is found, every client starts and at least one
    account is not the reserved name, [setup] loads the accounts, asks
    once whether another account is wanted, and on any answer but [y] or
    [Y] goes on to the targets without a call of [add_new_account]: the
    document and the file are untouched so far and the answer is the
    only line read. *)
Theorem setup_with_loaded_accounts_asks_once
        (w : world) (st : state) (d : list (pystr * value))
        (accs : list value) (strs : list pystr)
        (answer : pystr) (rest : list pystr) :
  sessions_data st = VDict d ->
  Dict.get (py "accounts") d = Some (VList accs) ->
  session_names accs = inr (map VStr strs) ->
  scan_names (map VStr strs) (walked_files w) = [] ->
  (forall n s, In s strs -> start_outcome w n (session_client w s) = None) ->
  loadable strs <> [] ->
  stdin st = answer :: rest ->
  says_yes answer = false ->
  setup w st
  = setup_targets
      (State (VDict d) (clients st ++ map (session_client w) (loadable strs))
             (sessions_file st) rest
             (log st ++ setup_banner ++ loading_events w strs
              ++ [Prompt "\nDo you want to add another account? (y/N): "])).
Proof.
  intros Hd Hg Hn Hscan Hw Hl Hin Hno. unfold setup.
  rewrite (bind_inr _ (print_run _ _ st)).
  rewrite (bind_inr _ (print_run _ _ _)).
  rewrite (bind_inr _ (print_run _ _ _)).
  rewrite !extend_log_app. cbn [app].
  match goal with
  | |- context [bind (detect_existing_sessions w) _ ?s] =>
      rewrite (bind_inr _ (detect_nothing w s d accs (map VStr strs)
                             Hd Hg Hn Hscan))
  end.
  rewrite extend_log_app. cbn [app]. fold setup_banner.
  rewrite (bind_inr _ (load_accounts_run w (extend_log setup_banner st) d
                         accs strs Hd Hg Hn Hw)).
  cbn [extend_log clients sessions_file stdin log].
  unfold bind at 1. cbn [gets clients].
  destruct (clients st ++ map (session_client w) (loadable strs))
    as [|c cs] eqn:Ec.
  { apply app_eq_nil in Ec as [_ Ec]. apply map_eq_nil in Ec.
    contradiction. }
  unfold bind at 1. unfold bind at 1. cbn [gets stdin].
  rewrite Hin. cbn [more_accounts]. unfold bind at 1. rewrite input_run.
  cbn [stdin]. unfold says_yes in Hno. rewrite Hno. cbn [negb ret].
  unfold add_log, set_stdin.
  cbn [sessions_data clients sessions_file stdin log].
  rewrite <- !List.app_assoc. reflexivity.
Qed.

Lemma setup_with_loaded_accounts_asks_once_witness :
  loadable [py "alice"; py "temp_session"; py "bob"] <> []
  /\ stdin (snd (setup Scenario.bob_in_sessions Scenario.declining)) = []
  /\ clients (snd (setup Scenario.bob_in_sessions Scenario.declining))
     = [Client (VStr (py "alice")) true;
        Client (VStr (py "sessions/bob")) true].
Proof.
  assert (Hl : loadable [py "alice"; py "temp_session"; py "bob"] <> [])
    by discriminate.
  split; [exact Hl|].
  rewrite (setup_with_loaded_accounts_asks_once
             Scenario.bob_in_sessions Scenario.declining
             [(py "accounts",
               VList [account_entry (py "alice");
                      account_entry (py "temp_session");
                      account_entry (py "bob")]);
              (py "targets", VList [])]
             [account_entry (py "alice"); account_entry (py "temp_session");
              account_entry (py "bob")]
             [py "alice"; py "temp_session"; py "bob"]
             (py "n") []
             eq_refl eq_refl eq_refl eq_refl (fun _ _ _ => eq_refl)
             Hl eq_refl eq_refl).
  split; reflexivity.
Defined.
